(** * Terraform migration scripts: block extraction, attribute scoping,
      classification and dependency graphs

    A shallow embedding of the text-processing core of the repository:

    - [tf_splitter.py]       : [parse_tf_blocks], [extract_block],
                               [build_type_to_file_map], [get_target_file],
                               [split_terraform_file];
    - [generate_outputs.py]  : [TerraformParser._extract_block_content],
                               [_extract_top_level_attribute] and [parse];
                               [OutputGenerator.generate_locals] and
                               [generate_outputs];
    - [dependency_graph.py]  : [TerraformDependencyParser] and the DOT, Mermaid
                               and text-tree generators.

    Conventions of the embedding.

    - A Python [str] is a [string]; a character is a code point below 256
      (Latin-1), and the character classes of [re] are the ones CPython uses
      on that range.
    - A Python [dict] is an association list in insertion order: assigning to
      a key that is present replaces its value in place, assigning to a new
      key appends the binding.  Iteration follows the list.
    - A Python [set] is a duplicate-free list; wherever the source iterates
      over a set, the iteration order is a parameter of the model.
    - Files are not modelled: a function that reads a file takes its text, a
      function that writes files returns the pairs (name, text) it writes.
      The output directory of the splitter is taken to exist or to be
      creatable; whether a file of a given name opens for writing in it is a
      parameter of the model, and a name that does not open raises. *)

From Stdlib Require Import Strings.String Strings.Ascii Lists.List.
From Stdlib Require Import ZArith.ZArith Bool.Bool Arith.PeanoNat micromega.Lia.
From Stdlib Require Import Sorting.Permutation Sorting.Sorted.
From Stdlib Require Import Numbers.DecimalString.
Import ListNotations.

Local Open Scope string_scope.
Local Open Scope list_scope.

Notation "a +++ b" := (String.append a b) (at level 60, right associativity).

(* ================================================================== *)
(** * Python built-ins used by the scripts                             *)
(* ================================================================== *)

Module Py.

Definition nl : ascii := "010"%char.
Definition dquote : ascii := "034"%char.
Definition lbrace : ascii := "{"%char.
Definition rbrace : ascii := "}"%char.

Definition code (c : ascii) : N := N_of_ascii c.

Definition between (lo hi : N) (c : ascii) : bool :=
  (N.leb lo (code c) && N.leb (code c) hi)%bool.

(** [\s] of a [str] pattern: [Py_UNICODE_ISSPACE], restricted to Latin-1. *)
Definition is_space (c : ascii) : bool :=
  (between 9 13 c || between 28 32 c || N.eqb (code c) 133
   || N.eqb (code c) 160)%bool.

(** [\w] of a [str] pattern: alphanumeric code points and the underscore,
    restricted to Latin-1. *)
Definition is_word (c : ascii) : bool :=
  (between 48 57 c || between 65 90 c || between 97 122 c
   || N.eqb (code c) 95
   || N.eqb (code c) 170 || between 178 179 c || N.eqb (code c) 181
   || between 185 186 c || between 188 190 c
   || between 192 214 c || between 216 246 c || between 248 255 c)%bool.

(** [s.split('\n')]: never empty, the last field may be empty. *)
Fixpoint split_lines (s : string) : list string :=
  match s with
  | EmptyString => [EmptyString]
  | String c s' =>
      if Ascii.eqb c nl then EmptyString :: split_lines s'
      else match split_lines s' with
           | l :: ls => String c l :: ls
           | [] => [String c EmptyString]
           end
  end.

(** A string that holds no newline: one line. *)
Fixpoint no_newline (s : string) : bool :=
  match s with
  | EmptyString => true
  | String c s' => (negb (Ascii.eqb c nl) && no_newline s')%bool
  end.

(** [sep.join(parts)]. *)
Fixpoint join (sep : string) (parts : list string) : string :=
  match parts with
  | [] => EmptyString
  | [p] => p
  | p :: rest => p +++ sep +++ join sep rest
  end.

(** [s.count(c)] for a one-character needle. *)
Fixpoint count_char (c : ascii) (s : string) : Z :=
  match s with
  | EmptyString => 0%Z
  | String d s' => ((if Ascii.eqb d c then 1 else 0) + count_char c s')%Z
  end.

(** [s.startswith(p)]. *)
Definition startswith (s p : string) : bool := String.prefix p s.

(** [x in xs] for a list (or the keys of a dict) of strings. *)
Definition str_in (x : string) (xs : list string) : bool :=
  existsb (String.eqb x) xs.

(** ** Dictionaries in insertion order *)

Definition dict (V : Type) : Type := list (string * V).

Definition keys {V} (d : dict V) : list string := map fst d.

Fixpoint dict_get {V} (d : dict V) (k : string) : option V :=
  match d with
  | [] => None
  | (k', v) :: d' => if String.eqb k' k then Some v else dict_get d' k
  end.

Definition dict_mem {V} (d : dict V) (k : string) : bool :=
  match dict_get d k with Some _ => true | None => false end.

(** [d[k] = v]: replaces in place when [k] is present, appends otherwise. *)
Fixpoint dict_set {V} (d : dict V) (k : string) (v : V) : dict V :=
  match d with
  | [] => [(k, v)]
  | (k', v') :: d' =>
      if String.eqb k' k then (k', v) :: d'
      else (k', v') :: dict_set d' k v
  end.

(** [d[k].append(x)] on a [defaultdict(list)]. *)
Definition dict_append (d : dict (list string)) (k x : string)
  : dict (list string) :=
  match dict_get d k with
  | Some xs => dict_set d k (xs ++ [x])
  | None => dict_set d k [x]
  end.

(** ** [sorted]: a stable sort, here by insertion *)

Section Sorted.
Context {A : Type} (leb : A -> A -> bool).

Fixpoint insert_sorted (x : A) (l : list A) : list A :=
  match l with
  | [] => [x]
  | y :: l' => if leb x y then x :: l else y :: insert_sorted x l'
  end.

(** Stable: an element is inserted from the right and stops in front of
    the first element it is [leb] to, so equal keys keep their order. *)
Definition sorted (l : list A) : list A :=
  fold_right insert_sorted [] l.

End Sorted.

(** [set.add(x)] and [a - b] on duplicate-free lists. *)
Definition set_add (x : string) (s : list string) : list string :=
  if str_in x s then s else s ++ [x].

Definition set_diff (a b : list string) : list string :=
  filter (fun x => negb (str_in x b)) a.

End Py.

(* ================================================================== *)
(** * The regular-expression pieces the scripts are built from          *)
(* ================================================================== *)

(** Every pattern of the scripts is a sequence of pieces whose greedy match
    is forced: a piece [c*] or [c+] is always followed by a character
    outside the class [c] (or by the end of the pattern), so the first match
    the backtracking engine finds is the one where each repetition is
    maximal.  The matchers below return the text left after the piece. *)

Module Re.
Import Py.

(** Maximal prefix of characters in a class, and the rest. *)
Fixpoint take_class (p : ascii -> bool) (s : string) : string * string :=
  match s with
  | EmptyString => (EmptyString, EmptyString)
  | String c s' =>
      if p c then let (a, b) := take_class p s' in (String c a, b)
      else (EmptyString, s)
  end.

(** [\s*] *)
Definition ws0 (s : string) : string := snd (take_class is_space s).

(** [\s+] *)
Definition ws1 (s : string) : option string :=
  match take_class is_space s with
  | (EmptyString, _) => None
  | (_, r) => Some r
  end.

(** A literal. *)
Fixpoint lit (p s : string) : option string :=
  match p with
  | EmptyString => Some s
  | String c p' =>
      match s with
      | String d s' => if Ascii.eqb c d then lit p' s' else None
      | EmptyString => None
      end
  end.

(** An alternation of literals, tried left to right. *)
Fixpoint alt (ps : list string) (s : string) : option (string * string) :=
  match ps with
  | [] => None
  | p :: ps' =>
      match lit p s with
      | Some r => Some (p, r)
      | None => alt ps' s
      end
  end.

Definition not_dquote (c : ascii) : bool := negb (Ascii.eqb c dquote).

(** A quoted group, DQ ([^DQ]+) DQ where DQ is the double quote: the group
    and the rest. *)
Definition quoted (s : string) : option (string * string) :=
  match s with
  | String c s' =>
      if Ascii.eqb c dquote then
        match take_class not_dquote s' with
        | (EmptyString, _) => None
        | (v, String _ r) => Some (v, r)
        | (_, EmptyString) => None
        end
      else None
  | EmptyString => None
  end.

End Re.

(* ================================================================== *)
(** * generate_outputs.py: the attribute extractor                      *)
(* ================================================================== *)

Module Outputs.
Import Py Re.

(** [pattern.match(line)] for the pattern
    [^\s*{attr_name}\s*=\s*DQ([^DQ]+)DQ] (DQ is the double quote), for an
    attribute name made of identifier characters (the callers pass [name]
    and [virtual_network_name]); the result is group 1. *)
Definition attr_pattern (attr_name line : string) : option string :=
  match lit attr_name (ws0 line) with
  | None => None
  | Some s1 =>
      match lit "=" (ws0 s1) with
      | None => None
      | Some s2 =>
          match quoted (ws0 s2) with
          | Some (v, _) => Some v
          | None => None
          end
      end
  end.

(** The body of the [for line in block_content.split('\n')] loop, with the
    running [depth]. *)
Fixpoint attr_loop (attr_name : string) (lines : list string) (depth : Z)
  : option string :=
  match lines with
  | [] => None
  | line :: rest =>
      match (if (depth =? 0)%Z then attr_pattern attr_name line else None)
      with
      | Some v => Some v
      | None =>
          attr_loop attr_name rest
            (depth + (count_char lbrace line - count_char rbrace line))%Z
      end
  end.

Definition _extract_top_level_attribute (block_content attr_name : string)
  : option string :=
  attr_loop attr_name (split_lines block_content) 0%Z.

(** The running depth in front of line [i]: what the loop has added up over
    the lines before it. *)
Fixpoint depth_before (lines : list string) (i : nat) : Z :=
  match i, lines with
  | S j, line :: rest =>
      (count_char lbrace line - count_char rbrace line
       + depth_before rest j)%Z
  | _, _ => 0%Z
  end.

(** Line [i] declares the attribute with value [v] at depth zero. *)
Definition declares_at_zero (attr_name : string) (lines : list string)
  (i : nat) (v : string) : Prop :=
  exists line, nth_error lines i = Some line
    /\ attr_pattern attr_name line = Some v
    /\ depth_before lines i = 0%Z.

(** Line [i] declares the attribute (with some value) at a depth that is
    not zero. *)
Definition declares_nested (attr_name : string) (lines : list string)
  (i : nat) : Prop :=
  exists line v, nth_error lines i = Some line
    /\ attr_pattern attr_name line = Some v
    /\ depth_before lines i <> 0%Z.

(** The rule the specification words: every depth-zero declaration is
    recorded and the scan goes on, so the last one is kept. *)
Fixpoint last_wins_loop (attr_name : string) (lines : list string)
  (depth : Z) (recorded : option string) : option string :=
  match lines with
  | [] => recorded
  | line :: rest =>
      let recorded' :=
        match (if (depth =? 0)%Z then attr_pattern attr_name line else None)
        with
        | Some v => Some v
        | None => recorded
        end in
      last_wins_loop attr_name rest
        (depth + (count_char lbrace line - count_char rbrace line))%Z
        recorded'
  end.

Definition spec_last_depth_zero (block_content attr_name : string)
  : option string :=
  last_wins_loop attr_name (split_lines block_content) 0%Z None.

End Outputs.

(** Concrete bodies used below. *)
Module OutputsExamples.
Import Py.

Definition q (s : string) : string :=
  String dquote s +++ String dquote EmptyString.

(** Two declarations of [name] at depth zero:
<<
name = DQ first DQ
name = DQ second DQ
>> *)
Definition body_twice : string :=
  join (String nl EmptyString)
    ["name = " +++ q "first"; "name = " +++ q "second"].

(** A declaration of [name] only inside a nested block:
<<
tags {
  name = DQ inner DQ
}
>> *)
Definition body_nested : string :=
  join (String nl EmptyString)
    ["tags {"; "  name = " +++ q "inner"; "}"].

End OutputsExamples.

(* ================================================================== *)
(** * generate_outputs.py: the parser and the generators                *)
(* ================================================================== *)

Module OutputsGen.
Import Py Re Outputs.

Notation "'let?' x ':=' e 'in' k" :=
  (match e with Some x => k | None => None end)
  (at level 10, x pattern, e at level 100, k at level 200).

(** [s[n:]]. *)
Fixpoint drop (n : nat) (s : string) : string :=
  match n, s with
  | S n', String _ s' => drop n' s'
  | _, _ => s
  end.

(** The [for i, char in enumerate(self.content[start_pos:], start_pos)]
    loop of [_extract_block_content], over the characters from [i] on:
    the index it returns at, if it does. *)
Fixpoint content_loop (rest : string) (i : nat) (brace_count : Z)
  : option nat :=
  match rest with
  | EmptyString => None
  | String char rest' =>
      if Ascii.eqb char lbrace then
        content_loop rest' (S i) (brace_count + 1)%Z
      else if Ascii.eqb char rbrace then
        let brace_count := (brace_count - 1)%Z in
        if (brace_count =? 0)%Z then Some i
        else content_loop rest' (S i) brace_count
      else content_loop rest' (S i) brace_count
  end.

(** [_extract_block_content]: [content] is [self.content]; the slice
    [content[start_pos:i]] when the loop returns at [i], the empty string
    when it runs to the end. *)
Definition _extract_block_content (content : string) (start_pos : nat)
  : string :=
  match content_loop (drop start_pos content) start_pos 1%Z with
  | Some i => String.substring start_pos (i - start_pos) content
  | None => EmptyString
  end.

(** [RESOURCE_PATTERN], the header
    [resource\s+DQ([^DQ]+)DQ\s+DQ([^DQ]+)DQ\s*\{], tried at the start of
    [s]: the groups 1 and 2 and the text after the match. *)
Definition header_match (s : string) : option (string * string * string) :=
  let? r0 := lit "resource" s in
  let? r1 := ws1 r0 in
  let? (rtype, r2) := quoted r1 in
  let? r3 := ws1 r2 in
  let? (rname, r4) := quoted r3 in
  let? r5 := lit "{" (ws0 r4) in
  Some (rtype, rname, r5).

(** [RESOURCE_PATTERN.finditer(self.content)]: the groups 1 and 2 and
    [match.end()] of every match.  The pattern is tried at every position
    [pos] from left to right; after a match the search resumes at its end,
    [skip] counting the characters of the match still to be passed over. *)
Fixpoint finditer_headers (content : string) (pos skip : nat)
  : list (string * string * nat) :=
  match skip with
  | S skip' =>
      match content with
      | String _ content' => finditer_headers content' (S pos) skip'
      | EmptyString => []
      end
  | O =>
      match header_match content with
      | Some (rtype, rname, rest) =>
          let len := String.length content - String.length rest in
          (rtype, rname, pos + len)
          :: match content with
             | String _ content' =>
                 finditer_headers content' (S pos) (len - 1)
             | EmptyString => []
             end
      | None =>
          match content with
          | String _ content' => finditer_headers content' (S pos) 0
          | EmptyString => []
          end
      end
  end.

(** [ParsedResource]; [_vnet_name] is the attribute [parse] adds to some
    subnets, [None] when the object has no such attribute. *)
Record ParsedResource : Type := mk_parsed {
  resource_type : string;
  resource_name : string;
  azure_name : option string;
  _vnet_name : option string
}.

(** Truth value of an optional string: [None] and the empty string are
    false. *)
Definition truthy (o : option string) : bool :=
  match o with
  | Some (String _ _) => true
  | _ => false
  end.

(** The object built for one match in [parse]. *)
Definition build_resource (content : string) (m : string * string * nat)
  : ParsedResource :=
  let '(rtype, rname, match_end) := m in
  let block_content := _extract_block_content content match_end in
  let azure_name := _extract_top_level_attribute block_content "name" in
  let vnet_name :=
    if String.eqb rtype "azurerm_subnet" then
      _extract_top_level_attribute block_content "virtual_network_name"
    else None in
  mk_parsed rtype rname azure_name
    (if truthy vnet_name then vnet_name else None).

(** [if resource_type not in resources: resources[resource_type] = []]
    and [resources[resource_type].append(resource)]. *)
Definition add_resource (resources : dict (list ParsedResource))
  (r : ParsedResource) : dict (list ParsedResource) :=
  let resources :=
    match dict_get resources (resource_type r) with
    | Some _ => resources
    | None => dict_set resources (resource_type r) []
    end in
  dict_set resources (resource_type r)
    (match dict_get resources (resource_type r) with
     | Some l => l
     | None => []
     end ++ [r]).

(** [TerraformParser.parse]: [content] is the text of [main.tf]. *)
Definition parse (content : string) : dict (list ParsedResource) :=
  fold_left
    (fun resources m => add_resource resources (build_resource content m))
    (finditer_headers content 0 0) [].

(** [ResourceTypeConfig]. *)
Record ResourceTypeConfig : Type := mk_rtconfig {
  terraform_type : string;
  output_key : string;
  key_attribute : string;
  description : string;
  attributes : list string;
  key_template : option string
}.

(** [OutputGenerator]: [self.resources] and [self.config_map]. *)
Record OutputGenerator : Type := mk_generator {
  resources : dict (list ParsedResource);
  config_map : dict ResourceTypeConfig
}.

(** [OutputGenerator.__init__]:
    [{c.terraform_type: c for c in resource_configs}]. *)
Definition new_generator (resources : dict (list ParsedResource))
  (resource_configs : list ResourceTypeConfig) : OutputGenerator :=
  mk_generator resources
    (fold_left (fun d c => dict_set d (terraform_type c) c)
       resource_configs []).

(** [str(n)] for a natural number. *)
Definition str_of_nat (n : nat) : string :=
  NilEmpty.string_of_uint (Nat.to_uint n).

Definition q (s : string) : string :=
  String dquote s +++ String dquote EmptyString.

(** [sorted(self.resources.items())]: the keys are distinct, so the order
    is the order of the type names. *)
Definition sorted_resources (g : OutputGenerator)
  : list (string * list ParsedResource) :=
  sorted (fun a b => String.leb (fst a) (fst b)) (resources g).

Definition rule : string :=
  "# =============================================================================".

(** The key of a resource in its map, given its Azure name. *)
Definition map_key (config : ResourceTypeConfig) (resource : ParsedResource)
  (name : string) : string :=
  if (String.eqb (key_attribute config) "composite"
      && truthy (key_template config))%bool
  then
    match _vnet_name resource with
    | Some vnet => vnet +++ "/" +++ name
    | None => name
    end
  else name.

(** The lines [generate_locals] appends for one resource of a configured
    type. *)
Definition locals_entry (config : ResourceTypeConfig)
  (rtype : string) (resource : ParsedResource) : string :=
  if truthy (azure_name resource) then
    match azure_name resource with
    | Some name =>
        "    " +++ q (map_key config resource name) +++ " = "
          +++ rtype +++ "." +++ resource_name resource
    | None => EmptyString
    end
  else
    "    # Warning: " +++ resource_name resource
      +++ " has no name attribute".

(** The lines [generate_locals] appends in one round of its loop over the
    types. *)
Definition locals_section (g : OutputGenerator)
  (item : string * list ParsedResource) : list string :=
  let (rtype, resource_list) := item in
  match dict_get (config_map g) rtype with
  | None =>
      ["  # Skipped unknown type: " +++ rtype +++ " ("
         +++ str_of_nat (List.length resource_list) +++ " resources)"]
  | Some config =>
      [EmptyString;
       "  # " +++ description config;
       "  all_" +++ output_key config +++ " = {"]
        ++ map (locals_entry config rtype) resource_list
        ++ ["  }"]
  end.

(** [generate_locals], before the final join. *)
Definition locals_lines (g : OutputGenerator) : list string :=
  [rule;
   "# LOCALS - Auto-generated by generate_outputs.py";
   rule;
   "# This file maps aztfexport resources by their Azure names for easier reference.";
   "# DO NOT EDIT MANUALLY - regenerate using the script if main.tf changes.";
   rule;
   EmptyString;
   "locals {"]
    ++ flat_map (locals_section g) (sorted_resources g)
    ++ ["}"; EmptyString].

Definition generate_locals (g : OutputGenerator) : string :=
  join (String nl EmptyString) (locals_lines g).

(** The line of an output block that reads the map of the locals. *)
Definition for_line (key : string) : string :=
  "    for k, v in local.all_" +++ key +++ " : k => {".

(** The lines [generate_outputs] appends in one round of its loop over the
    types. *)
Definition outputs_section (g : OutputGenerator)
  (item : string * list ParsedResource) : list string :=
  let (rtype, resource_list) := item in
  match dict_get (config_map g) rtype with
  | None => []
  | Some config =>
      match filter (fun r => truthy (azure_name r)) resource_list with
      | [] => []
      | _ =>
          ["output " +++ q (output_key config) +++ " {";
           "  description = "
             +++ q (description config +++ " in this resource group");
           "  value = {";
           for_line (output_key config)]
            ++ map (fun attr => "      " +++ attr +++ " = v." +++ attr)
                 (attributes config)
            ++ ["    }"; "  }"; "}"; EmptyString]
      end
  end.

(** [sum(len(r) for r in self.resources.values())]. *)
Definition resource_count (g : OutputGenerator) : nat :=
  fold_left (fun n item => n + List.length (snd item)) (resources g) 0.

(** [generate_outputs], before the final join. *)
Definition outputs_lines (g : OutputGenerator) : list string :=
  [rule;
   "# OUTPUTS - Auto-generated by generate_outputs.py";
   rule;
   "# These outputs expose resources for consumption by:";
   "#   - The subscription-level catalog (merges all RG outputs)";
   "#   - Cross-state references via terraform_remote_state";
   "# DO NOT EDIT MANUALLY - regenerate using the script if main.tf changes.";
   rule;
   EmptyString]
    ++ flat_map (outputs_section g) (sorted_resources g)
    ++ ["# Metadata about this export";
        "output " +++ q "_metadata" +++ " {";
        "  description = " +++ q "Metadata about this legacy RG export";
        "  value = {";
        "    resource_count = " +++ str_of_nat (resource_count g);
        "    resource_types = ["
          +++ join ", " (map q (sorted String.leb (keys (resources g))))
          +++ "]";
        "    generated_by   = " +++ q "generate_outputs.py";
        "  }";
        "}";
        EmptyString].

Definition generate_outputs (g : OutputGenerator) : string :=
  join (String nl EmptyString) (outputs_lines g).

End OutputsGen.

(** ** Notions used to state what the parser of generate_outputs.py does *)

Module OutputsGenRun.
Import Py Re Outputs OutputsGen.

(** Opening minus closing braces of a text. *)
Definition net (s : string) : Z :=
  (count_char lbrace s - count_char rbrace s)%Z.

(** The objects [parse] builds, one for each match of the header pattern,
    in the order of the matches. *)
Definition all_resources (content : string) : list ParsedResource :=
  map (build_resource content) (finditer_headers content 0 0).

(** The objects of one type. *)
Definition of_type (rtype : string) (rs : list ParsedResource)
  : list ParsedResource :=
  filter (fun r => String.eqb (resource_type r) rtype) rs.

(** The configuration a type is generated with: the last one of the list
    that names it. *)
Definition last_config (rtype : string) (configs : list ResourceTypeConfig)
  : option ResourceTypeConfig :=
  find (fun c => String.eqb (terraform_type c) rtype) (rev configs).

(** The line of [locals.tf] for one resource of a type generated with
    [config]. *)
Definition resource_line (config : ResourceTypeConfig) (r : ParsedResource)
  : string :=
  match azure_name r with
  | Some name =>
      "    " +++ q (map_key config r name) +++ " = "
        +++ resource_type r +++ "." +++ resource_name r
  | None =>
      "    # Warning: " +++ resource_name r +++ " has no name attribute"
  end.

(** The first line of the map of a type in [locals.tf]. *)
Definition map_open_line (key : string) : string :=
  "  all_" +++ key +++ " = {".

(** A unit in the shape of the scenario of the specification, with a
    third resource that is never closed. *)
Definition line_end : string := String nl EmptyString.

Definition main_tf : string :=
  "resource " +++ q "azurerm_virtual_network" +++ " " +++ q "vnet1" +++ " {"
    +++ line_end
    +++ "  name = " +++ q "vnet-a" +++ line_end
    +++ "  subnet {" +++ line_end
    +++ "    name = " +++ q "inner" +++ line_end
    +++ "  }" +++ line_end
    +++ "}" +++ line_end
    +++ "resource " +++ q "azurerm_subnet" +++ " " +++ q "sub1" +++ " {"
    +++ line_end
    +++ "  name = " +++ q "sub-a" +++ line_end
    +++ "  virtual_network_name = " +++ q "vnet-a" +++ line_end
    +++ "}" +++ line_end
    +++ "resource " +++ q "foo" +++ " " +++ q "bar" +++ " {" +++ line_end
    +++ " x = 1".

Definition main_configs : list ResourceTypeConfig :=
  [mk_rtconfig "azurerm_virtual_network" "vnets" "name" "Virtual Networks"
     ["id"; "name"] None;
   mk_rtconfig "azurerm_subnet" "subnets" "composite" "Subnets" ["id"]
     (Some "${virtual_network_name}/${name}")].

End OutputsGenRun.

(* ================================================================== *)
(** * tf_splitter.py                                                   *)
(* ================================================================== *)

Module Splitter.
Import Py Re.

(** The configuration document: a dict in which each of the three keys may
    be missing ([config.get(key, default)]). *)
Record config : Type := mk_config {
  mappings : option (dict (list string));
  default_file : option string;
  skip_types : option (list string)
}.

Definition get_or {A} (o : option A) (default : A) : A :=
  match o with Some a => a | None => default end.

(** [build_type_to_file_map]: the reverse index, filled file by file and
    type by type. *)
Definition build_type_to_file_map (cfg : config) : dict string :=
  fold_left
    (fun type_to_file (entry : string * list string) =>
       let (filename, resource_types) := entry in
       fold_left
         (fun t2f rtype => dict_set t2f rtype filename)
         resource_types type_to_file)
    (get_or (mappings cfg) []) [].

(** The tuples of [parse_tf_blocks]:
    (block_type, resource_type, resource_name, full_block_text). *)
Record block : Type := mk_block {
  block_type : string;
  resource_type : option string;
  resource_name : option string;
  block_text : string
}.

Notation "'let?' x ':=' e 'in' k" :=
  (match e with Some x => k | None => None end)
  (at level 10, x pattern, e at level 100, k at level 200).

(** [re.match(resource_pattern, line)] with
    [^(resource|data)\s+DQ([^DQ]+)DQ\s+DQ([^DQ]+)DQ\s*\{]:
    the groups 1, 2 and 3. *)
Definition resource_pattern (line : string)
  : option (string * string * string) :=
  let? (kind, r0) := alt ["resource"; "data"] line in
  let? r1 := ws1 r0 in
  let? (rtype, r2) := quoted r1 in
  let? r3 := ws1 r2 in
  let? (rname, r4) := quoted r3 in
  let? _ := lit "{" (ws0 r4) in
  Some (kind, rtype, rname).

(** [re.match(other_block_pattern, line)] with
    [^(variable|output|locals|terraform|provider|module)\s*(?:DQ([^DQ]+)DQ)?\s*\{]:
    group 1 and the optional group 2.  The optional group is tried first;
    without it the brace has to follow the white space directly. *)
Definition other_block_pattern (line : string)
  : option (string * option string) :=
  let? (kind, r0) :=
    alt ["variable"; "output"; "locals"; "terraform"; "provider"; "module"]
      line in
  let r1 := ws0 r0 in
  match (let? (name, r2) := quoted r1 in
         let? _ := lit "{" (ws0 r2) in
         Some (kind, Some name)) with
  | Some m => Some m
  | None => let? _ := lit "{" (ws0 r1) in Some (kind, None)
  end.

(** The [for char in line] loop of [extract_block]. *)
Fixpoint count_braces (line : string) (brace_count : Z) (started : bool)
  : Z * bool :=
  match line with
  | EmptyString => (brace_count, started)
  | String char rest =>
      if Ascii.eqb char lbrace then
        count_braces rest (brace_count + 1)%Z true
      else if Ascii.eqb char rbrace then
        count_braces rest (brace_count - 1)%Z started
      else count_braces rest brace_count started
  end.

(** The [for i in range(start_idx, len(lines))] loop of [extract_block],
    over the lines from [i] on: the accumulated block lines and the index
    it returned at, if it did. *)
Fixpoint extract_loop (rest : list string) (i : nat)
  (block_lines : list string) (brace_count : Z) (started : bool)
  : list string * option nat :=
  match rest with
  | [] => (block_lines, None)
  | line :: rest' =>
      let block_lines := block_lines ++ [line] in
      let (brace_count, started) := count_braces line brace_count started in
      if (started && (brace_count =? 0)%Z)%bool then (block_lines, Some i)
      else extract_loop rest' (S i) block_lines brace_count started
  end.

Definition extract_block (lines : list string) (start_idx : nat)
  : list string * Z :=
  match extract_loop (skipn start_idx lines) start_idx [] 0%Z false with
  | (block_lines, Some i) => (block_lines, Z.of_nat i)
  | (block_lines, None) =>
      (* the block was not properly closed *)
      (block_lines, (Z.of_nat (List.length lines) - 1)%Z)
  end.

Definition newline : string := String nl EmptyString.

(** The [while i < len(lines)] loop of [parse_tf_blocks].  Every round
    moves [i] forward, so [S (len lines)] rounds are enough
    (lemma [parse_loop_fuel]); [None] is the loop cut short. *)
Fixpoint parse_loop (fuel : nat) (lines : list string) (i : nat)
  (blocks : list block) : option (list block) :=
  match fuel with
  | O => None
  | S fuel' =>
      if Nat.ltb i (List.length lines) then
        let line := nth i lines EmptyString in
        match resource_pattern line with
        | Some (kind, rtype, rname) =>
            let (block_lines, end_idx) := extract_block lines i in
            let block_text := join newline block_lines in
            parse_loop fuel' lines (Z.to_nat (end_idx + 1))
              (blocks ++ [mk_block kind (Some rtype) (Some rname) block_text])
        | None =>
            match other_block_pattern line with
            | Some (kind, block_name) =>
                let (block_lines, end_idx) := extract_block lines i in
                let block_text := join newline block_lines in
                parse_loop fuel' lines (Z.to_nat (end_idx + 1))
                  (blocks ++ [mk_block kind None block_name block_text])
            | None => parse_loop fuel' lines (S i) blocks
            end
        end
      else Some blocks
  end.

Definition parse_tf_blocks (content : string) : list block :=
  let lines := split_lines content in
  get_or (parse_loop (S (List.length lines)) lines 0 []) [].

(** [get_target_file]: [None] is Python's [None], the type is skipped. *)
Fixpoint prefix_scan (resource_type : string) (items : dict string)
  : option string :=
  match items with
  | [] => None
  | (mapped_type, target_file) :: items' =>
      if startswith resource_type mapped_type then Some target_file
      else prefix_scan resource_type items'
  end.

Definition get_target_file (resource_type : string)
  (type_to_file : dict string) (default_file : string)
  (skip_types : list string) : option string :=
  if str_in resource_type skip_types then None
  else
    match dict_get type_to_file resource_type with
    | Some target_file => Some target_file
    | None =>
        match prefix_scan resource_type type_to_file with
        | Some target_file => Some target_file
        | None => Some default_file
        end
    end.

(** What a call does: it returns a value or raises. *)
Inductive outcome (A : Type) : Type :=
| Returned (a : A)
| Raised (exc : string).
Arguments Returned {A} a.
Arguments Raised {A} exc.

(** The state of the grouping loop of [split_terraform_file]. *)
Record groups : Type := mk_groups {
  file_blocks : dict (list string);
  special_blocks : list (string * string);
  skipped : list (string * option string)
}.

Definition is_resource_kind (kind : string) : bool :=
  (String.eqb kind "resource" || String.eqb kind "data")%bool.

(** The dedicated file of a special block, if its kind has one. *)
Definition special_file (kind : string) : option string :=
  if String.eqb kind "terraform" then Some "versions.tf"
  else if String.eqb kind "provider" then Some "providers.tf"
  else if String.eqb kind "variable" then Some "variables.tf"
  else if String.eqb kind "output" then Some "outputs.tf"
  else if String.eqb kind "locals" then Some "locals.tf"
  else if String.eqb kind "module" then Some "modules.tf"
  else None.

(** One round of [for block_type, resource_type, name, block_text in
    blocks].  [get_target_file] is declared on strings; a resource or data
    tuple without a type is outside its domain and is reported as a raised
    exception (the parser never builds one, lemma
    [parse_blocks_well_formed]). *)
Definition group_step (type_to_file : dict string) (default_file : string)
  (skip_types : list string) (g : groups) (b : block) : outcome groups :=
  if is_resource_kind (block_type b) then
    match resource_type b with
    | Some rtype =>
        match get_target_file rtype type_to_file default_file skip_types with
        | None =>
            Returned (mk_groups (file_blocks g) (special_blocks g)
                        (skipped g ++ [(rtype, resource_name b)]))
        | Some target =>
            Returned (mk_groups
                        (dict_append (file_blocks g) target (block_text b))
                        (special_blocks g) (skipped g))
        end
    | None => Raised "AttributeError"
    end
  else
    match special_file (block_type b) with
    | Some f =>
        Returned (mk_groups (file_blocks g)
                    (special_blocks g ++ [(f, block_text b)]) (skipped g))
    | None => Returned g
    end.

Fixpoint group_loop (type_to_file : dict string) (default_file : string)
  (skip_types : list string) (blocks : list block) (g : groups)
  : outcome groups :=
  match blocks with
  | [] => Returned g
  | b :: blocks' =>
      match group_step type_to_file default_file skip_types g b with
      | Returned g' =>
          group_loop type_to_file default_file skip_types blocks' g'
      | Raised e => Raised e
      end
  end.

(** [for target_file, block_text in special_blocks]. *)
Definition add_special (fb : dict (list string))
  (special : list (string * string)) : dict (list string) :=
  fold_left (fun fb (p : string * string) => dict_append fb (fst p) (snd p))
    special fb.

(** [sorted(file_blocks.items())]: the keys are distinct, so the order of
    the pairs is the order of their names. *)
Definition sorted_items (fb : dict (list string))
  : list (string * list string) :=
  sorted (fun a b => String.leb (fst a) (fst b)) fb.

(** The text written to one file. *)
Definition file_text (blocks_list : list string) : string :=
  join (newline +++ newline) blocks_list +++ newline.

(** What [split_terraform_file] produces when it returns: the files it
    wrote, in the order it wrote them, and the summary it returns. *)
Record split_result : Type := mk_split_result {
  written : list (string * string);
  summary_files : dict nat;
  summary_skipped : list (string * option string)
}.

(** The loop [for filename, blocks_list in sorted(file_blocks.items())],
    with the files written so far and [summary['files']].  Whether
    [open(output_dir / filename, 'w')] succeeds is up to the file system:
    [open_error filename] is [None] when the file opens and the exception
    that is raised otherwise (a name with a directory part that is not
    there, an empty name, ...).  The loop stops at the first name that
    does not open; the files written by then stay written.  The third
    component is the exception, if one was raised. *)
Fixpoint write_loop (open_error : string -> option string)
  (items : list (string * list string))
  (written : list (string * string)) (files : dict nat)
  : list (string * string) * dict nat * option string :=
  match items with
  | [] => (written, files, None)
  | (filename, blocks_list) :: items' =>
      match open_error filename with
      | Some exc => (written, files, Some exc)
      | None =>
          write_loop open_error items'
            (written ++ [(filename, file_text blocks_list)])
            (dict_set files filename (List.length blocks_list))
      end
  end.

(** The body of [split_terraform_file] from the grouping loop on.  The
    call returns the summary, or raises what the grouping loop or a file
    that does not open raises. *)
Definition split_blocks (open_error : string -> option string)
  (blocks : list block) (cfg : config) : outcome split_result :=
  let type_to_file := build_type_to_file_map cfg in
  let default_file := get_or (default_file cfg) "other.tf" in
  let skip_types := get_or (skip_types cfg) [] in
  match group_loop type_to_file default_file skip_types blocks
          (mk_groups [] [] []) with
  | Raised e => Raised e
  | Returned g =>
      let fb := add_special (file_blocks g) (special_blocks g) in
      match write_loop open_error (sorted_items fb) [] [] with
      | (written, files, None) =>
          Returned (mk_split_result written files (skipped g))
      | (_, _, Some exc) => Raised exc
      end
  end.

(** [content] is the text of [input_file]. *)
Definition split_terraform_file (open_error : string -> option string)
  (content : string) (cfg : config) : outcome split_result :=
  split_blocks open_error (parse_tf_blocks content) cfg.

End Splitter.

(** ** The run of the block extractor, as a relation

    Notions used to state what the loops above do.  None of them is part of
    the program. *)

Module SplitterRun.
Import Py Re Splitter.

(** The two header tests of [parse_tf_blocks] on one line, in the order
    the loop makes them: the fields of the tuple that is built. *)
Definition header (line : string)
  : option (string * option string * option string) :=
  match resource_pattern line with
  | Some (kind, rtype, rname) => Some (kind, Some rtype, Some rname)
  | None =>
      match other_block_pattern line with
      | Some (kind, block_name) => Some (kind, None, block_name)
      | None => None
      end
  end.

(** An extracted block with the range of lines it was taken from: the
    header is line [span_start], the last line taken is [span_end]. *)
Record span : Type := mk_span {
  span_start : nat;
  span_end : nat;
  span_block : block
}.

(** [Scan i rest ss]: the [while] loop, standing at index [i] with the lines
    from [i] on being [rest], extracts the spans [ss] before it ends. *)
Inductive Scan : nat -> list string -> list span -> Prop :=
| Scan_end (i : nat) : Scan i [] []
| Scan_skip (i : nat) (line : string) (rest : list string) (ss : list span) :
    header line = None ->
    Scan (S i) rest ss ->
    Scan i (line :: rest) ss
| Scan_block (i : nat) (line : string) (rest : list string)
    (kind : string) (rtype rname : option string)
    (block_lines : list string) (ret : option nat) (ss : list span) :
    header line = Some (kind, rtype, rname) ->
    extract_loop (line :: rest) i [] 0%Z false = (block_lines, ret) ->
    Scan (i + List.length block_lines)
      (skipn (List.length block_lines) (line :: rest)) ss ->
    Scan i (line :: rest)
      (mk_span i (i + List.length block_lines - 1)
         (mk_block kind rtype rname (join newline block_lines)) :: ss).

(** [r] is what is left of [s] after some prefix. *)
Definition is_suffix (r s : string) : Prop := exists p, s = p +++ r.

(** The kinds of block the two header patterns know. *)
Definition resource_kinds : list string := ["resource"; "data"].
Definition special_kinds : list string :=
  ["variable"; "output"; "locals"; "terraform"; "provider"; "module"].

(** A line that does not begin in column zero: its first character is
    white space. *)
Definition indented (line : string) : bool :=
  match line with
  | String c _ => is_space c
  | EmptyString => false
  end.

(** What the scan guarantees about a span, in terms of the lines of the
    unit: the header tests succeed on line [span_start] with the fields of
    the block, the lines [extract_block] returns there are the lines
    [span_start] to [span_end], and the text of the block is these lines
    joined by newlines. *)
Definition span_ok (lines : list string) (s : span) : Prop :=
  span_start s <= span_end s < List.length lines
  /\ (exists line,
        nth_error lines (span_start s) = Some line
        /\ header line
           = Some (block_type (span_block s), resource_type (span_block s),
                   resource_name (span_block s)))
  /\ fst (extract_block lines (span_start s))
     = firstn (S (span_end s) - span_start s) (skipn (span_start s) lines)
  /\ block_text (span_block s)
     = join newline (fst (extract_block lines (span_start s))).

(** [bs] are the blocks extracted from the lines [rest]. *)
Definition Blocks (rest : list string) (bs : list block) : Prop :=
  exists i ss, Scan i rest ss /\ bs = map span_block ss.

(** One span ends before the other starts. *)
Definition before (a b : span) : Prop := span_end a < span_start b.

(** Net brace count of a run of lines: opening minus closing braces. *)
Definition net_braces (ls : list string) : Z :=
  fold_right
    (fun line acc =>
       (count_char lbrace line - count_char rbrace line + acc)%Z)
    0%Z ls.

(** The line, counted from the first line of [rest], at whose end the loop
    of [extract_block] returns when it starts with the given count. *)
Fixpoint close_index (rest : list string) (brace_count : Z) (started : bool)
  : option nat :=
  match rest with
  | [] => None
  | line :: rest' =>
      let (bc, st) := count_braces line brace_count started in
      if (st && (bc =? 0)%Z)%bool then Some 0
      else option_map S (close_index rest' bc st)
  end.

(** A block text whose braces balance at the end of one of its lines: read
    on its own, [extract_block] returns from inside its loop. *)
Definition closed (text : string) : bool :=
  match extract_loop (split_lines text) 0 [] 0%Z false with
  | (_, Some _) => true
  | (_, None) => false
  end.

(** The address of a resource or data block, written as the scripts print
    it: type, a dot, name. *)
Definition address (b : block) : option string :=
  if is_resource_kind (block_type b) then
    match resource_type b, resource_name b with
    | Some t, Some n => Some (t +++ "." +++ n)
    | _, _ => None
    end
  else None.

Definition addresses (bs : list block) : list string :=
  flat_map (fun b => match address b with Some a => [a] | None => [] end) bs.

(** A resource or data block whose type is in [skip_types]. *)
Definition is_skipped (skip_types : list string) (b : block) : bool :=
  (is_resource_kind (block_type b)
   && match resource_type b with
      | Some t => str_in t skip_types
      | None => false
      end)%bool.

(** The blocks that are not skipped, and the entries of the skipped list. *)
Definition kept (skip_types : list string) (bs : list block) : list block :=
  filter (fun b => negb (is_skipped skip_types b)) bs.

Definition skipped_entries (skip_types : list string) (bs : list block)
  : list (string * option string) :=
  flat_map
    (fun b =>
       if is_skipped skip_types b then
         match resource_type b with
         | Some t => [(t, resource_name b)]
         | None => []
         end
       else [])
    bs.

(** All the block texts of the buckets, bucket after bucket. *)
Definition all_texts (fb : dict (list string)) : list string :=
  concat (map snd fb).

(** The tuples the parser builds: a resource or data tuple has a type and
    a name, a tuple of another kind has no type. *)
Definition well_formed (b : block) : Prop :=
  (In (block_type b) resource_kinds
   /\ exists t n, resource_type b = Some t /\ resource_name b = Some n)
  \/ (In (block_type b) special_kinds /\ resource_type b = None).

(** The first of the types [ks] that is a prefix of [resource_type]. *)
Fixpoint first_prefix (resource_type : string) (ks : list string)
  : option string :=
  match ks with
  | [] => None
  | k :: ks' =>
      if startswith resource_type k then Some k
      else first_prefix resource_type ks'
  end.

(** The (type, file) pairs of the configuration, in configuration order. *)
Definition configured_pairs (cfg : config) : list (string * string) :=
  flat_map (fun entry : string * list string =>
              map (fun rtype => (rtype, fst entry)) (snd entry))
    (get_or (mappings cfg) []).

(** The tuple the parser builds from a text that starts with a header
    line. *)
Definition reparse (text : string) : block :=
  match header (hd EmptyString (split_lines text)) with
  | Some (kind, rtype, rname) => mk_block kind rtype rname text
  | None => mk_block EmptyString None None text
  end.

(** A text that starts with a header line and whose braces balance at the
    end of its last line, not before. *)
Definition self_contained (text : string) : Prop :=
  header (hd EmptyString (split_lines text)) <> None
  /\ close_index (split_lines text) 0%Z false
     = Some (List.length (split_lines text) - 1).

(** The lines of a written file, given the texts of its blocks. *)
Fixpoint file_lines (texts : list string) : list string :=
  match texts with
  | [] => [EmptyString]
  | [t] => split_lines t
  | t :: rest => split_lines t ++ EmptyString :: file_lines rest
  end.

(** Texts one after the other. *)
Definition concat_text (texts : list string) : string :=
  fold_right String.append EmptyString texts.

(** One assignment [type_to_file[rtype] = filename]. *)
Definition set_pair (d : dict string) (p : string * string) : dict string :=
  dict_set d (fst p) (snd p).

End SplitterRun.

(** Concrete units and configurations used below. *)
Module SplitterExamples.
Import Py Splitter.

Definition q : string -> string := OutputsExamples.q.

Definition text (ls : list string) : string := join newline ls.

(** A header line [kind DQ rtype DQ DQ rname DQ {]. *)
Definition hdr (kind rtype rname : string) : string :=
  kind +++ " " +++ q rtype +++ " " +++ q rname +++ " {".

(** No key at all: every resource goes to [other.tf]. *)
Definition cfg_empty : config := mk_config None None None.

(** [z.tf] takes the type [a]; everything else goes to [other.tf]. *)
Definition cfg_z : config :=
  mk_config (Some [("z.tf", ["a"])]) (Some "other.tf") (Some []).

(** The type [a] is skipped. *)
Definition cfg_skip_a : config := mk_config (Some []) None (Some ["a"]).

(** A block closed on the last line of the unit. *)
Definition unit_closed : string :=
  text [hdr "resource" "b" "y"; "}"].

(** The same header, never closed. *)
Definition unit_truncated : string :=
  text [hdr "resource" "b" "y"; "  name = " +++ q "n"].

(** A closed block of type [a] followed by a block of type [b] that is
    never closed. *)
Definition unit_second_truncated : string :=
  text [hdr "resource" "a" "x"; "}"; hdr "resource" "b" "y"].

(** One closed block of type [a]. *)
Definition unit_a : string :=
  text [hdr "resource" "a" "x"; "}"].

(** A header that does not start in column zero. *)
Definition unit_indented : string :=
  text ["  " +++ hdr "resource" "a" "x"; "}"].

(** A header whose brace is on the next line. *)
Definition unit_brace_later : string :=
  text ["resource " +++ q "a" +++ " " +++ q "x"; "{"; "}"].

(** The mapping example of the specification: [networking.tf] lists
    [azurerm_virtual_network], the default is [other.tf]. *)
Definition cfg_networking : config :=
  mk_config (Some [("networking.tf", ["azurerm_virtual_network"])])
    (Some "other.tf") (Some []).

(** Two entries of the embedded default mappings of the script, and a
    skipped type. *)
Definition cfg_sql : config :=
  mk_config
    (Some [("databases-sql.tf",
            ["azurerm_mssql_server"; "azurerm_mssql_database"]);
           ("keyvault.tf", ["azurerm_key_vault"])])
    (Some "other.tf") (Some ["azurerm_resource_group"]).

End SplitterExamples.

(** ** Notions used to state what the splitter writes to each file *)

Module SplitterFiles.
Import Py Re Splitter SplitterRun.

(** The file the last pair of the configuration that names a type gives
    it. *)
Definition last_file (rtype : string) (pairs : list (string * string))
  : option string :=
  option_map snd (find (fun p => String.eqb (fst p) rtype) (rev pairs)).

(** The file a resource or data tuple is sent to under a configuration;
    [None] for a skipped type and for a tuple of another kind. *)
Definition resource_target (cfg : config) (b : block) : option string :=
  if is_resource_kind (block_type b) then
    match resource_type b with
    | Some rtype =>
        get_target_file rtype (build_type_to_file_map cfg)
          (get_or (default_file cfg) "other.tf")
          (get_or (skip_types cfg) [])
    | None => None
    end
  else None.

(** The file a tuple of another kind is sent to. *)
Definition special_target (b : block) : option string :=
  if is_resource_kind (block_type b) then None
  else special_file (block_type b).

(** The texts of the tuples a rule sends to the file [f], in the order of
    the tuples. *)
Definition texts_for (target : block -> option string) (f : string)
  (bs : list block) : list string :=
  map block_text
    (filter (fun b => match target b with
                      | Some f' => String.eqb f' f
                      | None => false
                      end)
       bs).

(** What the file [f] is to hold: its resource and data blocks, then its
    blocks of the other kinds. *)
Definition bucket (cfg : config) (f : string) (bs : list block)
  : list string :=
  texts_for (resource_target cfg) f bs ++ texts_for special_target f bs.

(** The (file, text) pairs a rule gives, in the order of the tuples. *)
Definition target_pairs (target : block -> option string) (bs : list block)
  : list (string * string) :=
  flat_map (fun b => match target b with
                     | Some f => [(f, block_text b)]
                     | None => []
                     end)
    bs.

(** The texts paired with the file [f]. *)
Definition texts_of (f : string) (ps : list (string * string))
  : list string :=
  map snd (filter (fun p => String.eqb (fst p) f) ps).

(** The names of the files of the blocks that are not resources. *)
Definition special_files : list string :=
  ["versions.tf"; "providers.tf"; "variables.tf"; "outputs.tf"; "locals.tf";
   "modules.tf"].

(** The number of blocks the summary counts in files. *)
Definition blocks_in_files (r : split_result) : nat :=
  list_sum (map snd (summary_files r)).

(** A unit with a resource of a configured type, one of another type, a
    block of locals, and a second resource of the configured type. *)
Definition unit_mixed : string :=
  SplitterExamples.text
    [SplitterExamples.hdr "resource" "azurerm_key_vault" "kv1"; "}";
     SplitterExamples.hdr "resource" "azurerm_resource_group" "rg"; "}";
     "locals {"; "}";
     SplitterExamples.hdr "resource" "b" "y"; "}";
     SplitterExamples.hdr "resource" "azurerm_key_vault_secret" "s"; "}"].

(** A unit without any block header: a comment, an empty line, an
    indented header and an assignment. *)
Definition unit_comment : string :=
  SplitterExamples.text
    ["# nothing is declared here"; EmptyString;
     "  " +++ SplitterExamples.hdr "resource" "a" "x"; "x = 1"].

(** The result of a call that returned; the empty result stands for a
    call that raised. *)
Definition result_of (o : outcome split_result) : split_result :=
  match o with
  | Returned r => r
  | Raised _ => mk_split_result [] [] []
  end.

End SplitterFiles.

(** ** Notions used to state where a block ends *)

Module SplitterExtent.
Import Py Re Splitter SplitterRun.






End SplitterExtent.

(* ================================================================== *)
(** * dependency_graph.py                                              *)
(* ================================================================== *)

Module DepGraph.
Import Py Re.

Notation "'let?' x ':=' e 'in' k" :=
  (match e with Some x => k | None => None end)
  (at level 10, x pattern, e at level 100, k at level 200).

Definition not_rbrace (c : ascii) : bool := negb (Ascii.eqb c rbrace).

(** The resource pattern of [_parse_file], tried at the start of [s]: the
    groups 1, 2 and 3, and the text after the match.  The pattern is the
    header [resource\s+DQ([^DQ]+)DQ\s+DQ([^DQ]+)DQ\s*\{], then group 3,
    then a closing brace.  Group 3 is a greedy run of characters other
    than the closing brace, followed by any number of repetitions of: an
    opening brace, a run without closing brace, a closing brace, a run
    without closing brace.

    The greedy run at the start of group 3 goes up to the first closing
    brace after the header, opening braces and newlines included.  There
    the repeated part, which needs an opening brace, repeats zero times and
    the final closing brace matches: the first match the engine finds ends
    at the first closing brace after the header.  With no closing brace
    after the header there is no match at all. *)
Definition resource_match (s : string)
  : option (string * string * string * string) :=
  let? r0 := lit "resource" s in
  let? r1 := ws1 r0 in
  let? (rtype, r2) := quoted r1 in
  let? r3 := ws1 r2 in
  let? (rname, r4) := quoted r3 in
  let? r5 := lit "{" (ws0 r4) in
  match take_class not_rbrace r5 with
  | (body, String _ rest) => Some (rtype, rname, body, rest)
  | (_, EmptyString) => None
  end.

(** [pattern.finditer(content)]: the pattern is tried at every position
    from left to right; a match is never empty, and after a match the
    search resumes at its end.  [skip] counts the characters of the last
    match that are still to be passed over. *)
Fixpoint finditer_resources (content : string) (skip : nat)
  : list (string * string * string) :=
  match skip with
  | S skip' =>
      match content with
      | String _ content' => finditer_resources content' skip'
      | EmptyString => []
      end
  | O =>
      match resource_match content with
      | Some (rtype, rname, body, rest) =>
          (rtype, rname, body)
          :: match content with
             | String _ content' =>
                 finditer_resources content'
                   (String.length content - String.length rest - 1)
             | EmptyString => []
             end
      | None =>
          match content with
          | String _ content' => finditer_resources content' 0
          | EmptyString => []
          end
      end
  end.

(** The state of a [TerraformDependencyParser]. *)
Record parser : Type := mk_parser {
  resources : dict string;
  dependencies : dict (list string)
}.

(** [f DQ{resource_type}.{resource_name}DQ]. *)
Definition resource_id_of (rtype rname : string) : string :=
  rtype +++ "." +++ rname.

(** [_parse_file]: [content] is the text of [tf_file]. *)
Definition _parse_file (resources : dict string) (content : string)
  : dict string :=
  fold_left
    (fun res (m : string * string * string) =>
       let '(rtype, rname, body) := m in
       dict_set res (resource_id_of rtype rname) body)
    (finditer_resources content 0) resources.

Definition is_type_char (c : ascii) : bool :=
  (between 97 122 c || N.eqb (code c) 95)%bool.

Definition is_name_char (c : ascii) : bool :=
  (between 97 122 c || between 48 57 c || N.eqb (code c) 95
   || N.eqb (code c) 45)%bool.

(** The reference pattern of [_extract_dependencies],
    [\b([a-z_]+)\.([a-z0-9_-]+)(?:\.([a-z_]+))?], tried at the start of
    [s] with [prev] the character in front of it: the groups 1 and 2 and
    the text after the match.  The first character has to be a word
    character, so the boundary [\b] asks for no word character in front. *)
Definition ref_match (prev : option ascii) (s : string)
  : option (string * string * string) :=
  if match prev with Some c => is_word c | None => false end then None
  else
    match take_class is_type_char s with
    | (EmptyString, _) => None
    | (ref_type, r1) =>
        let? r2 := lit "." r1 in
        match take_class is_name_char r2 with
        | (EmptyString, _) => None
        | (ref_name, r3) =>
            let rest :=
              match lit "." r3 with
              | Some r4 =>
                  match take_class is_type_char r4 with
                  | (EmptyString, _) => r3
                  | (_, r5) => r5
                  end
              | None => r3
              end in
            Some (ref_type, ref_name, rest)
        end
    end.

(** [ref_pattern.finditer(body)], as [finditer_resources]. *)
Fixpoint finditer_refs (prev : option ascii) (body : string) (skip : nat)
  : list (string * string) :=
  match skip with
  | S skip' =>
      match body with
      | String c body' => finditer_refs (Some c) body' skip'
      | EmptyString => []
      end
  | O =>
      match ref_match prev body with
      | Some (ref_type, ref_name, rest) =>
          (ref_type, ref_name)
          :: match body with
             | String c body' =>
                 finditer_refs (Some c) body'
                   (String.length body - String.length rest - 1)
             | EmptyString => []
             end
      | None =>
          match body with
          | String c body' => finditer_refs (Some c) body' 0
          | EmptyString => []
          end
      end
  end.

Definition reserved : list string :=
  ["var"; "local"; "data"; "module"; "each"; "count"].

(** [dependencies[resource_id].add(ref_id)] on a [defaultdict(set)]. *)
Definition dict_add (deps : dict (list string)) (resource_id ref_id : string)
  : dict (list string) :=
  dict_set deps resource_id
    (set_add ref_id (match dict_get deps resource_id with
                     | Some s => s
                     | None => []
                     end)).

(** The body of [for match in ref_pattern.finditer(body)]. *)
Definition ref_step (resources : dict string) (resource_id : string)
  (deps : dict (list string)) (m : string * string)
  : dict (list string) :=
  let (ref_type, ref_name) := m in
  if str_in ref_type reserved then deps
  else
    let ref_id := resource_id_of ref_type ref_name in
    if (dict_mem resources ref_id
        && negb (String.eqb ref_id resource_id))%bool
    then dict_add deps resource_id ref_id
    else deps.

Definition _extract_dependencies (resources : dict string)
  (deps : dict (list string)) : dict (list string) :=
  fold_left
    (fun deps (item : string * string) =>
       let (resource_id, body) := item in
       fold_left (ref_step resources resource_id)
         (finditer_refs None body 0) deps)
    resources deps.

(** [parse]: [tf_files] are the texts of the [.tf] files of the directory,
    in the order [glob] lists them. *)
Definition parse (tf_files : list string) : parser :=
  let resources := fold_left _parse_file tf_files [] in
  mk_parser resources (_extract_dependencies resources []).

(** ** Generators *)

Definition q (s : string) : string :=
  String dquote s +++ String dquote EmptyString.

(** [s.replace(c, by)] for a one-character needle. *)
Fixpoint replace_char (c : ascii) (by_ : string) (s : string) : string :=
  match s with
  | EmptyString => EmptyString
  | String d s' =>
      if Ascii.eqb d c then by_ +++ replace_char c by_ s'
      else String d (replace_char c by_ s')
  end.

Definition not_dot (c : ascii) : bool := negb (Ascii.eqb c "."%char).

(** [resource_id.split('.')[0]]. *)
Definition type_of_id (resource_id : string) : string :=
  fst (take_class not_dot resource_id).

Definition colors : dict string :=
  [("azurerm_virtual_network", "lightblue");
   ("azurerm_subnet", "lightblue");
   ("azurerm_network_security_group", "orange");
   ("azurerm_linux_virtual_machine", "lightgreen");
   ("azurerm_windows_virtual_machine", "lightgreen");
   ("azurerm_storage_account", "yellow")].

Definition dot_node (resource_id : string) : string :=
  let color :=
    match dict_get colors (type_of_id resource_id) with
    | Some c => c
    | None => "lightgray"
    end in
  let label := replace_char "_"%char "\n" resource_id in
  "  " +++ q resource_id +++ " [label=" +++ q label +++ ", fillcolor="
    +++ q color +++ ", style=" +++ q "filled,rounded" +++ "];".

Definition dot_edge (resource_id dep : string) : string :=
  "  " +++ q resource_id +++ " -> " +++ q dep +++ ";".

Definition sanitize (name : string) : string :=
  replace_char "-"%char "_" (replace_char "."%char "_" name).

Definition mermaid_node (resource_id : string) : string :=
  "  " +++ sanitize resource_id +++ "[" +++ q resource_id +++ "]".

Definition mermaid_edge (resource_id dep : string) : string :=
  "  " +++ sanitize resource_id +++ " --> " +++ sanitize dep.

Definition out_degree (deps : dict (list string)) (r : string) : nat :=
  List.length (match dict_get deps r with Some s => s | None => [] end).

(** The state the nested [print_tree] works on. *)
Record tree_state : Type := mk_tree_state {
  visited : list string;
  tree_lines : list string
}.

Section Generators.

(** The order in which a [for] loop goes through a set. *)
Variable set_iter : list string -> list string.

Definition edge_lines (edge : string -> string -> string)
  (deps : dict (list string)) : list string :=
  flat_map (fun item : string * list string =>
              map (edge (fst item)) (set_iter (snd item)))
    deps.

(** [DotGraphGenerator.generate], before the final join.  The grouping by
    type at its start builds a table that is never read. *)
Definition dot_lines (p : parser) : list string :=
  ["digraph terraform_dependencies {"; "  rankdir=LR;";
   "  node [shape=box, style=rounded];"; EmptyString]
    ++ map dot_node (keys (resources p))
    ++ [EmptyString]
    ++ edge_lines dot_edge (dependencies p)
    ++ ["}"].

Definition dot_generate (p : parser) : string :=
  join (String nl EmptyString) (dot_lines p).

(** [MermaidGraphGenerator.generate], before the final join. *)
Definition mermaid_lines (p : parser) : list string :=
  ["graph LR"; EmptyString]
    ++ map mermaid_node (keys (resources p))
    ++ [EmptyString]
    ++ edge_lines mermaid_edge (dependencies p).

Definition mermaid_generate (p : parser) : string :=
  join (String nl EmptyString) (mermaid_lines p).

(** The roots of [TextTreeGenerator.generate]: the addresses no dependency
    set holds, or else the first three addresses in the order of their
    number of dependencies. *)
Definition all_deps (p : parser) : list string :=
  fold_left
    (fun acc (item : string * list string) =>
       fold_left (fun s x => set_add x s) (snd item) acc)
    (dependencies p) [].

Definition fewest_dependencies (p : parser) : list string :=
  firstn 3
    (sorted (fun a b =>
               Nat.leb (out_degree (dependencies p) a)
                 (out_degree (dependencies p) b))
       (keys (resources p))).

Definition tree_roots (p : parser) : list string :=
  match set_diff (keys (resources p)) (all_deps p) with
  | [] => fewest_dependencies p
  | roots => roots
  end.

(** [for i, dep in enumerate(deps): print_tree(dep, prefix + extension,
    i == len(deps) - 1)], with [call] the recursive call and [n] the
    number of dependencies. *)
Fixpoint each_dep (call : string -> string -> bool -> tree_state
                          -> option tree_state)
  (n : nat) (prefix : string) (i : nat) (rest : list string)
  (st : tree_state) : option tree_state :=
  match rest with
  | [] => Some st
  | dep :: rest' =>
      match call dep prefix (Nat.eqb i (n - 1)) st with
      | Some st' => each_dep call n prefix (S i) rest' st'
      | None => None
      end
  end.

(** [print_tree].  A call on an address that is not visited yet uses up
    one unit of [fuel]; [None] is the recursion cut short, which does not
    happen when the fuel is the number of addresses (lemma
    [print_tree_fuel]). *)
Fixpoint print_tree (fuel : nat) (p : parser) (resource_id prefix : string)
  (is_last : bool) (st : tree_state) : option tree_state :=
  if str_in resource_id (visited st) then Some st
  else
    match fuel with
    | O => None
    | S fuel' =>
        let connector := if is_last then "└── " else "├── " in
        let st1 :=
          mk_tree_state (set_add resource_id (visited st))
            (tree_lines st ++ [prefix +++ connector +++ resource_id]) in
        let deps :=
          set_iter (match dict_get (dependencies p) resource_id with
                    | Some s => s
                    | None => []
                    end) in
        let extension := if is_last then "    " else "│   " in
        each_dep (print_tree fuel' p) (List.length deps)
          (prefix +++ extension) 0 deps st1
    end.

(** [for i, root in enumerate(sorted(roots))]. *)
Fixpoint each_root (fuel : nat) (p : parser) (n : nat) (i : nat)
  (roots : list string) (st : tree_state) : option tree_state :=
  match roots with
  | [] => Some st
  | root :: roots' =>
      match print_tree fuel p root EmptyString (Nat.eqb i (n - 1)) st with
      | Some st' => each_root fuel p n (S i) roots' st'
      | None => None
      end
  end.

(** [TextTreeGenerator.generate], before the final join. *)
Definition tree_run (p : parser) : option tree_state :=
  let roots := tree_roots p in
  each_root (List.length (keys (resources p))) p (List.length roots) 0
    (sorted String.leb roots)
    (mk_tree_state [] ["Terraform Resource Dependencies:"; EmptyString]).

Definition text_generate (p : parser) : option string :=
  match tree_run p with
  | Some st => Some (join (String nl EmptyString) (tree_lines st))
  | None => None
  end.

End Generators.

End DepGraph.

(** ** Notions used to state what the dependency parser does *)

Module DepGraphRun.
Import Py Re DepGraph.

(** [source] depends on [target]: the dependency set of [source] holds
    [target]. *)
Definition edge (p : parser) (source target : string) : Prop :=
  exists ds, In (source, ds) (dependencies p) /\ In target ds.


(** What holds of an edge: the target is a known address other than the
    source, and it was built from a token of the body of the source whose
    first segment is not reserved. *)
Definition edge_ok (resources : dict string) (s t : string) : Prop :=
  In t (keys resources)
  /\ t <> s
  /\ exists body ty nm,
       In (s, body) resources
       /\ In (ty, nm) (finditer_refs None body 0)
       /\ t = resource_id_of ty nm
       /\ ~ In ty reserved.

Definition deps_ok (resources : dict string) (deps : dict (list string))
  : Prop :=
  NoDup (keys deps)
  /\ forall s ds,
       In (s, ds) deps ->
       In s (keys resources) /\ NoDup ds
       /\ forall t, In t ds -> edge_ok resources s t.

(** Every match of the resource pattern in the files of a unit, in the
    order the parser meets them. *)
Definition all_matches (tf_files : list string)
  : list (string * string * string) :=
  flat_map (fun content => finditer_resources content 0) tf_files.

Definition match_id (m : string * string * string) : string :=
  resource_id_of (fst (fst m)) (snd (fst m)).

Definition set_match (res : dict string) (m : string * string * string)
  : dict string :=
  dict_set res (match_id m) (snd m).

(** Every character of a string is in a class. *)
Fixpoint all_chars (p : ascii -> bool) (s : string) : bool :=
  match s with
  | EmptyString => true
  | String c s' => (p c && all_chars p s')%bool
  end.

(** The addresses of [universe] that are not visited yet. *)
Definition unvisited (universe visited : list string) : list string :=
  filter (fun x => negb (str_in x visited)) universe.

(** A line of the tree: what is printed in front of the address, and the
    address. *)
Definition entry_line (e : string * string) : string := fst e +++ snd e.

(** [st'] is [st] after some more addresses were expanded: each one was
    added to the visited addresses and printed on one line. *)
Definition grows (st st' : tree_state) : Prop :=
  exists entries,
    visited st' = visited st ++ map snd entries
    /\ tree_lines st' = tree_lines st ++ map entry_line entries.

(** No address is visited twice, and every visited address is an address
    of the unit. *)
Definition good (universe : list string) (st : tree_state) : Prop :=
  NoDup (visited st) /\ incl (visited st) universe.



(** Concrete units.  In [unit_cycle_and_root] the resources [t.c] and
    [t.d] refer to each other and [t.r] refers to nothing; in
    [unit_two_cycle] there are only [t.c] and [t.d]; [unit_twice]
    declares [t.c] twice; the body of [unit_nsg] holds the tokens
    [nsg.id] and [var.foo]. *)
Definition res (rtype rname body : string) : string :=
  "resource " +++ q rtype +++ " " +++ q rname +++ " {" +++ body +++ "}".

Definition unit_cycle_and_root : list string :=
  [res "t" "c" " x = t.d.id " +++ String nl (res "t" "d" " x = t.c.id ")
     +++ String nl (res "t" "r" " ")].


Definition unit_twice : list string :=
  [res "t" "c" " first " +++ String nl (res "t" "d" " other ");
   res "t" "c" " second "].

Definition unit_nsg : list string :=
  [res "t" "c" " a = nsg.id b = var.foo c = t.d.id "
     +++ String nl (res "t" "d" " ")].

End DepGraphRun.

(** ** Notions used to state what the graph of a unit holds *)

Module DepGraphReach.
Import Py Re DepGraph DepGraphRun.

(** A chain of edges from [a]. *)
Inductive path (p : parser) (a : string) : string -> Prop :=
| path_refl : path p a a
| path_step (y z : string) : path p a y -> edge p y z -> path p a z.

(** [x] is one of [roots] or is reached from one of them along edges. *)
Definition reachable (p : parser) (roots : list string) (x : string) : Prop :=
  exists r, In r roots /\ path p r x.

(** What a traversal started on the addresses [from] has done between
    the states [st] and [st']: nothing visited is forgotten, the
    addresses it started on are visited, and every address it visited
    on the way is reached from one of them and has all its dependencies
    visited. *)
Definition explored (p : parser) (from : list string)
  (st st' : tree_state) : Prop :=
  incl (visited st) (visited st')
  /\ (forall r, In r from -> In r (visited st'))
  /\ forall y,
       In y (visited st') -> ~ In y (visited st) ->
       reachable p from y /\ forall z, edge p y z -> In z (visited st').

(** The characters of a plain identifier: small letters, digits and the
    underscore. *)
Definition is_ident_char (c : ascii) : bool :=
  (between 97 122 c || between 48 57 c || N.eqb (code c) 95)%bool.

(** The characters of a reference token. *)
Definition is_token_char (c : ascii) : bool :=
  (is_name_char c || Ascii.eqb c "."%char)%bool.

(** A unit in which the resource [t.c] holds a nested block in front of
    its reference to [t.d]. *)
Definition unit_nested : list string :=
  [res "t" "c" " a { b = 1 } x = t.d.id "
     +++ String nl (res "t" "d" " ")].

(** The characters a sanitized name shows as an underscore. *)
Definition is_separator (c : ascii) : bool :=
  (Ascii.eqb c "."%char || Ascii.eqb c "-"%char || Ascii.eqb c "_"%char)%bool.

(** Two names of the same length that hold, place by place, the same
    character or a separator each. *)
Fixpoint alike (a b : string) : bool :=
  match a, b with
  | EmptyString, EmptyString => true
  | String c a', String d b' =>
      ((Ascii.eqb c d || (is_separator c && is_separator d))
       && alike a' b')%bool
  | _, _ => false
  end.

(** A unit with the addresses [t.a-b] and [t.a_b], the first referring
    to the second. *)
Definition unit_alike : list string :=
  [res "t" "a-b" " x = t.a_b.id " +++ String nl (res "t" "a_b" " ")].

End DepGraphReach.

(* ================================================================== *)
(** * Properties of the attribute extractor                            *)
(* ================================================================== *)

Section AttributeExtractor.
Import Py Re Outputs.

Lemma attr_loop_some (a : string) (lines : list string) :
  forall (d : Z) (v : string),
    attr_loop a lines d = Some v ->
    exists i line,
      nth_error lines i = Some line
      /\ attr_pattern a line = Some v
      /\ (d + depth_before lines i = 0)%Z
      /\ forall j lj, j < i -> nth_error lines j = Some lj ->
           (d + depth_before lines j = 0)%Z -> attr_pattern a lj = None.
Proof.
  induction lines as [|line rest IH]; intros d v H; simpl in H.
  - discriminate.
  - destruct (d =? 0)%Z eqn:Hd.
    + destruct (attr_pattern a line) as [w|] eqn:Hp.
      * exists 0, line. simpl. repeat split; auto.
        -- congruence.
        -- apply Z.eqb_eq in Hd. lia.
        -- intros j lj Hj. lia.
      * apply IH in H as (i & l & Hn & Hm & Hz & Hfirst).
        exists (S i), l. simpl. repeat split; auto; try lia.
        intros [|j] lj Hj Hnth Hzero; simpl in *.
        -- congruence.
        -- apply (Hfirst j lj); auto; lia.
    + apply IH in H as (i & l & Hn & Hm & Hz & Hfirst).
      exists (S i), l. simpl. repeat split; auto; try lia.
      intros [|j] lj Hj Hnth Hzero; simpl in *.
      * apply Z.eqb_neq in Hd. lia.
      * apply (Hfirst j lj); auto; lia.
Qed.

Lemma attr_loop_first (a : string) (lines : list string) :
  forall (d : Z) (i : nat) (line v : string),
    nth_error lines i = Some line ->
    attr_pattern a line = Some v ->
    (d + depth_before lines i = 0)%Z ->
    (forall j lj, j < i -> nth_error lines j = Some lj ->
       (d + depth_before lines j = 0)%Z -> attr_pattern a lj = None) ->
    attr_loop a lines d = Some v.
Proof.
  induction lines as [|l0 rest IH]; intros d i line v Hn Hm Hz Hfirst.
  - destruct i; discriminate.
  - destruct i as [|i]; simpl in *.
    + injection Hn as ->. replace (d =? 0)%Z with true
        by (symmetry; apply Z.eqb_eq; lia).
      now rewrite Hm.
    + assert (Hskip : (if (d =? 0)%Z then attr_pattern a l0 else None) = None).
      { destruct (d =? 0)%Z eqn:Hd; auto.
        apply Z.eqb_eq in Hd.
        apply (Hfirst 0 l0); simpl; auto; lia. }
      rewrite Hskip.
      apply (IH _ i line v); auto; try lia.
      intros j lj Hj Hnth Hzero.
      apply (Hfirst (S j) lj); simpl; auto; lia.
Qed.

(** C4.  An attribute that no line declares at depth zero is absent, and a
    value that is returned is the value of a line at depth zero: a
    declaration met at a depth other than zero (inside a nested sub-block)
    is never returned for the enclosing block. *)
Theorem C4_nested_attribute_absent (block_content attr_name : string) :
  ((forall i v,
       ~ declares_at_zero attr_name (split_lines block_content) i v) ->
   _extract_top_level_attribute block_content attr_name = None)
  /\ (forall v,
        _extract_top_level_attribute block_content attr_name = Some v ->
        exists i,
          declares_at_zero attr_name (split_lines block_content) i v).
Proof.
  unfold _extract_top_level_attribute, declares_at_zero. split.
  - intros Hnone.
    destruct (attr_loop attr_name (split_lines block_content) 0) as [v|] eqn:H;
      auto.
    apply attr_loop_some in H as (i & line & Hn & Hm & Hz & _).
    exfalso. apply (Hnone i v). exists line. repeat split; auto.
  - intros v H.
    apply attr_loop_some in H as (i & line & Hn & Hm & Hz & _).
    exists i, line. repeat split; auto.
Qed.

Lemma C4_nested_attribute_absent_witness :
  _extract_top_level_attribute OutputsExamples.body_nested "name" = None
  /\ declares_nested "name" (split_lines OutputsExamples.body_nested) 1.
Proof.
  split.
  - apply (proj1 (C4_nested_attribute_absent
                    OutputsExamples.body_nested "name")).
    intros i v (line & Hn & Hm & Hz).
    destruct i as [|[|[|i]]];
      [ | | | destruct i; discriminate ];
      vm_compute in Hn; injection Hn as <-; vm_compute in Hm;
      try discriminate; vm_compute in Hz; discriminate.
  - exists ("  name = " +++ OutputsExamples.q "inner"), "inner".
    repeat split. vm_compute. discriminate.
Defined.

(** C1, as the code has it.  The scan returns at the first declaration it
    meets at depth zero: when line [i] declares the attribute at depth zero
    and no line above it does, the extractor returns the value of line
    [i]. *)
Theorem C1_first_depth_zero_wins (block_content attr_name : string)
  (i : nat) (v : string) :
  declares_at_zero attr_name (split_lines block_content) i v ->
  (forall j w, j < i ->
     ~ declares_at_zero attr_name (split_lines block_content) j w) ->
  _extract_top_level_attribute block_content attr_name = Some v.
Proof.
  intros (line & Hn & Hm & Hz) Hfirst.
  unfold _extract_top_level_attribute.
  apply (attr_loop_first _ _ 0%Z i line v); auto.
  intros j lj Hj Hnth Hzero.
  destruct (attr_pattern attr_name lj) as [w|] eqn:Hw; auto.
  exfalso. apply (Hfirst j w Hj). exists lj. repeat split; auto.
Qed.

Lemma C1_first_depth_zero_wins_witness :
  _extract_top_level_attribute OutputsExamples.body_twice "name"
  = Some "first".
Proof.
  apply (C1_first_depth_zero_wins OutputsExamples.body_twice "name" 0).
  - exists ("name = " +++ OutputsExamples.q "first").
    repeat split.
  - intros j w Hj. lia.
Defined.

(** C1 as stated fails: in [body_twice] the last declaration of [name] at
    depth zero is on line 1 with value [second], which is what the rule of
    the specification keeps, and the extractor returns [first]. *)
Lemma C1_last_wins_counterexample :
  declares_at_zero "name" (split_lines OutputsExamples.body_twice)
    1 "second"
  /\ (forall j w, 1 < j ->
        ~ declares_at_zero "name" (split_lines OutputsExamples.body_twice)
            j w)
  /\ spec_last_depth_zero OutputsExamples.body_twice "name" = Some "second"
  /\ _extract_top_level_attribute OutputsExamples.body_twice "name"
     <> Some "second".
Proof.
  repeat split.
  - exists ("name = " +++ OutputsExamples.q "second"). repeat split.
  - intros j w Hj (line & Hn & _).
    destruct j as [|[|[|j]]]; try lia; vm_compute in Hn; discriminate.
  - vm_compute. discriminate.
Qed.

End AttributeExtractor.

(* ================================================================== *)
(** * Lemmas on the Python built-ins                                   *)
(* ================================================================== *)

Section PyLemmas.
Import Py.

Lemma str_in_In (x : string) (xs : list string) :
  str_in x xs = true <-> In x xs.
Proof.
  unfold str_in. rewrite existsb_exists. split.
  - intros (y & Hy & He). apply String.eqb_eq in He. now subst.
  - intros H. exists x. split; auto. apply String.eqb_refl.
Qed.

Lemma str_in_false (x : string) (xs : list string) :
  str_in x xs = false <-> ~ In x xs.
Proof.
  rewrite <- str_in_In. destruct (str_in x xs); split; congruence.
Qed.

Lemma keys_dict_set {V} (d : dict V) (k : string) (v : V) :
  keys (dict_set d k v) = if str_in k (keys d) then keys d else keys d ++ [k].
Proof.
  induction d as [|[k' v'] d IH]; simpl; auto.
  rewrite (String.eqb_sym k k').
  destruct (String.eqb k' k) eqn:E; simpl; auto.
  unfold keys in *. rewrite IH.
  destruct (str_in k (map fst d)); auto.
Qed.

Lemma dict_get_set_same {V} (d : dict V) (k : string) (v : V) :
  dict_get (dict_set d k v) k = Some v.
Proof.
  induction d as [|[k' v'] d IH]; simpl.
  - now rewrite String.eqb_refl.
  - destruct (String.eqb k' k) eqn:E; simpl; rewrite E; auto.
Qed.

Lemma dict_get_set_other {V} (d : dict V) (k k0 : string) (v : V) :
  k <> k0 -> dict_get (dict_set d k v) k0 = dict_get d k0.
Proof.
  intros Hne. induction d as [|[k' v'] d IH]; simpl.
  - destruct (String.eqb k k0) eqn:E; auto.
    apply String.eqb_eq in E. contradiction.
  - destruct (String.eqb k' k) eqn:E; simpl.
    + apply String.eqb_eq in E. subst k'.
      destruct (String.eqb k k0) eqn:E0; auto.
      apply String.eqb_eq in E0. contradiction.
    + now rewrite IH.
Qed.

Lemma dict_get_in_keys {V} (d : dict V) (k : string) :
  In k (keys d) <-> exists v, dict_get d k = Some v.
Proof.
  induction d as [|[k' v'] d IH]; simpl.
  - split; [tauto | intros (v & H); discriminate].
  - destruct (String.eqb k' k) eqn:E.
    + apply String.eqb_eq in E. split; eauto.
    + apply String.eqb_neq in E. rewrite <- IH. split; [intros [H|H]|]; tauto.
Qed.

Lemma keys_dict_set_nodup {V} (d : dict V) (k : string) (v : V) :
  NoDup (keys d) -> NoDup (keys (dict_set d k v)).
Proof.
  intros H. rewrite keys_dict_set.
  destruct (str_in k (keys d)) eqn:E; auto.
  apply str_in_false in E.
  apply NoDup_app; auto.
  - constructor; [simpl; tauto | constructor].
  - intros x Hx [<-|[]]. contradiction.
Qed.

(** Lines and joins. *)

Lemma split_lines_nonempty (s : string) : split_lines s <> [].
Proof.
  destruct s as [|c s]; simpl; try discriminate.
  destruct (Ascii.eqb c nl); try discriminate.
  destruct (split_lines s); discriminate.
Qed.

Lemma split_lines_no_newline (s : string) :
  Forall (fun l => no_newline l = true) (split_lines s).
Proof.
  induction s as [|c s IH]; simpl.
  - repeat constructor.
  - destruct (Ascii.eqb c nl) eqn:E.
    + constructor; auto.
    + destruct (split_lines s) as [|l ls].
      * repeat constructor. simpl. now rewrite E.
      * inversion IH as [|? ? Hl Hls]; subst.
        constructor; auto. simpl. now rewrite E, Hl.
Qed.

(** A line without a newline, a newline, and more text. *)
Lemma split_lines_line (l rest : string) :
  no_newline l = true ->
  split_lines (l +++ String nl rest) = l :: split_lines rest.
Proof.
  induction l as [|c l IH]; simpl; intros H.
  - reflexivity.
  - apply andb_prop in H as [Hc Hl]. apply negb_true_iff in Hc.
    rewrite Hc, (IH Hl). reflexivity.
Qed.

Lemma split_lines_last (l : string) :
  no_newline l = true -> split_lines l = [l].
Proof.
  induction l as [|c l IH]; simpl; intros H; auto.
  apply andb_prop in H as [Hc Hl]. apply negb_true_iff in Hc.
  rewrite Hc, (IH Hl). reflexivity.
Qed.

Lemma append_assoc (a b c : string) : (a +++ b) +++ c = a +++ b +++ c.
Proof. induction a; simpl; congruence. Qed.

Lemma split_lines_join (ls : list string) :
  ls <> [] ->
  Forall (fun l => no_newline l = true) ls ->
  split_lines (join (String nl EmptyString) ls) = ls.
Proof.
  induction ls as [|l ls IH]; intros Hne Hall; [congruence|].
  inversion Hall as [|? ? Hl Hls]; subst.
  destruct ls as [|l' ls].
  - simpl. now apply split_lines_last.
  - change (join (String nl EmptyString) (l :: l' :: ls))
      with (l +++ String nl EmptyString
              +++ join (String nl EmptyString) (l' :: ls)).
    simpl (String nl EmptyString +++ _).
    rewrite split_lines_line by auto.
    f_equal. apply IH; auto. discriminate.
Qed.

End PyLemmas.

(* ================================================================== *)
(** * The block extractor                                              *)
(* ================================================================== *)

Section BlockExtractor.
Import Py Re Splitter SplitterRun.

Lemma count_braces_spec (line : string) :
  forall (bc : Z) (st : bool),
    count_braces line bc st
    = ((bc + (count_char lbrace line - count_char rbrace line))%Z,
       (st || (0 <? count_char lbrace line)%Z)%bool).
Proof.
  assert (Hpos : forall s, (0 <= count_char lbrace s)%Z).
  { induction s as [|c s IH]; simpl; [lia|].
    destruct (Ascii.eqb c lbrace); lia. }
  induction line as [|c line IH]; intros bc st.
  - simpl. rewrite orb_false_r. f_equal. lia.
  - cbn [count_braces count_char].
    destruct (Ascii.eqb c lbrace) eqn:El.
    + assert (Er : Ascii.eqb c rbrace = false).
      { apply Ascii.eqb_eq in El. now subst c. }
      rewrite Er, IH. f_equal; [lia|].
      replace (0 <? 1 + count_char lbrace line)%Z with true.
      * now rewrite !orb_true_r.
      * symmetry. apply Z.ltb_lt. specialize (Hpos line). lia.
    + destruct (Ascii.eqb c rbrace) eqn:Er; rewrite IH; f_equal; lia.
Qed.

(** What the [for] loop of [extract_block] returns: it either runs to the
    end and has taken every line, or returns at the first line after which
    the count is back at zero. *)
Lemma extract_loop_spec (rest : list string) :
  forall (i : nat) (acc : list string) (bc : Z) (st : bool)
         (bl : list string) (ret : option nat),
    extract_loop rest i acc bc st = (bl, ret) ->
    (ret = None /\ bl = acc ++ rest)
    \/ (exists k, ret = Some (i + k) /\ k < List.length rest
                  /\ bl = acc ++ firstn (S k) rest).
Proof.
  induction rest as [|line rest IH]; intros i acc bc st bl ret H; simpl in H.
  - injection H as <- <-. left. now rewrite app_nil_r.
  - destruct (count_braces line bc st) as [bc' st'].
    destruct (st' && (bc' =? 0)%Z)%bool.
    + injection H as <- <-. right. exists 0. simpl.
      repeat split; auto; try lia; try (f_equal; lia).
    + apply IH in H as [(-> & ->) | (k & -> & Hk & ->)].
      * left. split; auto. now rewrite <- app_assoc.
      * right. exists (S k). simpl. repeat split; try lia.
        -- f_equal. lia.
        -- now rewrite <- app_assoc.
Qed.

(** The lines taken from a non-empty suffix: at least one, a prefix of the
    suffix, and the index the scan resumes at. *)
Lemma extract_loop_lines (line : string) (rest : list string) (i : nat)
  (bl : list string) (ret : option nat) :
  extract_loop (line :: rest) i [] 0%Z false = (bl, ret) ->
  1 <= List.length bl <= S (List.length rest)
  /\ bl = firstn (List.length bl) (line :: rest)
  /\ match ret with
     | Some e => S e = i + List.length bl
     | None => List.length bl = S (List.length rest)
     end.
Proof.
  intros H. apply extract_loop_spec in H as [(-> & ->) | (k & -> & Hk & ->)].
  - simpl. repeat split; try lia. now rewrite firstn_all.
  - rewrite app_nil_l. simpl in Hk.
    assert (Hlen : List.length (firstn (S k) (line :: rest)) = S k).
    { rewrite length_firstn. simpl. lia. }
    rewrite Hlen. repeat split; try lia.
Qed.

Lemma skipn_nth (lines : list string) (i : nat) :
  i < List.length lines ->
  skipn i lines = nth i lines EmptyString :: skipn (S i) lines.
Proof.
  revert i. induction lines as [|l lines IH]; intros i H; simpl in H.
  - lia.
  - destruct i as [|i]; simpl; auto. apply IH. lia.
Qed.

(** The [while] loop follows [Scan], and never runs out of rounds when it
    is given one more than the lines that are left. *)
Lemma parse_loop_fuel (fuel : nat) :
  forall (lines : list string) (i : nat) (acc : list block),
    1 <= fuel ->
    List.length lines < fuel + i ->
    exists ss,
      Scan i (skipn i lines) ss
      /\ parse_loop fuel lines i acc = Some (acc ++ map span_block ss).
Proof.
  induction fuel as [|fuel IH]; intros lines i acc Hpos Hfuel.
  - lia.
  - simpl. destruct (Nat.ltb i (List.length lines)) eqn:Hi.
    + apply Nat.ltb_lt in Hi. rewrite (skipn_nth lines i Hi).
      set (line := nth i lines EmptyString).
      destruct (resource_pattern line) as [[[kind rtype] rname]|] eqn:Hr.
      * unfold extract_block. rewrite (skipn_nth lines i Hi). fold line.
        destruct (extract_loop (line :: skipn (S i) lines) i [] 0%Z false)
          as [bl ret] eqn:He.
        pose proof (extract_loop_lines _ _ _ _ _ He) as (Hlen & Hbl & Hret).
        rewrite length_skipn in Hlen, Hret.
        assert (Hnext : (match ret with
                         | Some e => Z.to_nat (Z.of_nat e + 1)
                         | None =>
                             Z.to_nat (Z.of_nat (List.length lines) - 1 + 1)
                         end) = i + List.length bl).
        { destruct ret; lia. }
        destruct (IH lines (i + List.length bl)
                    (acc ++ [mk_block kind (Some rtype) (Some rname)
                                (join newline bl)]))
          as (ss & Hscan & Hloop); [lia|lia|].
        exists (mk_span i (i + List.length bl - 1)
                  (mk_block kind (Some rtype) (Some rname)
                     (join newline bl)) :: ss).
        split.
        -- eapply Scan_block; eauto.
           ++ unfold header. now rewrite Hr.
           ++ unfold line. rewrite <- (skipn_nth lines i Hi), skipn_skipn.
              now rewrite (Nat.add_comm (List.length bl) i).
        -- destruct ret; rewrite Hnext, Hloop; simpl;
             now rewrite <- app_assoc.
      * destruct (other_block_pattern line) as [[kind bname]|] eqn:Ho.
        -- unfold extract_block. rewrite (skipn_nth lines i Hi). fold line.
           destruct (extract_loop (line :: skipn (S i) lines) i [] 0%Z false)
             as [bl ret] eqn:He.
           pose proof (extract_loop_lines _ _ _ _ _ He) as (Hlen & Hbl & Hret).
           rewrite length_skipn in Hlen, Hret.
           assert (Hnext : (match ret with
                            | Some e => Z.to_nat (Z.of_nat e + 1)
                            | None =>
                                Z.to_nat
                                  (Z.of_nat (List.length lines) - 1 + 1)
                            end) = i + List.length bl).
           { destruct ret; lia. }
           destruct (IH lines (i + List.length bl)
                       (acc ++ [mk_block kind None bname (join newline bl)]))
             as (ss & Hscan & Hloop); [lia|lia|].
           exists (mk_span i (i + List.length bl - 1)
                     (mk_block kind None bname (join newline bl)) :: ss).
           split.
           ++ eapply Scan_block; eauto.
              ** unfold header. now rewrite Hr, Ho.
              ** unfold line. rewrite <- (skipn_nth lines i Hi), skipn_skipn.
                 now rewrite (Nat.add_comm (List.length bl) i).
           ++ destruct ret; rewrite Hnext, Hloop; simpl;
                now rewrite <- app_assoc.
        -- destruct (IH lines (S i) acc) as (ss & Hscan & Hloop); [lia|lia|].
           exists ss. split; auto.
           apply Scan_skip; auto. unfold header. now rewrite Hr, Ho.
    + apply Nat.ltb_ge in Hi. exists []. split.
      * rewrite skipn_all2 by lia. constructor.
      * simpl. now rewrite app_nil_r.
Qed.

(** [parse_tf_blocks] returns the blocks of the scan of all lines. *)
Lemma parse_tf_blocks_scan (content : string) :
  exists ss,
    Scan 0 (split_lines content) ss
    /\ parse_tf_blocks content = map span_block ss.
Proof.
  unfold parse_tf_blocks.
  destruct (parse_loop_fuel (S (List.length (split_lines content)))
              (split_lines content) 0 []) as (ss & Hscan & Hloop); [lia|lia|].
  exists ss. split; auto. now rewrite Hloop.
Qed.

Lemma Scan_functional (i : nat) (rest : list string) (ss : list span) :
  Scan i rest ss -> forall ss', Scan i rest ss' -> ss = ss'.
Proof.
  induction 1 as [i | i line rest ss Hh Hs IH
                 | i line rest kind rtype rname bl ret ss Hh He Hs IH];
    intros ss' H'; inversion H'; subst; auto; try congruence.
  match goal with
  | [ H1 : header line = Some _, H2 : header line = Some _ |- _ ] =>
      rewrite H1 in H2; injection H2 as <- <- <-
  end.
  match goal with
  | [ H1 : extract_loop _ _ _ _ _ = _, H2 : extract_loop _ _ _ _ _ = _ |- _ ]
    => rewrite H1 in H2; injection H2 as <- <-
  end.
  f_equal. apply IH. assumption.
Qed.

End BlockExtractor.

(* ================================================================== *)
(** * The header patterns                                              *)
(* ================================================================== *)

Section Headers.
Import Py Re Splitter SplitterRun.

Lemma is_suffix_trans (a b c : string) :
  is_suffix a b -> is_suffix b c -> is_suffix a c.
Proof.
  intros (p & ->) (p' & ->). exists (p' +++ p). now rewrite append_assoc.
Qed.

Lemma take_class_append (p : ascii -> bool) (s : string) :
  s = fst (take_class p s) +++ snd (take_class p s).
Proof.
  induction s as [|c s IH]; simpl; auto.
  destruct (p c); simpl; auto.
  destruct (take_class p s) as [a b]. simpl in *. congruence.
Qed.

Lemma ws0_suffix (s : string) : is_suffix (ws0 s) s.
Proof. exists (fst (take_class is_space s)). apply take_class_append. Qed.

Lemma ws1_suffix (s r : string) : ws1 s = Some r -> is_suffix r s.
Proof.
  unfold ws1. intros H. exists (fst (take_class is_space s)).
  pose proof (take_class_append is_space s) as E.
  destruct (take_class is_space s) as [a b]. simpl in *.
  destruct a; [discriminate|]. now injection H as <-.
Qed.

Lemma lit_append (p s r : string) : lit p s = Some r -> s = p +++ r.
Proof.
  revert s. induction p as [|c p IH]; intros s H; simpl in *.
  - now injection H as <-.
  - destruct s as [|d s]; [discriminate|].
    destruct (Ascii.eqb c d) eqn:E; [|discriminate].
    apply Ascii.eqb_eq in E. subst d. f_equal. now apply IH.
Qed.

Lemma alt_spec (ps : list string) (s p r : string) :
  alt ps s = Some (p, r) -> In p ps /\ s = p +++ r.
Proof.
  induction ps as [|p0 ps IH]; simpl; [discriminate|].
  destruct (lit p0 s) as [r0|] eqn:E.
  - intros H. injection H as <- <-. split; auto. now apply lit_append.
  - intros H. apply IH in H as [Hin Heq]. auto.
Qed.

Lemma quoted_suffix (s v r : string) :
  quoted s = Some (v, r) -> is_suffix r s.
Proof.
  unfold quoted. destruct s as [|c s]; [discriminate|].
  destruct (Ascii.eqb c dquote); [|discriminate].
  pose proof (take_class_append not_dquote s) as E.
  destruct (take_class not_dquote s) as [a b]. simpl in E.
  destruct a as [|a0 a]; [discriminate|].
  destruct b as [|b0 b]; [discriminate|].
  intros H. injection H as <- <-.
  exists (String c (String a0 a +++ String b0 EmptyString)).
  simpl. rewrite E. simpl. f_equal. f_equal.
  rewrite append_assoc. reflexivity.
Qed.

Lemma count_char_nonneg (c : ascii) (s : string) : (0 <= count_char c s)%Z.
Proof.
  induction s as [|d s IH]; simpl; [lia|]. destruct (Ascii.eqb d c); lia.
Qed.

Lemma count_char_append (c : ascii) (a b : string) :
  count_char c (a +++ b) = (count_char c a + count_char c b)%Z.
Proof. induction a as [|d a IH]; simpl; [reflexivity|]. rewrite IH. lia. Qed.

Lemma count_char_suffix (c : ascii) (r s : string) :
  is_suffix r s -> (count_char c r <= count_char c s)%Z.
Proof.
  intros (p & ->). rewrite count_char_append.
  pose proof (count_char_nonneg c p). lia.
Qed.

Lemma lit_brace_count (s r line : string) :
  lit "{" s = Some r -> is_suffix s line ->
  (0 < count_char lbrace line)%Z.
Proof.
  intros H Hs. apply lit_append in H. subst s.
  apply (count_char_suffix lbrace) in Hs.
  change (count_char lbrace ("{" +++ r))
    with (1 + count_char lbrace r)%Z in Hs.
  pose proof (count_char_nonneg lbrace r). lia.
Qed.

Lemma resource_pattern_spec (line kind rtype rname : string) :
  resource_pattern line = Some (kind, rtype, rname) ->
  In kind resource_kinds
  /\ (exists rest, line = kind +++ rest)
  /\ (0 < count_char lbrace line)%Z.
Proof.
  unfold resource_pattern.
  destruct (alt ["resource"; "data"] line) as [[k r0]|] eqn:Ha;
    [|discriminate].
  destruct (ws1 r0) as [r1|] eqn:H1; [|discriminate].
  destruct (quoted r1) as [[t r2]|] eqn:H2; [|discriminate].
  destruct (ws1 r2) as [r3|] eqn:H3; [|discriminate].
  destruct (quoted r3) as [[n r4]|] eqn:H4; [|discriminate].
  destruct (lit "{" (ws0 r4)) as [r5|] eqn:H5; [|discriminate].
  intros H. injection H as <- <- <-.
  apply alt_spec in Ha as [Hin Heq]. repeat split; auto.
  - now exists r0.
  - apply (lit_brace_count _ _ _ H5).
    apply (is_suffix_trans _ r4); [apply ws0_suffix|].
    apply (is_suffix_trans _ r3); [eapply quoted_suffix; eauto|].
    apply (is_suffix_trans _ r2); [eapply ws1_suffix; eauto|].
    apply (is_suffix_trans _ r1); [eapply quoted_suffix; eauto|].
    apply (is_suffix_trans _ r0); [eapply ws1_suffix; eauto|].
    exists k. assumption.
Qed.

Lemma other_block_pattern_spec (line kind : string) (bname : option string) :
  other_block_pattern line = Some (kind, bname) ->
  In kind special_kinds
  /\ (exists rest, line = kind +++ rest)
  /\ (0 < count_char lbrace line)%Z.
Proof.
  unfold other_block_pattern.
  destruct (alt _ line) as [[k r0]|] eqn:Ha; [|discriminate].
  apply alt_spec in Ha as [Hin Heq].
  assert (Hr0 : is_suffix r0 line) by (now exists k).
  assert (Hw : is_suffix (ws0 r0) line).
  { apply (is_suffix_trans _ r0); auto. apply ws0_suffix. }
  destruct (quoted (ws0 r0)) as [[n r2]|] eqn:H2.
  - destruct (lit "{" (ws0 r2)) as [r3|] eqn:H3.
    + intros H. injection H as <- <-. repeat split; auto.
      * now exists r0.
      * apply (lit_brace_count _ _ _ H3).
        apply (is_suffix_trans _ r2); [apply ws0_suffix|].
        apply (is_suffix_trans _ (ws0 r0)); auto.
        eapply quoted_suffix; eauto.
    + destruct (lit "{" (ws0 (ws0 r0))) as [r3|] eqn:H4; [|discriminate].
      intros H. injection H as <- <-. repeat split; auto.
      * now exists r0.
      * apply (lit_brace_count _ _ _ H4).
        apply (is_suffix_trans _ (ws0 r0)); auto. apply ws0_suffix.
  - destruct (lit "{" (ws0 (ws0 r0))) as [r3|] eqn:H4; [|discriminate].
    intros H. injection H as <- <-. repeat split; auto.
    + now exists r0.
    + apply (lit_brace_count _ _ _ H4).
      apply (is_suffix_trans _ (ws0 r0)); auto. apply ws0_suffix.
Qed.

(** A header line begins with its kind keyword in column zero and holds an
    opening brace; resource and data headers carry a type and a name, the
    others carry no type. *)
Lemma header_spec (line kind : string) (rtype rname : option string) :
  header line = Some (kind, rtype, rname) ->
  (exists rest, line = kind +++ rest)
  /\ (0 < count_char lbrace line)%Z
  /\ ((In kind resource_kinds
       /\ (exists t n, rtype = Some t /\ rname = Some n))
      \/ (In kind special_kinds /\ rtype = None)).
Proof.
  unfold header.
  destruct (resource_pattern line) as [[[k t] n]|] eqn:Hr.
  - intros H. injection H as <- <- <-.
    apply resource_pattern_spec in Hr as (Hin & Hpre & Hb).
    repeat split; auto. left. split; eauto.
  - destruct (other_block_pattern line) as [[k n]|] eqn:Ho; [|discriminate].
    intros H. injection H as <- <- <-.
    apply other_block_pattern_spec in Ho as (Hin & Hpre & Hb).
    repeat split; auto.
Qed.

(** No kind keyword begins with white space. *)
Lemma header_not_indented (line kind : string) (rtype rname : option string) :
  header line = Some (kind, rtype, rname) -> indented line = false.
Proof.
  intros H. apply header_spec in H as ((rest & ->) & _ & Hk).
  destruct Hk as [[Hin _] | [Hin _]]; simpl in Hin;
    repeat (destruct Hin as [<- | Hin]; [reflexivity|]); contradiction.
Qed.

End Headers.

(* ================================================================== *)
(** * What a scan extracts                                             *)
(* ================================================================== *)

Section ScanInvariants.
Import Py Re Splitter SplitterRun.

Lemma skipn_cons_inv (lines : list string) :
  forall (i : nat) (line : string) (rest : list string),
    line :: rest = skipn i lines ->
    nth_error lines i = Some line
    /\ rest = skipn (S i) lines
    /\ List.length lines = i + S (List.length rest).
Proof.
  induction lines as [|l lines IH]; intros i line rest H.
  - destruct i; discriminate.
  - destruct i as [|i]; simpl in H.
    + injection H as -> ->. simpl. auto.
    + apply IH in H as (Hn & Hr & Hl). simpl. repeat split; auto.
Qed.

(** The spans of a scan that stands at [i] over the lines of a unit: each
    is a header line with its block lines, they come in increasing order
    without overlap, and every header line from [i] on lies in one. *)
Lemma Scan_invariants (lines : list string) (i : nat) (rest : list string)
  (ss : list span) :
  Scan i rest ss ->
  rest = skipn i lines ->
  Forall (span_ok lines) ss
  /\ Forall (fun s => i <= span_start s) ss
  /\ StronglySorted before ss
  /\ (forall p line,
        i <= p -> nth_error lines p = Some line -> header line <> None ->
        exists s, In s ss /\ span_start s <= p <= span_end s).
Proof.
  induction 1 as [i | i line rest ss Hh Hs IH
                 | i line rest kind rtype rname bl ret ss Hh He Hs IH];
    intros Hrest.
  - repeat split; try constructor.
    intros p line Hp Hn _. exfalso.
    assert (Hlen : List.length (skipn i lines) = 0) by now rewrite <- Hrest.
    rewrite length_skipn in Hlen.
    assert (Hsome : nth_error lines p <> None) by congruence.
    apply nth_error_Some in Hsome. lia.
  - apply skipn_cons_inv in Hrest as (Hn & Hr & Hl).
    destruct (IH Hr) as (Hok & Hge & Hsorted & Hcov).
    repeat split; auto.
    + eapply Forall_impl; [|exact Hge]. simpl. intros s Hs'. lia.
    + intros p l Hp Hnp Hhead.
      destruct (Nat.eq_dec p i) as [->|Hne].
      * congruence.
      * apply (Hcov p l); auto. lia.
  - pose proof (extract_loop_lines _ _ _ _ _ He) as (Hlen & Hbl & _).
    apply skipn_cons_inv in Hrest as Hinv. destruct Hinv as (Hn & Hr & Hl).
    assert (Hnext : skipn (List.length bl) (line :: rest)
                    = skipn (i + List.length bl) lines).
    { rewrite Hrest, skipn_skipn. f_equal. lia. }
    destruct (IH Hnext) as (Hok & Hge & Hsorted & Hcov).
    repeat split.
    + constructor; auto. unfold span_ok.
      cbn [span_start span_end span_block block_type resource_type
             resource_name block_text].
      assert (Hfst : fst (extract_block lines i) = bl).
      { unfold extract_block. rewrite <- Hrest, He. now destruct ret. }
      rewrite Hfst.
      repeat split; try lia.
      * exists line. split; auto.
      * rewrite <- Hrest.
        replace (S (i + List.length bl - 1) - i) with (List.length bl) by lia.
        exact Hbl.
    + constructor; [simpl; lia|].
      eapply Forall_impl; [|exact Hge]. simpl. intros s Hs'. lia.
    + constructor; auto.
      eapply Forall_impl; [|exact Hge]. unfold before. simpl.
      intros s Hs'. lia.
    + intros p l Hp Hnp Hhead.
      destruct (Nat.lt_ge_cases p (i + List.length bl)) as [Hlt|Hge'].
      * eexists. split; [left; reflexivity|]. simpl. lia.
      * destruct (Hcov p l Hge' Hnp Hhead) as (s & Hin & Hrange).
        exists s. split; auto. now right.
Qed.


End ScanInvariants.

(* ================================================================== *)
(** * Where a block closes                                             *)
(* ================================================================== *)

Section Closing.
Import Py Re Splitter SplitterRun.

Lemma extract_loop_close (rest : list string) :
  forall (i : nat) (acc : list string) (bc : Z) (st : bool),
    extract_loop rest i acc bc st
    = match close_index rest bc st with
      | Some k => (acc ++ firstn (S k) rest, Some (i + k))
      | None => (acc ++ rest, None)
      end.
Proof.
  induction rest as [|line rest IH]; intros i acc bc st; simpl.
  - now rewrite app_nil_r.
  - destruct (count_braces line bc st) as [bc' st'].
    destruct (st' && (bc' =? 0)%Z)%bool.
    + now rewrite Nat.add_0_r.
    + rewrite IH. destruct (close_index rest bc' st') as [k|]; simpl.
      * rewrite <- app_assoc. simpl. f_equal. f_equal. lia.
      * now rewrite <- app_assoc.
Qed.

Lemma close_index_lt (rest : list string) :
  forall (bc : Z) (st : bool) (k : nat),
    close_index rest bc st = Some k -> k < List.length rest.
Proof.
  induction rest as [|line rest IH]; intros bc st k H; simpl in *.
  - discriminate.
  - destruct (count_braces line bc st) as [bc' st'].
    destruct (st' && (bc' =? 0)%Z)%bool.
    + injection H as <-. lia.
    + destruct (close_index rest bc' st') as [k'|] eqn:E; [|discriminate].
      injection H as <-. apply IH in E. lia.
Qed.

(** The loop only looks at the lines up to the one it returns at. *)
Lemma close_index_prefix (rest : list string) :
  forall (bc : Z) (st : bool) (k : nat) (more : list string),
    close_index rest bc st = Some k ->
    close_index (firstn (S k) rest ++ more) bc st = Some k.
Proof.
  induction rest as [|line rest IH]; intros bc st k more H.
  - discriminate.
  - cbn [close_index] in H. cbn [firstn app close_index].
    destruct (count_braces line bc st) as [bc' st'].
    destruct (st' && (bc' =? 0)%Z)%bool; auto.
    destruct (close_index rest bc' st') as [k'|] eqn:E; [|discriminate].
    injection H as <-. now rewrite (IH _ _ _ more E).
Qed.

(** At the line the loop returns at, the braces met so far balance. *)
Lemma close_index_balanced (rest : list string) :
  forall (bc : Z) (st : bool) (k : nat),
    close_index rest bc st = Some k ->
    (bc + net_braces (firstn (S k) rest) = 0)%Z.
Proof.
  induction rest as [|line rest IH]; intros bc st k H.
  - discriminate.
  - cbn [close_index] in H. rewrite count_braces_spec in H.
    cbn [firstn net_braces fold_right].
    match type of H with
    | (if (?s && (?b =? 0)%Z)%bool then _ else _) = _ =>
        destruct s; cbn [andb] in H;
        [destruct (b =? 0)%Z eqn:Hb|]
    end.
    + injection H as <-. apply Z.eqb_eq in Hb. simpl. lia.
    + destruct (close_index rest _ _) as [k'|] eqn:E; [|discriminate].
      injection H as <-. apply IH in E.
      fold (net_braces (firstn (S k') rest)). lia.
    + destruct (close_index rest _ _) as [k'|] eqn:E; [|discriminate].
      injection H as <-. apply IH in E.
      fold (net_braces (firstn (S k') rest)). lia.
Qed.

(** [extract_block] on a block that never closes: every line from the
    header on, and the index of the last line. *)
Lemma extract_block_unclosed (lines : list string) (start_idx : nat) :
  (forall k, start_idx <= k < List.length lines ->
     net_braces (firstn (S k - start_idx) (skipn start_idx lines)) <> 0%Z) ->
  close_index (skipn start_idx lines) 0%Z false = None
  /\ extract_block lines start_idx
     = (skipn start_idx lines, (Z.of_nat (List.length lines) - 1)%Z).
Proof.
  intros Hopen.
  assert (Hnone : close_index (skipn start_idx lines) 0%Z false = None).
  { destruct (close_index (skipn start_idx lines) 0%Z false) as [k|] eqn:E;
      auto.
    exfalso. pose proof (close_index_lt _ _ _ _ E) as Hk.
    rewrite length_skipn in Hk.
    apply close_index_balanced in E.
    apply (Hopen (start_idx + k)); [lia|].
    replace (S (start_idx + k) - start_idx) with (S k) by lia. lia. }
  split; auto.
  unfold extract_block. now rewrite extract_loop_close, Hnone.
Qed.

Lemma Scan_nil_inv (i : nat) (ss : list span) : Scan i [] ss -> ss = [].
Proof. now inversion 1. Qed.

(** A header line from which the braces never balance: unless it lies
    inside an earlier block, the scan ends with the block that runs from
    that line to the last line. *)
Lemma Scan_unclosed (lines : list string) (p : nat) (hline kind : string)
  (rtype rname : option string) :
  nth_error lines p = Some hline ->
  header hline = Some (kind, rtype, rname) ->
  close_index (skipn p lines) 0%Z false = None ->
  forall (i : nat) (rest : list string) (ss : list span),
    Scan i rest ss ->
    rest = skipn i lines ->
    i <= p ->
    (exists s, In s ss /\ span_start s < p <= span_end s)
    \/ (exists ss',
          ss = ss' ++ [mk_span p (List.length lines - 1)
                         (mk_block kind rtype rname
                            (join newline (skipn p lines)))]).
Proof.
  intros Hp Hhead Hnone.
  induction 1 as [i | i line rest ss Hh Hs IH
                 | i line rest k t n bl ret ss Hh He Hs IH];
    intros Hrest Hip.
  - exfalso.
    assert (Hlen : List.length (skipn i lines) = 0) by now rewrite <- Hrest.
    rewrite length_skipn in Hlen.
    assert (Hsome : nth_error lines p <> None) by congruence.
    apply nth_error_Some in Hsome. lia.
  - apply skipn_cons_inv in Hrest as (Hn & Hr & Hl).
    destruct (Nat.eq_dec p i) as [->|Hne]; [congruence|].
    apply IH; auto. lia.
  - pose proof (extract_loop_lines _ _ _ _ _ He) as (Hlen & Hbl & _).
    apply skipn_cons_inv in Hrest as Hinv. destruct Hinv as (Hn & Hr & Hl).
    assert (Hnext : skipn (List.length bl) (line :: rest)
                    = skipn (i + List.length bl) lines).
    { rewrite Hrest, skipn_skipn. f_equal. lia. }
    destruct (Nat.eq_dec p i) as [->|Hne].
    + right. exists [].
      rewrite Hp in Hn. injection Hn as ->.
      rewrite Hhead in Hh. injection Hh as <- <- <-.
      rewrite Hrest, extract_loop_close, Hnone in He.
      injection He as <- <-. rewrite app_nil_l in *.
      rewrite <- Hrest, skipn_all in Hs. apply Scan_nil_inv in Hs. subst ss.
      simpl app. repeat f_equal.
      rewrite length_skipn. lia.
    + destruct (Nat.lt_ge_cases p (i + List.length bl)) as [Hlt|Hge].
      * left. eexists. split; [left; reflexivity|]. simpl. lia.
      * destruct (IH Hnext Hge) as [(s & Hin & Hrange) | (ss' & ->)].
        -- left. exists s. split; auto. now right.
        -- right. eexists (_ :: ss'). reflexivity.
Qed.

End Closing.

(* ================================================================== *)
(** * Unclosed blocks and header lines                                 *)
(* ================================================================== *)

Section HeadersAndUnclosedBlocks.
Import Py Re Splitter SplitterRun.

(** C7, as the code has it.  When the braces from the header line [p] on
    never balance at the end of a line, [extract_block] returns every line
    from [p] to the last one, with the index of the last line; and
    [parse_tf_blocks] ends with that block, its text being all the text
    from the header line on, unless line [p] lies inside an earlier
    block.  Nothing in what is returned tells the block from a closed
    one. *)
Theorem C7_unclosed_block_kept (content hline kind : string) (p : nat)
  (rtype rname : option string) :
  let lines := split_lines content in
  nth_error lines p = Some hline ->
  header hline = Some (kind, rtype, rname) ->
  (forall k, p <= k < List.length lines ->
     net_braces (firstn (S k - p) (skipn p lines)) <> 0%Z) ->
  extract_block lines p
  = (skipn p lines, (Z.of_nat (List.length lines) - 1)%Z)
  /\ exists ss,
       Scan 0 lines ss
       /\ parse_tf_blocks content = map span_block ss
       /\ ((exists s, In s ss /\ span_start s < p <= span_end s)
           \/ exists ss',
                ss = ss' ++ [mk_span p (List.length lines - 1)
                               (mk_block kind rtype rname
                                  (join newline (skipn p lines)))]).
Proof.
  intros lines Hp Hhead Hopen.
  destruct (extract_block_unclosed lines p Hopen) as [Hnone Hblock].
  split; auto.
  destruct (parse_tf_blocks_scan content) as (ss & Hscan & Hparse).
  exists ss. repeat split; auto.
  eapply (Scan_unclosed lines p); eauto. lia.
Qed.

Lemma C7_unclosed_block_kept_witness :
  extract_block (split_lines SplitterExamples.unit_truncated) 0
  = (skipn 0 (split_lines SplitterExamples.unit_truncated),
     (Z.of_nat (List.length (split_lines SplitterExamples.unit_truncated))
      - 1)%Z).
Proof.
  apply (C7_unclosed_block_kept SplitterExamples.unit_truncated
           (SplitterExamples.hdr "resource" "b" "y") "resource" 0
           (Some "b") (Some "y")).
  - vm_compute. reflexivity.
  - vm_compute. reflexivity.
  - intros k Hk.
    destruct k as [|[|k]]; [vm_compute; discriminate
                           | vm_compute; discriminate
                           | vm_compute in Hk; lia].
Defined.

(** C7 as stated fails in its last part.  The unit [unit_truncated] is
    never closed and [unit_closed] is closed on its last line; for both,
    [extract_block] returns all the lines with the index of the last line,
    and [split_terraform_file], where every file opens, returns the same
    summary: one block in [other.tf], nothing skipped.  The unclosed
    block is not marked. *)
Lemma C7_not_marked_counterexample :
  closed SplitterExamples.unit_truncated = false
  /\ closed SplitterExamples.unit_closed = true
  /\ extract_block (split_lines SplitterExamples.unit_truncated) 0
     = (split_lines SplitterExamples.unit_truncated, 1%Z)
  /\ extract_block (split_lines SplitterExamples.unit_closed) 0
     = (split_lines SplitterExamples.unit_closed, 1%Z)
  /\ exists r1 r2,
       split_terraform_file (fun _ => None) SplitterExamples.unit_truncated
         SplitterExamples.cfg_empty = Returned r1
       /\ split_terraform_file (fun _ => None) SplitterExamples.unit_closed
            SplitterExamples.cfg_empty = Returned r2
       /\ summary_files r1 = [("other.tf", 1)]
       /\ summary_files r2 = [("other.tf", 1)]
       /\ summary_skipped r1 = []
       /\ summary_skipped r2 = [].
Proof.
  repeat split; try reflexivity.
  eexists. eexists. repeat split; reflexivity.
Qed.

(** C9.  Every extracted block starts on a line that begins, in column
    zero, with the keyword of its kind and that holds an opening brace;
    a line that is indented, or that holds no opening brace, starts no
    block. *)
Theorem C9_header_column_zero_same_line (content : string) :
  let lines := split_lines content in
  exists ss,
    Scan 0 lines ss
    /\ parse_tf_blocks content = map span_block ss
    /\ (forall s, In s ss ->
          exists line rest,
            nth_error lines (span_start s) = Some line
            /\ line = block_type (span_block s) +++ rest
            /\ In (block_type (span_block s))
                 (resource_kinds ++ special_kinds)
            /\ (0 < count_char lbrace line)%Z)
    /\ (forall p line,
          nth_error lines p = Some line ->
          indented line = true \/ count_char lbrace line = 0%Z ->
          forall s, In s ss -> span_start s <> p).
Proof.
  intros lines.
  destruct (parse_tf_blocks_scan content) as (ss & Hscan & Hparse).
  destruct (Scan_invariants lines 0 lines ss Hscan eq_refl)
    as (Hok & _ & _ & _).
  rewrite Forall_forall in Hok.
  exists ss. repeat split; auto.
  - intros s Hin.
    destruct (Hok s Hin) as (_ & (line & Hn & Hh) & _).
    apply header_spec in Hh as ((rest & Hline) & Hbrace & Hkind).
    exists line, rest. repeat split; auto.
    apply in_or_app. destruct Hkind as [[Hk _] | [Hk _]]; auto.
  - intros p line Hn Hbad s Hin Hstart.
    destruct (Hok s Hin) as (_ & (line' & Hn' & Hh) & _).
    rewrite Hstart, Hn in Hn'. injection Hn' as <-.
    destruct Hbad as [Hind | Hnobrace].
    + apply header_not_indented in Hh. congruence.
    + apply header_spec in Hh as (_ & Hbrace & _). lia.
Qed.

Lemma C9_header_column_zero_same_line_witness :
  (exists ss,
     parse_tf_blocks SplitterExamples.unit_indented = map span_block ss
     /\ forall s, In s ss -> span_start s <> 0)
  /\ (exists ss,
        parse_tf_blocks SplitterExamples.unit_brace_later
        = map span_block ss
        /\ forall s, In s ss -> span_start s <> 0).
Proof.
  split.
  - destruct (C9_header_column_zero_same_line SplitterExamples.unit_indented)
      as (ss & _ & Hparse & _ & Hno).
    exists ss. split; auto. intros s Hin.
    apply (Hno 0 ("  " +++ SplitterExamples.hdr "resource" "a" "x"));
      [reflexivity | left; reflexivity | assumption].
  - destruct (C9_header_column_zero_same_line
                SplitterExamples.unit_brace_later)
      as (ss & _ & Hparse & _ & Hno).
    exists ss. split; auto. intros s Hin.
    apply (Hno 0 ("resource " +++ SplitterExamples.q "a" +++ " "
                    +++ SplitterExamples.q "x"));
      [reflexivity | right; reflexivity | assumption].
Defined.

End HeadersAndUnclosedBlocks.

(* ================================================================== *)
(** * Grouping blocks into buckets                                     *)
(* ================================================================== *)

Section Grouping.
Import Py Re Splitter SplitterRun.

Lemma dict_append_texts (fb : dict (list string)) (k x : string) :
  Permutation (all_texts (dict_append fb k x)) (x :: all_texts fb).
Proof.
  unfold dict_append, all_texts.
  induction fb as [|[k' v'] fb IH]; simpl; auto.
  destruct (String.eqb k' k) eqn:E; simpl; try rewrite E; simpl.
  - rewrite <- app_assoc. apply Permutation_sym.
    apply (Permutation_middle v' (concat (map snd fb)) x).
  - destruct (dict_get fb k) as [xs|]; simpl in *; try rewrite E; simpl;
      rewrite (Permutation_app_head v' IH);
      apply Permutation_sym, Permutation_middle.
Qed.

Lemma dict_append_keys_nodup (fb : dict (list string)) (k x : string) :
  NoDup (keys fb) -> NoDup (keys (dict_append fb k x)).
Proof.
  intros H. unfold dict_append.
  destruct (dict_get fb k); now apply keys_dict_set_nodup.
Qed.

Lemma add_special_texts (sp : list (string * string)) :
  forall fb,
    Permutation (all_texts (add_special fb sp)) (all_texts fb ++ map snd sp).
Proof.
  unfold add_special.
  induction sp as [|[f x] sp IH]; intros fb; simpl.
  - now rewrite app_nil_r.
  - rewrite IH, (Permutation_app_tail _ (dict_append_texts fb f x)).
    simpl. apply Permutation_middle.
Qed.

Lemma add_special_keys_nodup (sp : list (string * string)) :
  forall fb, NoDup (keys fb) -> NoDup (keys (add_special fb sp)).
Proof.
  unfold add_special.
  induction sp as [|[f x] sp IH]; intros fb H; simpl; auto.
  apply IH. now apply dict_append_keys_nodup.
Qed.

Lemma insert_sorted_perm {A} (leb : A -> A -> bool) (x : A) (l : list A) :
  Permutation (insert_sorted leb x l) (x :: l).
Proof.
  induction l as [|y l IH]; simpl; auto.
  destruct (leb x y); auto.
  rewrite IH. apply perm_swap.
Qed.

Lemma sorted_perm {A} (leb : A -> A -> bool) (l : list A) :
  Permutation (sorted leb l) l.
Proof.
  unfold sorted. induction l as [|x l IH]; simpl; auto.
  rewrite insert_sorted_perm. now constructor.
Qed.

Lemma all_texts_perm (fb fb' : dict (list string)) :
  Permutation fb fb' -> Permutation (all_texts fb) (all_texts fb').
Proof.
  unfold all_texts.
  induction 1 as [| [k v] l l' Hp IH | [k v] [k' v'] l | l l' l'' H1 IH1 H2 IH2];
    simpl; auto.
  - now apply Permutation_app_head.
  - rewrite !app_assoc. apply Permutation_app_tail, Permutation_app_comm.
  - now transitivity (concat (map snd l')).
Qed.

Lemma is_resource_kind_resource (kind : string) :
  In kind resource_kinds -> is_resource_kind kind = true.
Proof. intros [<-|[<-|[]]]; reflexivity. Qed.

Lemma special_kind_file (kind : string) :
  In kind special_kinds ->
  is_resource_kind kind = false /\ exists f, special_file kind = Some f.
Proof.
  intros H. simpl in H.
  repeat (destruct H as [<-|H]; [split; [reflexivity|eexists; reflexivity]|]).
  contradiction.
Qed.

Lemma get_target_file_none (rt : string) (t2f : dict string)
  (dflt : string) (skip : list string) :
  get_target_file rt t2f dflt skip = None <-> str_in rt skip = true.
Proof.
  unfold get_target_file. destruct (str_in rt skip).
  - tauto.
  - destruct (dict_get t2f rt); [split; discriminate|].
    destruct (prefix_scan rt t2f); split; discriminate.
Qed.

Lemma kept_cons (skip : list string) (b : block) (bs : list block) :
  kept skip (b :: bs)
  = if negb (is_skipped skip b) then b :: kept skip bs else kept skip bs.
Proof. reflexivity. Qed.

Lemma skipped_entries_cons (skip : list string) (b : block)
  (bs : list block) :
  skipped_entries skip (b :: bs)
  = (if is_skipped skip b then
       match resource_type b with
       | Some t => [(t, resource_name b)]
       | None => []
       end
     else []) ++ skipped_entries skip bs.
Proof. reflexivity. Qed.

Lemma perm_insert_last {A} (x : A) (a b c : list A) :
  Permutation (x :: a ++ b ++ c) (a ++ b ++ x :: c).
Proof. rewrite !app_assoc. apply Permutation_middle. Qed.

(** The grouping loop on well-formed tuples: it returns; the skipped list
    grows by the skipped tuples, in order; the texts of the other tuples
    are added to the buckets and the special list, each once. *)
Lemma group_loop_spec (t2f : dict string) (dflt : string)
  (skip : list string) (blocks : list block) :
  Forall well_formed blocks ->
  forall g,
  exists g',
    group_loop t2f dflt skip blocks g = Returned g'
    /\ skipped g' = skipped g ++ skipped_entries skip blocks
    /\ Permutation
         (all_texts (file_blocks g') ++ map snd (special_blocks g'))
         (all_texts (file_blocks g) ++ map snd (special_blocks g)
            ++ map block_text (kept skip blocks))
    /\ (NoDup (keys (file_blocks g)) -> NoDup (keys (file_blocks g'))).
Proof.
  induction 1 as [|b blocks Hb Hall IH]; intros g.
  - exists g. simpl. rewrite !app_nil_r. repeat split; auto.
  - cbn [group_loop]. rewrite kept_cons, skipped_entries_cons.
    unfold group_step, is_skipped.
    destruct Hb as [(Hk & t & n & Ht & Hn) | (Hk & Ht)].
    + rewrite (is_resource_kind_resource _ Hk), Ht. cbn [andb].
      destruct (get_target_file t t2f dflt skip) as [target|] eqn:Hg.
      * assert (Hs : str_in t skip = false).
        { destruct (str_in t skip) eqn:E; auto.
          apply (proj2 (get_target_file_none t t2f dflt skip)) in E.
          congruence. }
        rewrite Hs. cbn [negb].
        destruct (IH (mk_groups
                        (dict_append (file_blocks g) target (block_text b))
                        (special_blocks g) (skipped g)))
          as (g' & Hloop & Hskip & Hperm & Hnd).
        cbn [file_blocks special_blocks skipped] in *.
        exists g'. repeat split; auto.
        -- rewrite Hperm.
           rewrite (Permutation_app_tail _
                      (dict_append_texts (file_blocks g) target
                         (block_text b))).
           apply perm_insert_last.
        -- intros H. apply Hnd. now apply dict_append_keys_nodup.
      * apply get_target_file_none in Hg. rewrite Hg. cbn [negb].
        destruct (IH (mk_groups (file_blocks g) (special_blocks g)
                        (skipped g ++ [(t, resource_name b)])))
          as (g' & Hloop & Hskip & Hperm & Hnd).
        cbn [file_blocks special_blocks skipped] in *.
        exists g'. repeat split; auto.
        now rewrite Hskip, <- app_assoc.
    + destruct (special_kind_file _ Hk) as (Hnr & f & Hf).
      rewrite Hnr, Hf. cbn [andb negb].
      destruct (IH (mk_groups (file_blocks g)
                      (special_blocks g ++ [(f, block_text b)])
                      (skipped g)))
        as (g' & Hloop & Hskip & Hperm & Hnd).
      cbn [file_blocks special_blocks skipped] in *.
      exists g'. repeat split; auto.
      rewrite Hperm, map_app. cbn [map snd]. rewrite <- !app_assoc.
      do 2 apply Permutation_app_head. apply Permutation_sym.
      apply (Permutation_middle [] _ (block_text b)).
Qed.

(** Tuples that are skipped leave the buckets and the special list as they
    are. *)
Lemma group_loop_kept (t2f : dict string) (dflt : string)
  (skip : list string) (blocks : list block) :
  forall g1 g2 g1',
    file_blocks g1 = file_blocks g2 ->
    special_blocks g1 = special_blocks g2 ->
    group_loop t2f dflt skip blocks g1 = Returned g1' ->
    exists g2',
      group_loop t2f dflt skip (kept skip blocks) g2 = Returned g2'
      /\ file_blocks g2' = file_blocks g1'
      /\ special_blocks g2' = special_blocks g1'
      /\ skipped g2' = skipped g2.
Proof.
  induction blocks as [|b blocks IH]; intros g1 g2 g1' Hfb Hsp Hloop.
  - simpl in *. injection Hloop as <-. exists g2. auto.
  - cbn [group_loop] in Hloop.
    destruct (group_step t2f dflt skip g1 b) as [g1''|] eqn:Hstep;
      [|discriminate].
    rewrite kept_cons.
    unfold group_step in Hstep. unfold is_skipped.
    destruct (is_resource_kind (block_type b)) eqn:Hk.
    + destruct (resource_type b) as [t|] eqn:Ht; [|discriminate].
      destruct (get_target_file t t2f dflt skip) as [target|] eqn:Hg.
      * assert (Hs : str_in t skip = false).
        { destruct (str_in t skip) eqn:E; auto.
          apply (proj2 (get_target_file_none t t2f dflt skip)) in E.
          congruence. }
        rewrite Hs. cbn [andb negb group_loop]. unfold group_step.
        rewrite Hk, Ht, Hg. injection Hstep as <-.
        destruct (fun H1 H2 =>
                    IH _ (mk_groups
                            (dict_append (file_blocks g2) target
                               (block_text b))
                            (special_blocks g2) (skipped g2)) g1'
                      H1 H2 Hloop)
          as (g2' & H1 & H2 & H3 & H4); auto.
        { cbn [file_blocks]. now rewrite Hfb. }
        exists g2'. auto.
      * apply get_target_file_none in Hg. rewrite Hg. cbn [andb negb].
        injection Hstep as <-.
        destruct (fun H1 H2 => IH _ g2 g1' H1 H2 Hloop)
          as (g2' & H1 & H2 & H3 & H4); auto.
        exists g2'. auto.
    + cbn [andb negb group_loop]. unfold group_step. rewrite Hk.
      destruct (special_file (block_type b)) as [f|].
      * injection Hstep as <-.
        destruct (fun H1 H2 =>
                    IH _ (mk_groups (file_blocks g2)
                            (special_blocks g2 ++ [(f, block_text b)])
                            (skipped g2)) g1' H1 H2 Hloop)
          as (g2' & H1 & H2 & H3 & H4); auto.
        { cbn [special_blocks]. now rewrite Hsp. }
        exists g2'. auto.
      * injection Hstep as <-.
        destruct (IH _ g2 g1' Hfb Hsp Hloop) as (g2' & H1 & H2 & H3 & H4).
        exists g2'. auto.
Qed.

Lemma dict_set_fresh {V} (d : dict V) (k : string) (v : V) :
  ~ In k (keys d) -> dict_set d k v = d ++ [(k, v)].
Proof.
  induction d as [|[k' v'] d IH]; simpl; intros H; auto.
  destruct (String.eqb k' k) eqn:E.
  - apply String.eqb_eq in E. tauto.
  - rewrite IH; auto.
Qed.

Lemma summary_counts (items : list (string * list string)) :
  forall acc : dict nat,
    NoDup (keys acc ++ map fst items) ->
    fold_left (fun s it => dict_set s (fst it) (List.length (snd it)))
      items acc
    = acc ++ map (fun it => (fst it, List.length (snd it))) items.
Proof.
  induction items as [|[k v] items IH]; intros acc H; simpl.
  - now rewrite app_nil_r.
  - assert (Hfresh : ~ In k (keys acc)).
    { apply NoDup_remove_2 in H. intros Hin. apply H.
      apply in_or_app. now left. }
    rewrite (dict_set_fresh _ _ _ Hfresh), IH.
    + now rewrite <- app_assoc.
    + unfold keys. rewrite map_app. simpl. now rewrite <- app_assoc.
Qed.

Lemma write_loop_spec (open_error : string -> option string)
  (items : list (string * list string)) :
  forall written files written' files' e,
    write_loop open_error items written files = (written', files', e) ->
    match e with
    | None =>
        (forall it, In it items -> open_error (fst it) = None)
        /\ written'
           = written ++ map (fun it => (fst it, file_text (snd it))) items
        /\ files'
           = fold_left
               (fun s it => dict_set s (fst it) (List.length (snd it)))
               items files
    | Some exc =>
        exists pre it post,
          items = pre ++ it :: post
          /\ (forall it', In it' pre -> open_error (fst it') = None)
          /\ open_error (fst it) = Some exc
          /\ written'
             = written ++ map (fun it => (fst it, file_text (snd it))) pre
    end.
Proof.
  induction items as [|[f l] items IH]; intros w fs w' fs' e H; simpl in H.
  - injection H as <- <- <-. repeat split; [intros it []|].
    simpl. now rewrite app_nil_r.
  - destruct (open_error f) as [exc|] eqn:E.
    + injection H as <- <- <-. exists [], (f, l), items.
      repeat split; auto; [intros it []|]. simpl. now rewrite app_nil_r.
    + apply IH in H. destruct e as [exc|].
      * destruct H as (pre & it & post & -> & Hpre & Hit & ->).
        exists ((f, l) :: pre), it, post. repeat split; auto.
        -- intros it' [<-|Hin]; auto.
        -- simpl. now rewrite <- app_assoc.
      * destruct H as (Hall & -> & ->). repeat split; auto.
        -- intros it [<-|Hin]; auto.
        -- simpl. now rewrite <- app_assoc.
Qed.

Lemma write_loop_opens (open_error : string -> option string)
  (items : list (string * list string)) :
  (forall it, In it items -> open_error (fst it) = None) ->
  forall written files,
    write_loop open_error items written files
    = (written ++ map (fun it => (fst it, file_text (snd it))) items,
       fold_left (fun s it => dict_set s (fst it) (List.length (snd it)))
         items files,
       None).
Proof.
  induction items as [|[f l] items IH]; intros Hall w fs; simpl.
  - now rewrite app_nil_r.
  - assert (Hf : open_error f = None) by (apply (Hall (f, l)); now left).
    rewrite Hf, IH.
    + now rewrite <- app_assoc.
    + intros it Hin. apply Hall. now right.
Qed.

(** What [split_blocks] does on well-formed tuples: the buckets it
    fills, whatever the file system; what it returns when every bucket is
    written, and what it raises otherwise. *)
Lemma split_blocks_spec (blocks : list block) (cfg : config) :
  Forall well_formed blocks ->
  exists buckets,
    NoDup (map fst buckets)
    /\ Permutation (concat (map snd buckets))
         (map block_text (kept (get_or (skip_types cfg) []) blocks))
    /\ forall open_error : string -> option string,
         (forall r,
             split_blocks open_error blocks cfg = Returned r ->
             written r
             = map (fun it => (fst it, file_text (snd it))) buckets
             /\ summary_files r
                = map (fun it => (fst it, List.length (snd it))) buckets
             /\ summary_skipped r
                = skipped_entries (get_or (skip_types cfg) []) blocks)
         /\ (forall exc,
               split_blocks open_error blocks cfg = Raised exc ->
               exists it, In it buckets /\ open_error (fst it) = Some exc)
         /\ ((forall it, In it buckets -> open_error (fst it) = None) ->
             exists r, split_blocks open_error blocks cfg = Returned r).
Proof.
  intros Hwf. unfold split_blocks.
  destruct (group_loop_spec (build_type_to_file_map cfg)
              (get_or (default_file cfg) "other.tf")
              (get_or (skip_types cfg) []) blocks Hwf (mk_groups [] [] []))
    as (g & Hloop & Hskip & Hperm & Hnd).
  rewrite Hloop. simpl in Hskip, Hperm, Hnd.
  set (fb := add_special (file_blocks g) (special_blocks g)).
  assert (Hnd' : NoDup (map fst (sorted_items fb))).
  { apply (Permutation_NoDup (l := map fst fb)).
    - apply Permutation_map, Permutation_sym, sorted_perm.
    - apply add_special_keys_nodup, Hnd. constructor. }
  exists (sorted_items fb). split; [exact Hnd'|]. split.
  { fold (all_texts (sorted_items fb)).
    rewrite (all_texts_perm _ fb) by apply sorted_perm.
    unfold fb. now rewrite add_special_texts. }
  intros open_error. split; [|split].
  - intros r Hr.
    destruct (write_loop open_error (sorted_items fb) [] [])
      as [[w fs] [exc|]] eqn:E; [discriminate|].
    injection Hr as <-. cbn [written summary_files summary_skipped].
    apply write_loop_spec in E as (_ & -> & ->).
    repeat split; auto. now apply (summary_counts _ []).
  - intros exc Hr.
    destruct (write_loop open_error (sorted_items fb) [] [])
      as [[w fs] [exc'|]] eqn:E; [|discriminate].
    injection Hr as <-.
    apply write_loop_spec in E as (pre & it & post & Hitems & _ & Hit & _).
    exists it. split; auto. rewrite Hitems. apply in_or_app. right. now left.
  - intros Hall. rewrite (write_loop_opens _ _ Hall). eauto.
Qed.

End Grouping.
(* ================================================================== *)
(** * Coverage                                                         *)
(* ================================================================== *)

Section Coverage.
Import Py Re Splitter SplitterRun SplitterExtent.

Lemma span_ok_well_formed (lines : list string) (s : span) :
  span_ok lines s -> well_formed (span_block s).
Proof.
  intros (_ & (line & _ & Hh) & _).
  apply header_spec in Hh as (_ & _ & [Hres | Hspec]); [left|right]; auto.
Qed.

Lemma parse_blocks_well_formed (content : string) :
  Forall well_formed (parse_tf_blocks content).
Proof.
  destruct (parse_tf_blocks_scan content) as (ss & Hscan & ->).
  destruct (Scan_invariants _ 0 _ ss Hscan eq_refl) as (Hok & _).
  apply Forall_map. eapply Forall_impl; [|exact Hok].
  apply span_ok_well_formed.
Qed.















End Coverage.

(* ================================================================== *)
(** * Classification                                                   *)
(* ================================================================== *)

Section Classification.
Import Py Re Splitter SplitterRun.

(** The reverse index is the configured pairs assigned one after the
    other. *)
Lemma build_type_to_file_map_pairs (cfg : config) :
  build_type_to_file_map cfg = fold_left set_pair (configured_pairs cfg) [].
Proof.
  unfold build_type_to_file_map, configured_pairs.
  generalize (@nil (string * string)).
  induction (get_or (mappings cfg) []) as [|[f tys] m IH]; intros d; simpl.
  - reflexivity.
  - rewrite fold_left_app, <- IH. f_equal.
    clear IH. revert d.
    induction tys as [|t tys IHt]; intros d; simpl; auto.
Qed.

Lemma first_prefix_starts (rt : string) (ks : list string) (m : string) :
  first_prefix rt ks = Some m -> In m ks /\ startswith rt m = true.
Proof.
  induction ks as [|k ks IH]; simpl; [discriminate|].
  destruct (startswith rt k) eqn:E.
  - intros H. injection H as <-. auto.
  - intros H. apply IH in H as [Hin Hs]. auto.
Qed.

Lemma first_prefix_none (rt : string) (ks : list string) :
  first_prefix rt ks = None <->
  (forall k, In k ks -> startswith rt k = false).
Proof.
  induction ks as [|k ks IH]; simpl.
  - split; [intros _ k []|reflexivity].
  - destruct (startswith rt k) eqn:E.
    + split; [discriminate|]. intros H. specialize (H k (or_introl eq_refl)).
      congruence.
    + rewrite IH. split.
      * intros H k' [<-|Hin]; auto.
      * intros H k' Hin. apply H. now right.
Qed.

Lemma first_prefix_app (rt : string) (a b : list string) :
  first_prefix rt (a ++ b)
  = match first_prefix rt a with
    | Some m => Some m
    | None => first_prefix rt b
    end.
Proof.
  induction a as [|k a IH]; simpl; auto.
  destruct (startswith rt k); auto.
Qed.

(** The scan of the index returns the file of the first key that is a
    prefix. *)
Lemma prefix_scan_first (rt : string) (d : dict string) :
  prefix_scan rt d
  = match first_prefix rt (keys d) with
    | Some m => dict_get d m
    | None => None
    end.
Proof.
  induction d as [|[k v] d IH]; simpl; auto.
  destruct (startswith rt k) eqn:E.
  - now rewrite String.eqb_refl.
  - rewrite IH. destruct (first_prefix rt (keys d)) as [m|] eqn:Hm; auto.
    apply first_prefix_starts in Hm as [_ Hs].
    destruct (String.eqb k m) eqn:Ek; auto.
    apply String.eqb_eq in Ek. congruence.
Qed.

Lemma first_prefix_dict_set (rt : string) (d : dict string) (k v : string) :
  first_prefix rt (keys (dict_set d k v))
  = match first_prefix rt (keys d) with
    | Some m => Some m
    | None => if startswith rt k then Some k else None
    end.
Proof.
  rewrite keys_dict_set. destruct (str_in k (keys d)) eqn:E.
  - destruct (first_prefix rt (keys d)) as [m|] eqn:Hm; auto.
    apply str_in_In in E.
    rewrite first_prefix_none in Hm. now rewrite (Hm k E).
  - rewrite first_prefix_app. simpl.
    destruct (first_prefix rt (keys d)); auto.
Qed.

(** The keys of the index stand in the order in which the configuration
    first names them. *)
Lemma first_prefix_fold (rt : string) (pairs : list (string * string)) :
  forall d : dict string,
    first_prefix rt (keys (fold_left set_pair pairs d))
    = match first_prefix rt (keys d) with
      | Some m => Some m
      | None => first_prefix rt (map fst pairs)
      end.
Proof.
  induction pairs as [|[t f] pairs IH]; intros d; simpl.
  - destruct (first_prefix rt (keys d)); auto.
  - rewrite IH. unfold set_pair. cbn [fst snd].
    rewrite first_prefix_dict_set.
    destruct (first_prefix rt (keys d)); auto.
    destruct (startswith rt t); auto.
Qed.

Lemma first_prefix_split (rt m f : string)
  (pre post : list (string * string)) :
  startswith rt m = true ->
  (forall p, In p pre -> startswith rt (fst p) = false) ->
  first_prefix rt (map fst (pre ++ (m, f) :: post)) = Some m.
Proof.
  intros Hm Hpre. rewrite map_app, first_prefix_app. simpl.
  assert (Hnone : first_prefix rt (map fst pre) = None).
  { apply first_prefix_none. intros k Hin.
    apply in_map_iff in Hin as (p & <- & Hp). auto. }
  now rewrite Hnone, Hm.
Qed.

(** C2.  With the reverse index, the default file and the skip list of a
    configuration: a type in the skip list gets no bucket.  Any other type
    gets the bucket the index holds for it, if it holds one; otherwise the
    bucket the index holds for the first configured type, in configuration
    order, that is a prefix of it; otherwise the default bucket.  The
    classification never raises: the grouping loop returns on every unit,
    and an exception of the splitter is the exception of a file that does
    not open.  What the splitter does is what it does for the extracted
    blocks without the skipped ones: the same files and counts when it
    returns, the same exception when it raises. *)
Theorem C2_classification (resource_type : string) (cfg : config) :
  let index := build_type_to_file_map cfg in
  let dflt := get_or (default_file cfg) "other.tf" in
  let skip := get_or (skip_types cfg) [] in
  let result := get_target_file resource_type index dflt skip in
  (In resource_type skip -> result = None)
  /\ (~ In resource_type skip ->
      (forall bucket,
          dict_get index resource_type = Some bucket ->
          result = Some bucket)
      /\ (dict_get index resource_type = None ->
          (forall pre m f post,
              configured_pairs cfg = pre ++ (m, f) :: post ->
              startswith resource_type m = true ->
              (forall p, In p pre ->
                 startswith resource_type (fst p) = false) ->
              exists bucket,
                dict_get index m = Some bucket /\ result = Some bucket)
          /\ ((forall p, In p (configured_pairs cfg) ->
                 startswith resource_type (fst p) = false) ->
              result = Some dflt)))
  /\ (forall content,
        (exists g,
            group_loop index dflt skip (parse_tf_blocks content)
              (mk_groups [] [] []) = Returned g)
        /\ forall open_error : string -> option string,
             (forall exc,
                 split_terraform_file open_error content cfg = Raised exc ->
                 exists f, open_error f = Some exc)
             /\ match split_terraform_file open_error content cfg,
                      split_blocks open_error
                        (kept skip (parse_tf_blocks content)) cfg
                with
                | Returned r, Returned r' =>
                    written r = written r'
                    /\ summary_files r = summary_files r'
                | Raised exc, Raised exc' => exc = exc'
                | _, _ => False
                end).
Proof.
  intros index dflt skip result. subst result.
  unfold get_target_file.
  assert (Hfirst : first_prefix resource_type (keys index)
                   = first_prefix resource_type
                       (map fst (configured_pairs cfg))).
  { unfold index. rewrite build_type_to_file_map_pairs.
    now rewrite first_prefix_fold. }
  split; [|split].
  - intros Hin. apply str_in_In in Hin. now rewrite Hin.
  - intros Hskip. apply str_in_false in Hskip. rewrite Hskip.
    split; [|intros Hexact; rewrite Hexact; split].
    + intros bucket Hget. now rewrite Hget.
    + intros pre m f post Hpairs Hm Hpre.
      rewrite prefix_scan_first, Hfirst, Hpairs.
      rewrite (first_prefix_split _ _ _ _ _ Hm Hpre).
      assert (Hin : In m (keys index)).
      { assert (Hf : first_prefix resource_type (keys index) = Some m).
        { rewrite Hfirst, Hpairs. now apply first_prefix_split. }
        now apply first_prefix_starts in Hf. }
      apply dict_get_in_keys in Hin as (bucket & Hb).
      exists bucket. now rewrite Hb.
    + intros Hnone.
      rewrite prefix_scan_first, Hfirst.
      assert (Hn : first_prefix resource_type
                     (map fst (configured_pairs cfg)) = None).
      { apply first_prefix_none. intros k Hin.
        apply in_map_iff in Hin as (p & <- & Hp). auto. }
      now rewrite Hn.
  - intros content. unfold split_terraform_file, split_blocks.
    fold index dflt skip.
    destruct (group_loop_spec index dflt skip (parse_tf_blocks content)
                (parse_blocks_well_formed content) (mk_groups [] [] []))
      as (g & Hloop & _).
    destruct (group_loop_kept index dflt skip (parse_tf_blocks content)
                (mk_groups [] [] []) (mk_groups [] [] []) g
                eq_refl eq_refl Hloop)
      as (g2 & Hloop2 & Hfb & Hsp & _).
    split; [eauto|]. intros open_error.
    rewrite Hloop, Hloop2, Hfb, Hsp.
    destruct (write_loop open_error
                (sorted_items
                   (add_special (file_blocks g) (special_blocks g))) [] [])
      as [[w fs] [exc|]] eqn:E.
    + split; auto. intros exc' H. injection H as <-.
      apply write_loop_spec in E as (pre & it & post & _ & _ & Hit & _).
      eauto.
    + split; [discriminate|]. cbn [written summary_files]. auto.
Qed.

Lemma C2_classification_witness :
  get_target_file "azurerm_resource_group"
    (build_type_to_file_map SplitterExamples.cfg_sql) "other.tf"
    ["azurerm_resource_group"] = None
  /\ get_target_file "azurerm_mssql_server"
       (build_type_to_file_map SplitterExamples.cfg_sql) "other.tf"
       ["azurerm_resource_group"] = Some "databases-sql.tf"
  /\ (exists bucket,
        dict_get (build_type_to_file_map SplitterExamples.cfg_sql)
          "azurerm_mssql_server" = Some bucket
        /\ get_target_file "azurerm_mssql_server_extended_auditing_policy"
             (build_type_to_file_map SplitterExamples.cfg_sql) "other.tf"
             ["azurerm_resource_group"] = Some bucket)
  /\ get_target_file "azurerm_subnet"
       (build_type_to_file_map SplitterExamples.cfg_networking) "other.tf"
       [] = Some "other.tf".
Proof.
  assert (Hneq : forall a b : string,
             String.eqb a b = false -> forall l, In a (b :: l) -> In a l).
  { intros a b E l [Heq|Hin]; auto. subst b.
    rewrite String.eqb_refl in E. discriminate. }
  split; [|split; [|split]].
  - apply (proj1 (C2_classification "azurerm_resource_group"
                    SplitterExamples.cfg_sql)).
    simpl. auto.
  - apply (proj1 (proj1 (proj2 (C2_classification "azurerm_mssql_server"
                                  SplitterExamples.cfg_sql))
                    ltac:(intros Hin; apply Hneq in Hin;
                          [destruct Hin | reflexivity]))).
    reflexivity.
  - apply (proj1 (proj2 (proj1 (proj2
             (C2_classification
                "azurerm_mssql_server_extended_auditing_policy"
                SplitterExamples.cfg_sql))
             ltac:(intros Hin; apply Hneq in Hin;
                   [destruct Hin | reflexivity]))
             eq_refl)
           [] "azurerm_mssql_server" "databases-sql.tf"
           [("azurerm_mssql_database", "databases-sql.tf");
            ("azurerm_key_vault", "keyvault.tf")]).
    + reflexivity.
    + reflexivity.
    + intros p [].
  - apply (proj2 (proj2 (proj1 (proj2
             (C2_classification "azurerm_subnet"
                SplitterExamples.cfg_networking))
             ltac:(intros Hin; destruct Hin))
             eq_refl)).
    intros p [<-|[]]. reflexivity.
Defined.

End Classification.

(* ================================================================== *)
(** * Reading back what the splitter wrote                             *)
(* ================================================================== *)

Section ReadingBack.
Import Py Re Splitter SplitterRun.

Lemma split_lines_append (a b : string) :
  split_lines (a +++ String nl b) = split_lines a ++ split_lines b.
Proof.
  induction a as [|c a IH]; simpl.
  - reflexivity.
  - destruct (Ascii.eqb c nl); rewrite IH; auto.
    pose proof (split_lines_nonempty a) as Hne.
    destruct (split_lines a) as [|l ls]; [congruence|]. reflexivity.
Qed.

Lemma join_cons2 (sep a b : string) (rest : list string) :
  join sep (a :: b :: rest) = a +++ sep +++ join sep (b :: rest).
Proof. reflexivity. Qed.

Lemma join_split_lines (s : string) : join newline (split_lines s) = s.
Proof.
  induction s as [|c s IH]; [reflexivity|].
  cbn [split_lines].
  pose proof (split_lines_nonempty s) as Hne.
  destruct (split_lines s) as [|l ls]; [congruence|].
  destruct (Ascii.eqb c nl) eqn:E.
  - apply Ascii.eqb_eq in E. subst c.
    rewrite join_cons2, IH. reflexivity.
  - destruct ls as [|l' ls].
    + cbn [join] in *. now rewrite IH.
    + rewrite join_cons2 in *. rewrite <- IH. reflexivity.
Qed.

Lemma split_lines_file_text (texts : list string) (more : string) :
  split_lines (file_text texts +++ more)
  = file_lines texts ++ split_lines more.
Proof.
  unfold file_text, newline.
  induction texts as [|t texts IH].
  - reflexivity.
  - destruct texts as [|t' texts].
    + cbn [join file_lines]. rewrite append_assoc. simpl String.append.
      apply split_lines_append.
    + rewrite join_cons2.
      change (file_lines (t :: t' :: texts))
        with (split_lines t ++ EmptyString :: file_lines (t' :: texts)).
      rewrite !append_assoc. simpl String.append.
      rewrite split_lines_append. rewrite <- app_assoc. f_equal.
      change (split_lines (String nl ?x)) with (EmptyString :: split_lines x).
      cbn [app]. f_equal.
      rewrite <- IH. now rewrite !append_assoc.
Qed.

(** The blocks of a scan do not depend on the index it starts at. *)
Lemma Scan_shift (i : nat) (rest : list string) (ss : list span) :
  Scan i rest ss ->
  forall j, exists ss',
    Scan j rest ss' /\ map span_block ss' = map span_block ss.
Proof.
  induction 1 as [i | i line rest ss Hh Hs IH
                 | i line rest kind rtype rname bl ret ss Hh He Hs IH];
    intros j.
  - exists []. split; constructor.
  - destruct (IH (S j)) as (ss' & Hs' & Hm).
    exists ss'. split; auto. now constructor.
  - destruct (IH (j + List.length bl)) as (ss' & Hs' & Hm).
    assert (He' : exists ret',
               extract_loop (line :: rest) j [] 0%Z false = (bl, ret')).
    { rewrite extract_loop_close in He |- *.
      destruct (close_index (line :: rest) 0%Z false);
        injection He as <- _; eexists; reflexivity. }
    destruct He' as (ret' & He').
    eexists. split.
    + eapply Scan_block; eauto.
    + simpl. now rewrite Hm.
Qed.

Lemma parse_tf_blocks_Blocks (content : string) (bs : list block) :
  Blocks (split_lines content) bs -> parse_tf_blocks content = bs.
Proof.
  intros (i & ss & Hscan & ->).
  destruct (Scan_shift _ _ _ Hscan 0) as (ss' & Hs' & Hm).
  destruct (parse_tf_blocks_scan content) as (ss0 & Hs0 & ->).
  now rewrite (Scan_functional _ _ _ Hs0 _ Hs').
Qed.

Lemma Blocks_nil : Blocks [] [].
Proof. exists 0, []. split; constructor. Qed.

Lemma Blocks_blank (rest : list string) (bs : list block) :
  Blocks rest bs -> Blocks (EmptyString :: rest) bs.
Proof.
  intros (i & ss & Hscan & ->).
  destruct (Scan_shift _ _ _ Hscan 1) as (ss' & Hs' & Hm).
  exists 0, ss'. split; auto. now constructor.
Qed.

Lemma Blocks_self_contained (text : string) (rest : list string)
  (bs : list block) :
  self_contained text ->
  Blocks rest bs ->
  Blocks (split_lines text ++ rest) (reparse text :: bs).
Proof.
  intros (Hhead & Hclose) (i & ss & Hscan & ->).
  unfold reparse.
  pose proof (join_split_lines text) as Hjoin.
  pose proof (split_lines_nonempty text) as Hne.
  destruct (split_lines text) as [|line L] eqn:HL; [congruence|].
  cbn [hd] in *.
  destruct (header line) as [[[kind rtype] rname]|] eqn:Hh; [|congruence].
  destruct (Scan_shift _ _ _ Hscan (0 + List.length (line :: L)))
    as (ss' & Hs' & Hm).
  exists 0. eexists. split.
  - change ((line :: L) ++ rest) with (line :: (L ++ rest)).
    eapply (Scan_block 0 line (L ++ rest) kind rtype rname (line :: L)).
    + exact Hh.
    + rewrite extract_loop_close.
      change (line :: L ++ rest) with ((line :: L) ++ rest).
      replace ((line :: L) ++ rest)
        with (firstn (S (List.length (line :: L) - 1)) (line :: L) ++ rest)
        at 1.
      * rewrite (close_index_prefix _ _ _ _ rest Hclose).
        rewrite app_nil_l. f_equal.
        replace (S (List.length (line :: L) - 1))
          with (List.length (line :: L) + 0) by (simpl; lia).
        rewrite firstn_app_2. simpl. now rewrite app_nil_r.
      * f_equal. apply firstn_all2. simpl. lia.
    + change (line :: L ++ rest) with ((line :: L) ++ rest).
      rewrite skipn_app, skipn_all, Nat.sub_diag. exact Hs'.
  - cbn [map span_block]. rewrite Hm, Hjoin. reflexivity.
Qed.

Lemma Blocks_file (texts : list string) (rest : list string)
  (bs : list block) :
  Forall self_contained texts ->
  Blocks rest bs ->
  Blocks (file_lines texts ++ rest) (map reparse texts ++ bs).
Proof.
  induction 1 as [|t texts Ht Hall IH]; intros Hrest.
  - simpl. now apply Blocks_blank.
  - destruct texts as [|t' texts].
    + simpl. now apply Blocks_self_contained.
    + change (file_lines (t :: t' :: texts))
        with (split_lines t ++ EmptyString :: file_lines (t' :: texts)).
      rewrite <- app_assoc. cbn [map app].
      apply Blocks_self_contained; auto.
      change ((EmptyString :: file_lines (t' :: texts)) ++ rest)
        with (EmptyString :: (file_lines (t' :: texts) ++ rest)).
      apply Blocks_blank. now apply IH.
Qed.

(** Files written one after the other, read back as one text. *)
Lemma Blocks_files (files : list (list string)) :
  Forall (Forall self_contained) files ->
  Blocks (split_lines (concat_text (map file_text files)))
    (map reparse (concat files)).
Proof.
  induction 1 as [|f files Hf Hall IH]; simpl.
  - apply Blocks_blank, Blocks_nil.
  - rewrite split_lines_file_text, map_app. now apply Blocks_file.
Qed.

End ReadingBack.

(* ================================================================== *)
(** * Round trip                                                       *)
(* ================================================================== *)

Section RoundTrip.
Import Py Re Splitter SplitterRun.

Lemma Forall_firstn_keep {A} (P : A -> Prop) (n : nat) (l : list A) :
  Forall P l -> Forall P (firstn n l).
Proof.
  intros H. revert n. induction H as [|x l Hx Hl IH]; intros [|n]; simpl;
    constructor; auto.
Qed.

Lemma Forall_skipn_keep {A} (P : A -> Prop) (n : nat) (l : list A) :
  Forall P l -> Forall P (skipn n l).
Proof.
  intros H. revert n. induction H as [|x l Hx Hl IH]; intros [|n]; simpl;
    auto.
Qed.

Lemma nth_error_skipn_cons (lines : list string) (i : nat) (line : string) :
  nth_error lines i = Some line ->
  skipn i lines = line :: skipn (S i) lines.
Proof.
  revert i. induction lines as [|l lines IH]; intros [|i] H;
    try discriminate; simpl in *.
  - now injection H as ->.
  - now apply IH.
Qed.

(** A block that was extracted closed can be read back on its own. *)
Lemma closed_span_self_contained (content : string) (s : span) :
  span_ok (split_lines content) s ->
  closed (block_text (span_block s)) = true ->
  self_contained (block_text (span_block s))
  /\ reparse (block_text (span_block s)) = span_block s.
Proof.
  intros (Hrange & (line & Hn & Hh) & Hfst & Htext) Hclosed.
  set (lines := split_lines content) in *.
  set (bl := fst (extract_block lines (span_start s))) in *.
  pose proof (nth_error_skipn_cons _ _ _ Hn) as Hskip.
  assert (Hbl : exists tl, bl = line :: tl).
  { rewrite Hfst, Hskip.
    replace (S (span_end s) - span_start s)
      with (S (span_end s - span_start s)) by lia.
    simpl. eauto. }
  destruct Hbl as (tl & Hbl).
  assert (Hnonl : Forall (fun l => no_newline l = true) bl).
  { rewrite Hfst. apply Forall_firstn_keep, Forall_skipn_keep.
    apply split_lines_no_newline. }
  assert (Hsplit : split_lines (block_text (span_block s)) = bl).
  { rewrite Htext. apply split_lines_join; auto.
    rewrite Hbl. discriminate. }
  assert (Hclose : close_index bl 0%Z false = Some (List.length bl - 1)).
  { unfold closed in Hclosed. rewrite Hsplit, extract_loop_close in Hclosed.
    destruct (close_index bl 0%Z false) as [k|] eqn:Hk; [|discriminate].
    f_equal.
    unfold bl, extract_block in Hk |- *.
    rewrite extract_loop_close in Hk |- *.
    destruct (close_index (skipn (span_start s) lines) 0%Z false)
      as [k'|] eqn:Hk'.
    - pose proof (close_index_lt _ _ _ _ Hk') as Hlt.
      cbn [fst] in Hk |- *. rewrite app_nil_l in Hk |- *.
      pose proof (close_index_prefix _ _ _ _ [] Hk') as Hp.
      rewrite app_nil_r in Hp. rewrite Hp in Hk. injection Hk as <-.
      rewrite length_firstn. lia.
    - cbn [fst] in Hk. rewrite app_nil_l in Hk. congruence. }
  split.
  - unfold self_contained. rewrite Hsplit, Hbl. cbn [hd].
    split; [congruence|]. now rewrite <- Hbl.
  - unfold reparse. rewrite Hsplit, Hbl. cbn [hd]. rewrite Hh.
    now destruct (span_block s).
Qed.

Lemma in_addresses (a : string) (bs : list block) :
  In a (addresses bs) <-> exists b, In b bs /\ address b = Some a.
Proof.
  unfold addresses. rewrite in_flat_map. split.
  - intros (b & Hin & Ha). exists b. split; auto.
    destruct (address b); simpl in Ha; [|contradiction].
    destruct Ha as [->|[]]. reflexivity.
  - intros (b & Hin & Ha). exists b. split; auto. rewrite Ha. now left.
Qed.

Lemma addresses_perm (bs bs' : list block) (a : string) :
  Permutation bs bs' -> In a (addresses bs) <-> In a (addresses bs').
Proof.
  intros H. rewrite !in_addresses. split; intros (b & Hin & Ha);
    exists b; split; auto.
  - eapply Permutation_in; eauto.
  - eapply Permutation_in; [apply Permutation_sym|]; eauto.
Qed.

Lemma kept_nil (bs : list block) : kept [] bs = bs.
Proof.
  unfold kept. induction bs as [|b bs IH]; simpl; auto.
  unfold is_skipped at 1. destruct (resource_type b); simpl;
    rewrite andb_false_r; simpl; now rewrite IH.
Qed.

(** C6, as the code has it.  When every extracted block is closed, the
    files the splitter writes, put one after the other in any order and
    read back, give the extracted blocks that are not skipped, each once;
    so the addresses read back are the addresses of the blocks that are
    not skipped, and all the addresses of the unit when no type is to be
    skipped. *)
Theorem C6_round_trip_closed (open_error : string -> option string)
  (content : string) (cfg : config)
  (r : split_result) (files : list (string * string)) :
  let skip := get_or (skip_types cfg) [] in
  let again := parse_tf_blocks (concat_text (map snd files)) in
  split_terraform_file open_error content cfg = Returned r ->
  (forall b, In b (parse_tf_blocks content) ->
     closed (block_text b) = true) ->
  Permutation files (written r) ->
  Permutation again (kept skip (parse_tf_blocks content))
  /\ (forall a,
        In a (addresses again)
        <-> In a (addresses (kept skip (parse_tf_blocks content))))
  /\ (skip = [] ->
      forall a,
        In a (addresses again)
        <-> In a (addresses (parse_tf_blocks content))).
Proof.
  intros skip again Hsplit Hclosed Hfiles.
  assert (Hperm : Permutation again (kept skip (parse_tf_blocks content))).
  { unfold again. clear again.
    destruct (split_blocks_spec (parse_tf_blocks content) cfg
                (parse_blocks_well_formed content))
      as (buckets & _ & Htexts & Hfs).
    destruct (Hfs open_error) as (Hret & _).
    destruct (Hret r Hsplit) as (Hwritten & _).
    fold skip in Htexts.
    rewrite Hwritten in Hfiles.
    apply Permutation_map_inv in Hfiles as (buckets' & -> & Hb).
    assert (Htexts' : Permutation (concat (map snd buckets'))
                        (map block_text
                           (kept skip (parse_tf_blocks content)))).
    { rewrite <- Htexts. apply all_texts_perm. now apply Permutation_sym. }
    apply Permutation_map_inv in Htexts' as (bs' & Hbs' & Hkept).
    assert (Hin : forall b, In b bs' ->
              self_contained (block_text b)
              /\ reparse (block_text b) = b).
    { intros b Hb'.
      assert (Hp : In b (parse_tf_blocks content)).
      { apply Permutation_sym in Hkept.
        apply (Permutation_in _ Hkept) in Hb'.
        unfold kept in Hb'. now apply filter_In in Hb'. }
      specialize (Hclosed b Hp).
      destruct (parse_tf_blocks_scan content) as (ss & Hscan & Hparse).
      destruct (Scan_invariants _ 0 _ ss Hscan eq_refl) as (Hok & _).
      rewrite Hparse in Hp. apply in_map_iff in Hp as (s & <- & Hs).
      rewrite Forall_forall in Hok.
      apply (closed_span_self_contained content);
        [apply Hok; assumption | assumption]. }
    rewrite map_map. cbn [snd].
    rewrite <- (map_map snd file_text).
    rewrite (parse_tf_blocks_Blocks _ (map reparse (concat (map snd buckets')))).
    - rewrite Hbs', map_map.
      rewrite (map_ext_in _ (fun b => b)).
      + rewrite map_id. now apply Permutation_sym.
      + intros b Hb'. now apply Hin.
    - apply Blocks_files. apply Forall_concat. rewrite Hbs'.
      apply Forall_map, Forall_forall. intros b Hb'. now apply Hin. }
  split; [exact Hperm|]. split.
  - intros a. now apply addresses_perm.
  - intros Hnil a. rewrite Hnil, kept_nil in Hperm.
    now apply addresses_perm.
Qed.

Lemma C6_round_trip_closed_witness :
  Permutation
    (parse_tf_blocks
       (concat_text
          [file_text [SplitterExamples.unit_a]]))
    (parse_tf_blocks SplitterExamples.unit_a).
Proof.
  destruct (split_terraform_file (fun _ => None) SplitterExamples.unit_a
              SplitterExamples.cfg_z) as [r|e] eqn:Hr;
    [|vm_compute in Hr; discriminate].
  assert (Hw : written r = [("z.tf", file_text [SplitterExamples.unit_a])]).
  { vm_compute in Hr. injection Hr as <-. reflexivity. }
  destruct (C6_round_trip_closed (fun _ => None) SplitterExamples.unit_a
              SplitterExamples.cfg_z r
              [("z.tf", file_text [SplitterExamples.unit_a])] Hr)
    as (Hperm & _ & _).
  - intros b [<-|[]]. reflexivity.
  - now rewrite Hw.
  - exact Hperm.
Defined.

(** C6 as stated fails, in two ways, also where every file opens.  With
    the type [a] in the skip list,
    the block [a.x] of [unit_a] is written to no file and is missing when
    the output is read back.  With nothing skipped, the block [b.y] of
    [unit_second_truncated] is never closed; it is written to [other.tf],
    which comes before [z.tf], and read back it takes the block [a.x] of
    [z.tf] into its own lines. *)
Lemma C6_round_trip_counterexample :
  (exists r,
      split_terraform_file (fun _ => None) SplitterExamples.unit_a
        SplitterExamples.cfg_skip_a = Returned r
      /\ In "a.x" (addresses (parse_tf_blocks SplitterExamples.unit_a))
      /\ ~ In "a.x"
           (addresses
              (parse_tf_blocks (concat_text (map snd (written r))))))
  /\ (exists r,
        split_terraform_file (fun _ => None)
          SplitterExamples.unit_second_truncated
          SplitterExamples.cfg_z = Returned r
        /\ In "a.x"
             (addresses
                (parse_tf_blocks SplitterExamples.unit_second_truncated))
        /\ ~ In "a.x"
             (addresses
                (parse_tf_blocks (concat_text (map snd (written r)))))).
Proof.
  split; eexists; (split; [reflexivity|]); split.
  - vm_compute. auto.
  - vm_compute. tauto.
  - vm_compute. auto.
  - vm_compute. intros [H|[]]. discriminate.
Qed.

End RoundTrip.

(* ================================================================== *)
(** * The dependency parser                                            *)
(* ================================================================== *)

Section DependencyParser.
Import Py Re DepGraph DepGraphRun.

Lemma fold_left_pointwise {A B} (f g : A -> B -> A) (l : list B) :
  (forall a b, f a b = g a b) ->
  forall a, fold_left f l a = fold_left g l a.
Proof.
  intros H. induction l as [|b l IH]; intros a; simpl; auto.
  now rewrite H, IH.
Qed.

Lemma parse_file_matches (d : dict string) (content : string) :
  _parse_file d content
  = fold_left set_match (finditer_resources content 0) d.
Proof.
  unfold _parse_file. apply fold_left_pointwise.
  intros a [[rtype rname] body]. reflexivity.
Qed.

Lemma parse_files_matches (tf_files : list string) :
  forall d,
    fold_left _parse_file tf_files d
    = fold_left set_match (all_matches tf_files) d.
Proof.
  unfold all_matches.
  induction tf_files as [|c files IH]; intros d; simpl; auto.
  now rewrite fold_left_app, IH, parse_file_matches.
Qed.

Lemma set_match_keys_nodup (ms : list (string * string * string)) :
  forall d, NoDup (keys d) -> NoDup (keys (fold_left set_match ms d)).
Proof.
  induction ms as [|m ms IH]; intros d H; simpl; auto.
  apply IH. unfold set_match. now apply keys_dict_set_nodup.
Qed.

Lemma in_keys_dict_set {V} (d : dict V) (k a : string) (v : V) :
  In a (keys (dict_set d k v)) <-> In a (keys d) \/ a = k.
Proof.
  rewrite keys_dict_set. destruct (str_in k (keys d)) eqn:E.
  - apply str_in_In in E. split; auto. intros [H| ->]; auto.
  - rewrite in_app_iff. simpl. intuition.
Qed.

Lemma set_match_keys (ms : list (string * string * string)) (a : string) :
  forall d,
    In a (keys (fold_left set_match ms d))
    <-> In a (keys d) \/ exists m, In m ms /\ match_id m = a.
Proof.
  induction ms as [|m ms IH]; intros d; simpl.
  - split; auto. intros [H|(m & [] & _)]. auto.
  - rewrite IH. unfold set_match. rewrite in_keys_dict_set. split.
    + intros [[H|H]|(m' & Hin & Hid)]; eauto.
    + intros [H|(m' & [<-|Hin] & Hid)]; eauto.
Qed.

Lemma set_match_last (pre post : list (string * string * string))
  (m : string * string * string) :
  (forall m', In m' post -> match_id m' <> match_id m) ->
  forall d,
    dict_get (fold_left set_match (pre ++ m :: post) d) (match_id m)
    = Some (snd m).
Proof.
  intros Hpost d. rewrite fold_left_app. simpl.
  generalize (fold_left set_match pre d). intros d0.
  assert (H0 : dict_get (set_match d0 m) (match_id m) = Some (snd m))
    by apply dict_get_set_same.
  revert H0. generalize (set_match d0 m). clear d0.
  induction post as [|m' post IH]; intros d1 H1; simpl; auto.
  apply IH.
  - intros m'' Hin. apply Hpost. now right.
  - unfold set_match. rewrite dict_get_set_other; auto.
    apply Hpost. now left.
Qed.

(** ** Tokens *)

Lemma take_class_all (p : ascii -> bool) (s : string) :
  all_chars p (fst (take_class p s)) = true.
Proof.
  induction s as [|c s IH]; simpl; auto.
  destruct (p c) eqn:E; simpl; auto.
  destruct (take_class p s) as [a b]. simpl in *. now rewrite E, IH.
Qed.

Lemma ref_match_type (prev : option ascii) (s ty nm rest : string) :
  ref_match prev s = Some (ty, nm, rest) ->
  all_chars is_type_char ty = true.
Proof.
  unfold ref_match.
  destruct (match prev with Some c => is_word c | None => false end);
    [discriminate|].
  pose proof (take_class_all is_type_char s) as Hall.
  destruct (take_class is_type_char s) as [a r1]. simpl in Hall.
  destruct a as [|a0 a]; [discriminate|].
  destruct (lit "." r1) as [r2|]; [|discriminate].
  destruct (take_class is_name_char r2) as [b r3].
  destruct b as [|b0 b]; [discriminate|].
  intros H. injection H as <- _ _. exact Hall.
Qed.

Lemma finditer_refs_type (body : string) :
  forall (prev : option ascii) (skip : nat) (ty nm : string),
    In (ty, nm) (finditer_refs prev body skip) ->
    all_chars is_type_char ty = true.
Proof.
  induction body as [|c body IH]; intros prev skip ty nm H.
  - destruct skip; simpl in H; [|contradiction].
    destruct (ref_match prev EmptyString) as [[[t n] r]|] eqn:E;
      [|contradiction].
    destruct H as [H|[]]. injection H as <- <-.
    eapply ref_match_type; eauto.
  - destruct skip as [|skip]; simpl in H.
    + destruct (ref_match prev (String c body)) as [[[t n] r]|] eqn:E.
      * destruct H as [H|H].
        -- injection H as <- <-. eapply ref_match_type; eauto.
        -- eapply IH; eauto.
      * eapply IH; eauto.
    + eapply IH; eauto.
Qed.

Lemma type_char_not_dot (c : ascii) :
  is_type_char c = true -> not_dot c = true.
Proof.
  unfold not_dot. destruct (Ascii.eqb c ".") eqn:E; auto.
  apply Ascii.eqb_eq in E. subst c. discriminate.
Qed.

Lemma type_of_id_resource_id (ty nm : string) :
  all_chars is_type_char ty = true ->
  type_of_id (resource_id_of ty nm) = ty.
Proof.
  unfold type_of_id, resource_id_of.
  induction ty as [|c ty IH]; intros H.
  - reflexivity.
  - cbn [all_chars] in H. apply andb_prop in H as [Hc Hty].
    specialize (IH Hty).
    cbn [String.append take_class] in IH |- *.
    rewrite (type_char_not_dot _ Hc).
    destruct (take_class not_dot (ty +++ String "."%char nm)) as [a b].
    cbn [fst] in *. now subst a.
Qed.

(** ** Dependencies *)

Lemma in_dict_set {V} (d : dict V) (k k0 : string) (v v0 : V) :
  In (k0, v0) (dict_set d k v) -> In (k0, v0) d \/ (k0 = k /\ v0 = v).
Proof.
  induction d as [|[k' v'] d IH]; simpl.
  - intros [H|[]]. injection H as <- <-. auto.
  - destruct (String.eqb k' k) eqn:E; simpl.
    + apply String.eqb_eq in E. subst k'.
      intros [H|H]; auto. injection H as <- <-. auto.
    + intros [H|H]; auto. apply IH in H as [H|H]; auto.
Qed.

Lemma dict_get_In {V} (d : dict V) (k : string) (v : V) :
  dict_get d k = Some v -> In (k, v) d.
Proof.
  induction d as [|[k' v'] d IH]; simpl; [discriminate|].
  destruct (String.eqb k' k) eqn:E.
  - apply String.eqb_eq in E. subst k'. intros H. injection H as <-. auto.
  - auto.
Qed.

Lemma in_set_add (x t : string) (s : list string) :
  In t (set_add x s) <-> t = x \/ In t s.
Proof.
  unfold set_add. destruct (str_in x s) eqn:E.
  - apply str_in_In in E. split; auto. intros [->|H]; auto.
  - rewrite in_app_iff. simpl. split.
    + intros [H|[H|[]]]; auto.
    + intros [H|H]; auto.
Qed.

Lemma set_add_nodup (x : string) (s : list string) :
  NoDup s -> NoDup (set_add x s).
Proof.
  intros H. unfold set_add. destruct (str_in x s) eqn:E; auto.
  apply str_in_false in E. apply NoDup_app; auto.
  - constructor; [simpl; tauto|constructor].
  - intros y Hy [<-|[]]. contradiction.
Qed.

Lemma ref_step_ok (resources : dict string) (s body : string)
  (deps : dict (list string)) (m : string * string) :
  In (s, body) resources ->
  In m (finditer_refs None body 0) ->
  deps_ok resources deps ->
  deps_ok resources (ref_step resources s deps m).
Proof.
  intros Hs Hm [Hnd Hok]. destruct m as [ty nm]. unfold ref_step.
  destruct (str_in ty reserved) eqn:Hres; [split; auto|].
  destruct (dict_mem resources (resource_id_of ty nm)
            && negb (String.eqb (resource_id_of ty nm) s))%bool eqn:Hc;
    [|split; auto].
  apply andb_prop in Hc as [Hmem Hneq].
  assert (Hin : In (resource_id_of ty nm) (keys resources)).
  { unfold dict_mem in Hmem. apply dict_get_in_keys.
    destruct (dict_get resources (resource_id_of ty nm)); eauto.
    discriminate. }
  apply negb_true_iff, String.eqb_neq in Hneq.
  apply str_in_false in Hres.
  unfold dict_add. split.
  - now apply keys_dict_set_nodup.
  - intros s0 ds0 Hin0. apply in_dict_set in Hin0 as [Hold|[-> ->]].
    + now apply Hok.
    + assert (Hprev : NoDup (match dict_get deps s with
                             | Some s1 => s1 | None => [] end)
                      /\ forall t,
                           In t (match dict_get deps s with
                                 | Some s1 => s1 | None => [] end) ->
                           edge_ok resources s t).
      { destruct (dict_get deps s) as [old|] eqn:Hget.
        - apply dict_get_In in Hget. destruct (Hok _ _ Hget) as (_ & H1 & H2).
          auto.
        - split; [constructor|intros t []]. }
      destruct Hprev as [Hnd0 Hedges].
      repeat split.
      * apply in_map_iff. exists (s, body). auto.
      * now apply set_add_nodup.
      * apply in_set_add in H as [->|H]; [assumption|].
        now destruct (Hedges t H).
      * apply in_set_add in H as [->|H]; [assumption|].
        now destruct (Hedges t H) as (_ & ? & _).
      * apply in_set_add in H as [->|H].
        -- exists body, ty, nm. auto.
        -- now destruct (Hedges t H) as (_ & _ & ?).
Qed.

Lemma extract_dependencies_ok (resources : dict string) :
  deps_ok resources (_extract_dependencies resources []).
Proof.
  unfold _extract_dependencies.
  assert (Hgen : forall items deps,
             (forall it, In it items -> In it resources) ->
             deps_ok resources deps ->
             deps_ok resources
               (fold_left
                  (fun deps (item : string * string) =>
                     let (resource_id, body) := item in
                     fold_left (ref_step resources resource_id)
                       (finditer_refs None body 0) deps)
                  items deps)).
  { induction items as [|[s body] items IH]; intros deps Hsub Hok; simpl;
      auto.
    apply IH; [intros it Hin; apply Hsub; now right|].
    assert (Hs : In (s, body) resources) by (apply Hsub; now left).
    assert (Hrefs : forall ms deps0,
               (forall m, In m ms -> In m (finditer_refs None body 0)) ->
               deps_ok resources deps0 ->
               deps_ok resources
                 (fold_left (ref_step resources s) ms deps0)).
    { induction ms as [|m ms IHm]; intros deps0 Hms Hok0; simpl; auto.
      apply IHm; [intros m' Hin; apply Hms; now right|].
      apply (ref_step_ok resources s body); auto. apply Hms. now left. }
    apply Hrefs; auto. }
  apply Hgen; auto.
  split; [constructor|intros s ds []].
Qed.

Lemma parse_resources_nodup (tf_files : list string) :
  NoDup (keys (resources (parse tf_files))).
Proof.
  unfold parse. cbn [resources]. rewrite parse_files_matches.
  apply set_match_keys_nodup. constructor.
Qed.

Lemma parse_deps_ok (tf_files : list string) :
  deps_ok (resources (parse tf_files)) (dependencies (parse tf_files)).
Proof. unfold parse. cbn [resources dependencies]. apply extract_dependencies_ok. Qed.

End DependencyParser.

(* ================================================================== *)
(** * The traversal of the text tree                                   *)
(* ================================================================== *)

Section TreeTraversal.
Import Py Re DepGraph DepGraphRun.

Variable set_iter : list string -> list string.
Hypothesis set_iter_in : forall s x, In x (set_iter s) -> In x s.

Variable p : parser.
Hypothesis deps_closed :
  forall r ds d,
    dict_get (dependencies p) r = Some ds -> In d ds ->
    In d (keys (resources p)).


Lemma filter_length_mono {A} (f g : A -> bool) (l : list A) :
  (forall x, In x l -> f x = true -> g x = true) ->
  List.length (filter f l) <= List.length (filter g l).
Proof.
  induction l as [|x l IH]; intros H; simpl; auto.
  assert (IH' : List.length (filter f l) <= List.length (filter g l)).
  { apply IH. intros y Hy. apply H. now right. }
  destruct (f x) eqn:Ef.
  - rewrite (H x (or_introl eq_refl) Ef). simpl. lia.
  - destruct (g x); simpl; lia.
Qed.

Lemma filter_length_lt {A} (f g : A -> bool) (l : list A) (a : A) :
  (forall x, In x l -> f x = true -> g x = true) ->
  In a l -> f a = false -> g a = true ->
  List.length (filter f l) < List.length (filter g l).
Proof.
  induction l as [|x l IH]; intros H Hin Hf Hg; [contradiction|].
  simpl.
  assert (Hle : List.length (filter f l) <= List.length (filter g l)).
  { apply filter_length_mono. intros y Hy. apply H. now right. }
  destruct Hin as [->|Hin].
  - rewrite Hf, Hg. simpl. lia.
  - assert (IH' : List.length (filter f l) < List.length (filter g l)).
    { apply IH; auto. intros y Hy. apply H. now right. }
    destruct (f x) eqn:Ef.
    + rewrite (H x (or_introl eq_refl) Ef). simpl. lia.
    + destruct (g x); simpl; lia.
Qed.

Lemma unvisited_mono (v v' : list string) :
  incl v v' ->
  List.length (unvisited (keys (resources p)) v') <= List.length (unvisited (keys (resources p)) v).
Proof.
  intros Hincl. apply filter_length_mono. intros x _ Hx.
  apply negb_true_iff, str_in_false in Hx.
  apply negb_true_iff, str_in_false. auto.
Qed.

Lemma unvisited_visit (v : list string) (r : string) :
  In r (keys (resources p)) -> ~ In r v ->
  List.length (unvisited (keys (resources p)) (v ++ [r])) < List.length (unvisited (keys (resources p)) v).
Proof.
  intros Hr Hv. apply (filter_length_lt _ _ _ r); auto.
  - intros x _ Hx. apply negb_true_iff, str_in_false in Hx.
    apply negb_true_iff, str_in_false. intros Hin. apply Hx.
    apply in_or_app. now left.
  - apply negb_false_iff, str_in_In, in_or_app. right. now left.
  - now apply negb_true_iff, str_in_false.
Qed.

Lemma grows_refl (st : tree_state) : grows st st.
Proof. exists []. simpl. now rewrite !app_nil_r. Qed.

Lemma grows_trans (a b c : tree_state) :
  grows a b -> grows b c -> grows a c.
Proof.
  intros (e1 & Hv1 & Hl1) (e2 & Hv2 & Hl2). exists (e1 ++ e2).
  rewrite Hv2, Hv1, Hl2, Hl1, !map_app, !app_assoc. auto.
Qed.

Lemma grows_incl (a b : tree_state) :
  grows a b -> incl (visited a) (visited b).
Proof.
  intros (e & Hv & _) x Hx. rewrite Hv. apply in_or_app. now left.
Qed.

(** The loop over the dependencies, given that the calls it makes
    behave. *)
Lemma each_dep_spec
  (call : string -> string -> bool -> tree_state -> option tree_state)
  (bound : nat) :
  (forall r pfx il st,
      In r (keys (resources p)) -> good (keys (resources p)) st ->
      List.length (unvisited (keys (resources p)) (visited st)) <= bound ->
      exists st', call r pfx il st = Some st' /\ grows st st' /\ good (keys (resources p)) st') ->
  forall (n : nat) (pfx : string) (rest : list string) (i : nat)
         (st : tree_state),
    (forall d, In d rest -> In d (keys (resources p))) ->
    good (keys (resources p)) st ->
    List.length (unvisited (keys (resources p)) (visited st)) <= bound ->
    exists st',
      each_dep call n pfx i rest st = Some st' /\ grows st st' /\ good (keys (resources p)) st'.
Proof.
  intros Hcall n pfx.
  induction rest as [|d rest IH]; intros i st Hrest Hgood Hlen; simpl.
  - exists st. split; auto. split; auto. apply grows_refl.
  - destruct (Hcall d pfx (Nat.eqb i (n - 1)) st) as (st1 & -> & Hg1 & Hgood1);
      auto.
    { apply Hrest. now left. }
    destruct (IH (S i) st1) as (st2 & Hrun & Hg2 & Hgood2); auto.
    { intros d' Hd'. apply Hrest. now right. }
    { pose proof (unvisited_mono _ _ (grows_incl _ _ Hg1)). lia. }
    exists st2. split; auto. split; auto. eapply grows_trans; eauto.
Qed.

(** A call of [print_tree] returns when its fuel covers the addresses not
    visited yet; it expands addresses that were not visited, each once,
    and leaves its own address visited. *)
Lemma print_tree_fuel (fuel : nat) :
  forall (r pfx : string) (il : bool) (st : tree_state),
    In r (keys (resources p)) -> good (keys (resources p)) st ->
    List.length (unvisited (keys (resources p)) (visited st)) <= fuel ->
    exists st',
      print_tree set_iter fuel p r pfx il st = Some st'
      /\ grows st st' /\ good (keys (resources p)) st' /\ In r (visited st').
Proof.
  induction fuel as [|fuel IH]; intros r pfx il st Hr Hgood Hlen.
  - assert (Hin : In r (visited st)).
    { destruct (str_in r (visited st)) eqn:E; [now apply str_in_In|].
      apply str_in_false in E. exfalso.
      assert (Hun : In r (unvisited (keys (resources p)) (visited st))).
      { apply filter_In. split; auto.
        now apply negb_true_iff, str_in_false. }
      destruct (unvisited (keys (resources p)) (visited st)); [contradiction|simpl in Hlen; lia]. }
    apply str_in_In in Hin as Hb. cbn [print_tree]. rewrite Hb.
    exists st. split; [reflexivity|]. split; [apply grows_refl|]. auto.
  - cbn [print_tree].
    destruct (str_in r (visited st)) eqn:E.
    + apply str_in_In in E.
      exists st. split; [reflexivity|]. split; [apply grows_refl|]. auto.
    + apply str_in_false in E.
      assert (Hadd : set_add r (visited st) = visited st ++ [r]).
      { unfold set_add. apply str_in_false in E. now rewrite E. }
      rewrite Hadd.
      set (line := pfx +++ (if il then "└── " else "├── ") +++ r).
      set (st1 := mk_tree_state (visited st ++ [r]) (tree_lines st ++ [line])).
      assert (Hg1 : grows st st1).
      { exists [(pfx +++ (if il then "└── " else "├── "), r)].
        unfold st1, line, entry_line. simpl.
        now rewrite append_assoc. }
      assert (Hgood1 : good (keys (resources p)) st1).
      { destruct Hgood as [Hnd Hincl]. split; simpl.
        - apply NoDup_app; auto.
          + constructor; [simpl; tauto|constructor].
          + intros x Hx [<-|[]]. contradiction.
        - intros x Hx. apply in_app_or in Hx as [Hx|[<-|[]]]; auto. }
      assert (Hlen1 : List.length (unvisited (keys (resources p)) (visited st1)) <= fuel).
      { pose proof (unvisited_visit (visited st) r Hr E). simpl. lia. }
      destruct (each_dep_spec (print_tree set_iter fuel p) fuel) with
        (n := List.length
                (set_iter match dict_get (dependencies p) r with
                          | Some s => s
                          | None => []
                          end))
        (pfx := pfx +++ (if il then "    " else "│   "))
        (rest := set_iter match dict_get (dependencies p) r with
                          | Some s => s
                          | None => []
                          end)
        (i := 0) (st := st1)
        as (st2 & Hrun & Hg2 & Hgood2); auto.
      * intros r' pfx' il' st' Hr' Hgood' Hlen'.
        destruct (IH r' pfx' il' st' Hr' Hgood' Hlen')
          as (st'' & H1 & H2 & H3 & _).
        exists st''. auto.
      * intros d Hd. apply set_iter_in in Hd.
        destruct (dict_get (dependencies p) r) as [ds|] eqn:Hget;
          [|contradiction].
        eapply deps_closed; eauto.
      * exists st2. split; [exact Hrun|].
        split; [eapply grows_trans; eauto|]. split; [exact Hgood2|].
        apply (grows_incl _ _ Hg2). simpl. apply in_or_app.
        right. now left.
Qed.

Lemma each_root_spec (n : nat) (roots : list string) :
  forall (i : nat) (st : tree_state),
    (forall r, In r roots -> In r (keys (resources p))) ->
    good (keys (resources p)) st ->
    exists st',
      each_root set_iter (List.length (keys (resources p))) p n i roots st = Some st'
      /\ grows st st' /\ good (keys (resources p)) st'
      /\ forall r, In r roots -> In r (visited st').
Proof.
  induction roots as [|r roots IH]; intros i st Hroots Hgood; simpl.
  - exists st. split; [reflexivity|]. split; [apply grows_refl|].
    split; [exact Hgood|]. intros r [].
  - assert (Hr : In r (keys (resources p))) by (apply Hroots; now left).
    assert (Hlen : List.length (unvisited (keys (resources p)) (visited st))
                   <= List.length (keys (resources p)))
      by apply List.filter_length_le.
    destruct (print_tree_fuel (List.length (keys (resources p))) r
                EmptyString (Nat.eqb i (n - 1)) st Hr Hgood Hlen)
      as (st1 & -> & Hg1 & Hgood1 & Hin1).
    destruct (IH (S i) st1) as (st2 & Hrun & Hg2 & Hgood2 & Hin2); auto.
    { intros r' Hr'. apply Hroots. now right. }
    exists st2. split; [exact Hrun|].
    split; [eapply grows_trans; eauto|]. split; [exact Hgood2|].
    intros r' [<-|Hr']; auto. now apply (grows_incl _ _ Hg2).
Qed.

Lemma set_diff_in (a b : list string) (x : string) :
  In x (set_diff a b) <-> In x a /\ ~ In x b.
Proof.
  unfold set_diff. rewrite filter_In, negb_true_iff, str_in_false. tauto.
Qed.

Lemma fewest_dependencies_incl (x : string) :
  In x (fewest_dependencies p) -> In x (keys (resources p)).
Proof.
  unfold fewest_dependencies. intros H.
  assert (Hin : In x (sorted
                        (fun a b =>
                           Nat.leb (out_degree (dependencies p) a)
                             (out_degree (dependencies p) b))
                        (keys (resources p)))).
  { rewrite <- (firstn_skipn 3). apply in_or_app. now left. }
  eapply Permutation_in; [apply sorted_perm|exact Hin].
Qed.

Lemma tree_roots_incl (x : string) : In x (tree_roots p) -> In x (keys (resources p)).
Proof.
  unfold tree_roots.
  destruct (set_diff (keys (resources p)) (all_deps p)) as [|r0 roots] eqn:E.
  - apply fewest_dependencies_incl.
  - rewrite <- E. intros H. now apply set_diff_in in H.
Qed.

(** The traversal returns; what it prints after the two heading lines is
    one line for each address it expanded, no address twice, and every
    root is among them. *)
Lemma tree_run_spec :
  exists st entries,
    tree_run set_iter p = Some st
    /\ tree_lines st
       = ["Terraform Resource Dependencies:"; EmptyString]
           ++ map entry_line entries
    /\ visited st = map snd entries
    /\ NoDup (map snd entries)
    /\ incl (map snd entries) (keys (resources p))
    /\ forall r, In r (tree_roots p) -> In r (map snd entries).
Proof.
  unfold tree_run.
  destruct (each_root_spec (List.length (tree_roots p))
              (sorted String.leb (tree_roots p)) 0
              (mk_tree_state []
                 ["Terraform Resource Dependencies:"; EmptyString]))
    as (st & Hrun & (entries & Hv & Hl) & [Hnd Hincl] & Hroots).
  - intros r Hr. apply tree_roots_incl.
    eapply Permutation_in; [apply sorted_perm|exact Hr].
  - split; [constructor|intros x []].
  - exists st, entries. simpl in Hv, Hl. rewrite Hv in *.
    repeat split; auto.
    intros r Hr. apply Hroots.
    eapply Permutation_in; [apply Permutation_sym, sorted_perm|exact Hr].
Qed.

End TreeTraversal.

(* ================================================================== *)
(** * Reference edges                                                  *)
(* ================================================================== *)

Section ReferenceEdges.
Import Py Re DepGraph DepGraphRun.

Lemma In_dict_get {V} (d : dict V) (k : string) (v : V) :
  NoDup (keys d) -> In (k, v) d -> dict_get d k = Some v.
Proof.
  induction d as [|[k' v'] d IH]; simpl; intros Hnd Hin; [contradiction|].
  inversion Hnd as [|? ? Hnotin Hnd']; subst.
  destruct Hin as [Heq|Hin].
  - injection Heq as -> ->. now rewrite String.eqb_refl.
  - destruct (String.eqb k' k) eqn:E.
    + apply String.eqb_eq in E. subst k'. exfalso. apply Hnotin.
      apply in_map_iff. now exists (k, v).
    + now apply IH.
Qed.

(** C3.  An edge of a parsed unit goes from an address of the unit to
    another address of the unit, never to the source itself.  Its target
    is built from a token of the body of the source whose first segment
    is not reserved; the first segment of the target is not reserved; and
    no token with a reserved first segment, in any body, spells the
    target.  So a token such as [nsg.id] gives an edge only when [nsg.id]
    is an address of the unit. *)
Theorem C3_reference_edges (tf_files : list string)
  (source target : string) :
  let p := parse tf_files in
  edge p source target ->
  In target (keys (resources p))
  /\ In source (keys (resources p))
  /\ target <> source
  /\ ~ In (type_of_id target) reserved
  /\ (exists body ref_type ref_name,
        dict_get (resources p) source = Some body
        /\ In (ref_type, ref_name) (finditer_refs None body 0)
        /\ target = resource_id_of ref_type ref_name
        /\ ~ In ref_type reserved)
  /\ (forall body ref_type ref_name,
        In (ref_type, ref_name) (finditer_refs None body 0) ->
        In ref_type reserved ->
        target <> resource_id_of ref_type ref_name).
Proof.
  intros p (ds & Hin & Ht).
  destruct (parse_deps_ok tf_files) as [_ Hok]. fold p in Hok.
  destruct (Hok _ _ Hin) as (Hs & _ & Hedges).
  destruct (Hedges _ Ht)
    as (Htarget & Hneq & body & ty & nm & Hbody & Htok & Hid & Hres).
  assert (Hty : type_of_id target = ty).
  { rewrite Hid. apply type_of_id_resource_id.
    eapply finditer_refs_type; eauto. }
  repeat split; auto.
  - now rewrite Hty.
  - exists body, ty, nm. repeat split; auto.
    apply In_dict_get; auto. apply parse_resources_nodup.
  - intros body' rt rn Htok' Hres' Heq.
    apply Hres. rewrite <- Hty, Heq.
    rewrite type_of_id_resource_id; auto.
    eapply finditer_refs_type; eauto.
Qed.

Lemma C3_reference_edges_witness :
  dependencies (parse unit_nsg) = [("t.c", ["t.d"])]
  /\ In "t.d" (keys (resources (parse unit_nsg)))
  /\ ~ In "nsg.id" (keys (resources (parse unit_nsg))).
Proof.
  split; [vm_compute; reflexivity|]. split.
  - assert (He : edge (parse unit_nsg) "t.c" "t.d").
    { exists ["t.d"]. split; vm_compute; auto. }
    exact (proj1 (C3_reference_edges unit_nsg "t.c" "t.d" He)).
  - vm_compute. intros [H|[H|[]]]; discriminate.
Defined.

End ReferenceEdges.

(* ================================================================== *)
(** * One entry and one node for each address                          *)
(* ================================================================== *)

Section OneNodePerAddress.
Import Py Re DepGraph DepGraphRun DepGraphReach.

Lemma all_chars_append (p : ascii -> bool) (a b : string) :
  all_chars p (a +++ b) = (all_chars p a && all_chars p b)%bool.
Proof.
  induction a as [|c a IH]; simpl; auto. now rewrite IH, andb_assoc.
Qed.

Lemma quoted_no_dquote (s v r : string) :
  quoted s = Some (v, r) -> all_chars not_dquote v = true.
Proof.
  unfold quoted. destruct s as [|c s]; [discriminate|].
  destruct (Ascii.eqb c dquote); [|discriminate].
  pose proof (take_class_all not_dquote s) as Hall.
  destruct (take_class not_dquote s) as [a b]. simpl in Hall.
  destruct a as [|a0 a]; [discriminate|].
  destruct b as [|b0 b]; [discriminate|].
  intros H. now injection H as <- _.
Qed.

Lemma resource_match_id (s ty nm body rest : string) :
  resource_match s = Some (ty, nm, body, rest) ->
  all_chars not_dquote (resource_id_of ty nm) = true.
Proof.
  unfold resource_match.
  destruct (lit "resource" s) as [r0|]; [|discriminate].
  destruct (ws1 r0) as [r1|]; [|discriminate].
  destruct (quoted r1) as [[t r2]|] eqn:H1; [|discriminate].
  destruct (ws1 r2) as [r3|]; [|discriminate].
  destruct (quoted r3) as [[n r4]|] eqn:H2; [|discriminate].
  destruct (lit "{" (ws0 r4)) as [r5|]; [|discriminate].
  destruct (take_class not_rbrace r5) as [b [|c r6]]; [discriminate|].
  intros H. injection H as <- <- _ _.
  unfold resource_id_of. rewrite !all_chars_append.
  now rewrite (quoted_no_dquote _ _ _ H1), (quoted_no_dquote _ _ _ H2).
Qed.

Lemma finditer_resources_id (content : string) :
  forall (skip : nat) (m : string * string * string),
    In m (finditer_resources content skip) ->
    all_chars not_dquote (match_id m) = true.
Proof.
  induction content as [|c content IH]; intros skip m H.
  - destruct skip; simpl in H; contradiction.
  - destruct skip as [|skip]; simpl in H.
    + destruct (resource_match (String c content)) as [[[[t n] b] r]|] eqn:E.
      * destruct H as [<-|H].
        -- eapply resource_match_id; eauto.
        -- eapply IH; eauto.
      * eapply IH; eauto.
    + eapply IH; eauto.
Qed.

Lemma parse_keys_no_dquote (tf_files : list string) (a : string) :
  In a (keys (resources (parse tf_files))) ->
  all_chars not_dquote a = true.
Proof.
  unfold parse. cbn [resources]. rewrite parse_files_matches.
  rewrite set_match_keys. intros [[]|(m & Hin & <-)].
  unfold all_matches in Hin. apply in_flat_map in Hin as (c & _ & Hm).
  eapply finditer_resources_id; eauto.
Qed.

(** Two texts that run up to their first double quote. *)
Lemma append_stop (a b x y : string) :
  all_chars not_dquote a = true ->
  all_chars not_dquote b = true ->
  a +++ String dquote x = b +++ String dquote y ->
  a = b.
Proof.
  revert b. induction a as [|c a IH]; intros [|d b] Ha Hb H; simpl in *;
    auto.
  - injection H as <- _. discriminate.
  - injection H as -> _. discriminate.
  - apply andb_prop in Ha as [_ Ha]. apply andb_prop in Hb as [_ Hb].
    injection H as -> H. f_equal. now apply IH.
Qed.

Lemma append_length (a b : string) :
  String.length (a +++ b) = String.length a + String.length b.
Proof. induction a as [|c a IH]; simpl; auto. Qed.

Lemma replace_char_length (c d : ascii) (s : string) :
  String.length (replace_char c (String d EmptyString) s) = String.length s.
Proof.
  induction s as [|e s IH]; simpl; auto.
  destruct (Ascii.eqb e c); simpl; now rewrite IH.
Qed.

Lemma sanitize_length (s : string) :
  String.length (sanitize s) = String.length s.
Proof. unfold sanitize. now rewrite !replace_char_length. Qed.

Lemma append_same_length (a b x y : string) :
  String.length a = String.length b ->
  a +++ x = b +++ y -> a = b /\ x = y.
Proof.
  revert b. induction a as [|c a IH]; intros [|d b] Hlen H; simpl in *;
    try discriminate; auto.
  injection Hlen as Hlen. injection H as -> H.
  destruct (IH b Hlen H) as [-> ->]. auto.
Qed.

Lemma q_append (a rest : string) :
  q a +++ rest = String dquote (a +++ String dquote rest).
Proof. unfold q. simpl. now rewrite append_assoc. Qed.

Lemma dot_node_inj (a b : string) :
  all_chars not_dquote a = true ->
  all_chars not_dquote b = true ->
  dot_node a = dot_node b -> a = b.
Proof.
  intros Ha Hb H. unfold dot_node in H.
  apply append_same_length in H as [_ H]; [|reflexivity].
  rewrite (q_append a), (q_append b) in H. injection H as H.
  eapply append_stop; eauto.
Qed.

Lemma mermaid_node_inj (a b : string) :
  mermaid_node a = mermaid_node b -> a = b.
Proof.
  intros H.
  assert (Hlen : String.length a = String.length b).
  { apply (f_equal String.length) in H. unfold mermaid_node, q in H.
    rewrite !append_length, !sanitize_length in H. simpl in H. lia. }
  unfold mermaid_node in H.
  apply append_same_length in H as [_ H]; [|reflexivity].
  apply append_same_length in H as [_ H]; [|now rewrite !sanitize_length].
  apply append_same_length in H as [_ H]; [|reflexivity].
  rewrite !q_append in H. injection H as H.
  now apply append_same_length in H as [H _].
Qed.

Lemma NoDup_map_on {A B} (f : A -> B) (l : list A) :
  (forall x y, In x l -> In y l -> f x = f y -> x = y) ->
  NoDup l -> NoDup (map f l).
Proof.
  intros Hinj Hnd. induction Hnd as [|x l Hx Hnd IH]; simpl; constructor.
  - intros Hin. apply in_map_iff in Hin as (y & Heq & Hy).
    assert (y = x) by (apply Hinj; simpl; auto). now subst.
  - apply IH. intros a b Ha Hb. apply Hinj; now right.
Qed.

Lemma sanitize_cons (c : ascii) (s : string) :
  sanitize (String c s)
  = String (if (Ascii.eqb c "." || Ascii.eqb c "-")%bool then "_"%char
            else c)
      (sanitize s).
Proof.
  unfold sanitize. simpl.
  destruct (Ascii.eqb c ".") eqn:E1; simpl; [reflexivity|].
  destruct (Ascii.eqb c "-"); reflexivity.
Qed.

Lemma sanitize_separator (c : ascii) :
  is_separator c = true ->
  (if (Ascii.eqb c "." || Ascii.eqb c "-")%bool then "_"%char else c)
  = "_"%char.
Proof.
  unfold is_separator.
  destruct (Ascii.eqb c "." || Ascii.eqb c "-")%bool; auto.
  simpl. intros H. now apply Ascii.eqb_eq in H.
Qed.

Lemma sanitize_other (c : ascii) :
  is_separator c = false ->
  (if (Ascii.eqb c "." || Ascii.eqb c "-")%bool then "_"%char else c) = c.
Proof.
  unfold is_separator. intros H.
  apply orb_false_iff in H as [H _]. now rewrite H.
Qed.

Lemma separator_underscore : is_separator "_" = true.
Proof. reflexivity. Qed.

(** Two names have the same sanitized form exactly when they are
    alike. *)
Lemma sanitize_alike (a : string) :
  forall b, sanitize a = sanitize b <-> alike a b = true.
Proof.
  induction a as [|c a IH]; intros [|d b]; cbn [alike].
  - split; reflexivity.
  - rewrite sanitize_cons. split; discriminate.
  - rewrite sanitize_cons. split; discriminate.
  - rewrite !sanitize_cons, andb_true_iff, <- IH. split.
    + intros H. injection H as Hc Hs. split; auto.
      destruct (is_separator c) eqn:Ec; destruct (is_separator d) eqn:Ed.
      * now rewrite orb_true_r.
      * rewrite (sanitize_separator c Ec), (sanitize_other d Ed) in Hc.
        subst d. rewrite separator_underscore in Ed. discriminate.
      * rewrite (sanitize_other c Ec), (sanitize_separator d Ed) in Hc.
        subst c. rewrite separator_underscore in Ec. discriminate.
      * rewrite (sanitize_other c Ec), (sanitize_other d Ed) in Hc.
        subst d. now rewrite Ascii.eqb_refl.
    + intros [Hc ->]. f_equal.
      apply orb_prop in Hc as [Hc|Hc].
      * apply Ascii.eqb_eq in Hc. now subst.
      * apply andb_prop in Hc as [Ec Ed].
        now rewrite (sanitize_separator c Ec), (sanitize_separator d Ed).
Qed.

Lemma NoDup_map_inj {A B} (f : A -> B) (l : list A) :
  NoDup (map f l) ->
  forall x y, In x l -> In y l -> f x = f y -> x = y.
Proof.
  induction l as [|a l IH]; intros Hnd x y Hx Hy Hxy; [contradiction|].
  simpl in Hnd. inversion Hnd as [|? ? Hnotin Hnd']; subst.
  destruct Hx as [->|Hx]; destruct Hy as [->|Hy]; auto.
  - exfalso. apply Hnotin. rewrite Hxy. now apply in_map.
  - exfalso. apply Hnotin. rewrite <- Hxy. now apply in_map.
Qed.

(** C10, as the code has it.  The parsed resource map has one entry for
    each address that a resource block of the unit declares, and the
    entry holds the body of the last block with that address.  The DOT
    rendering has one node line for each address, its node is the quoted
    address, and no two of these lines are equal.  The Mermaid rendering
    has one node line for each address and no two of these lines are
    equal, but the node of a line is the sanitized address: two addresses
    have the same Mermaid node exactly when they are alike, and the
    Mermaid nodes are one for each address exactly when no two addresses
    of the unit are alike.  The text tree prints an address at most
    once. *)
Theorem C10_one_entry_per_address (tf_files : list string)
  (set_iter : list string -> list string) :
  let p := parse tf_files in
  (forall s x, In x (set_iter s) -> In x s) ->
  NoDup (keys (resources p))
  /\ (forall a,
        In a (keys (resources p))
        <-> exists m, In m (all_matches tf_files) /\ match_id m = a)
  /\ (forall pre m post,
        all_matches tf_files = pre ++ m :: post ->
        (forall m', In m' post -> match_id m' <> match_id m) ->
        dict_get (resources p) (match_id m) = Some (snd m))
  /\ dot_lines set_iter p
     = ["digraph terraform_dependencies {"; "  rankdir=LR;";
        "  node [shape=box, style=rounded];"; EmptyString]
         ++ map dot_node (keys (resources p))
         ++ [EmptyString]
         ++ edge_lines set_iter dot_edge (dependencies p)
         ++ ["}"]
  /\ NoDup (map dot_node (keys (resources p)))
  /\ mermaid_lines set_iter p
     = ["graph LR"; EmptyString]
         ++ map mermaid_node (keys (resources p))
         ++ [EmptyString]
         ++ edge_lines set_iter mermaid_edge (dependencies p)
  /\ NoDup (map mermaid_node (keys (resources p)))
  /\ (forall a b, sanitize a = sanitize b <-> alike a b = true)
  /\ (NoDup (map sanitize (keys (resources p)))
      <-> forall a b,
            In a (keys (resources p)) -> In b (keys (resources p)) ->
            alike a b = true -> a = b)
  /\ exists st entries,
       tree_run set_iter p = Some st
       /\ tree_lines st
          = ["Terraform Resource Dependencies:"; EmptyString]
              ++ map entry_line entries
       /\ NoDup (map snd entries)
       /\ incl (map snd entries) (keys (resources p)).
Proof.
  intros p Hiter.
  pose proof (parse_resources_nodup tf_files) as Hnd. fold p in Hnd.
  assert (Hres : resources p = fold_left set_match (all_matches tf_files) []).
  { unfold p, parse. cbn [resources]. apply parse_files_matches. }
  split; [exact Hnd|].
  split; [|split; [|split; [|split; [|split; [|split; [|split; [|split]]]]]]].
  - intros a. rewrite Hres, set_match_keys. simpl. tauto.
  - intros pre m post Hall Hpost. rewrite Hres, Hall.
    now apply set_match_last.
  - reflexivity.
  - apply NoDup_map_on; auto. intros x y Hx Hy.
    apply dot_node_inj; eapply parse_keys_no_dquote; eauto.
  - reflexivity.
  - apply NoDup_map_on; auto. intros x y _ _. apply mermaid_node_inj.
  - intros a b. apply sanitize_alike.
  - split.
    + intros Hs a b Ha Hb Hab.
      apply (NoDup_map_inj sanitize _ Hs a b Ha Hb).
      now apply sanitize_alike.
    + intros Hinj. apply NoDup_map_on; auto.
      intros x y Hx Hy Hxy. apply Hinj; auto. now apply sanitize_alike.
  - destruct (tree_run_spec set_iter Hiter p)
      as (st & entries & Hrun & Hlines & _ & Hnodup & Hincl & _).
    + intros r ds d Hget Hd.
      destruct (parse_deps_ok tf_files) as [_ Hok]. fold p in Hok.
      apply dict_get_In in Hget.
      destruct (Hok _ _ Hget) as (_ & _ & Hedges).
      now destruct (Hedges d Hd).
    + exists st, entries. auto.
Qed.

Lemma C10_one_entry_per_address_witness :
  dict_get (resources (parse unit_twice)) "t.c" = Some " second ".
Proof.
  assert (Hid : forall (s : list string) (x : string),
             In x ((fun l => l) s) -> In x s) by auto.
  destruct (C10_one_entry_per_address unit_twice (fun l => l) Hid)
    as (_ & _ & Hlast & _).
  apply (Hlast [("t", "c", " first "); ("t", "d", " other ")]
           ("t", "c", " second ") []).
  - vm_compute. reflexivity.
  - intros m' [].
Defined.

(** C10 as stated fails for the Mermaid rendering and for the text tree.
    The unit [unit_alike] declares the addresses [t.a-b] and [t.a_b];
    both have the Mermaid node [t_a_b], which the rendering declares
    twice, with two labels, and the edge from the first to the second
    goes from [t_a_b] to [t_a_b].  In [unit_cycle_and_root] the addresses
    [t.c] and [t.d] depend on each other and on nothing else, the only
    root is [t.r], and the tree prints [t.r] alone: the address [t.c] is
    in the resource map and in no line of the tree. *)
Lemma C10_renderings_counterexample :
  keys (resources (parse unit_alike)) = ["t.a-b"; "t.a_b"]
  /\ mermaid_lines (fun l => l) (parse unit_alike)
     = ["graph LR"; EmptyString;
        "  t_a_b[" +++ q "t.a-b" +++ "]";
        "  t_a_b[" +++ q "t.a_b" +++ "]";
        EmptyString;
        "  t_a_b --> t_a_b"]
  /\ ~ NoDup (map sanitize (keys (resources (parse unit_alike))))
  /\ In "t.c" (keys (resources (parse unit_cycle_and_root)))
  /\ tree_run (fun l => l) (parse unit_cycle_and_root)
     = Some (mk_tree_state ["t.r"]
               ["Terraform Resource Dependencies:"; EmptyString;
                "└── t.r"]).
Proof.
  split; [vm_compute; reflexivity|]. split; [vm_compute; reflexivity|].
  split; [|split; [vm_compute; auto|vm_compute; reflexivity]].
  intros H. vm_compute in H.
  inversion H as [|? ? Hnotin _]. apply Hnotin. now left.
Qed.

End OneNodePerAddress.

(* ================================================================== *)
(** * The text tree                                                    *)
(* ================================================================== *)

Section TextTree.
Import Py Re DepGraph DepGraphRun.



Section ByKey.
Context {A : Type} (key : A -> nat).




End ByKey.




End TextTree.

(* ================================================================== *)
(** * The block content of generate_outputs.py                         *)
(* ================================================================== *)

Section BlockContent.
Import Py Re Outputs OutputsGen OutputsGenRun.

Lemma net_empty : net EmptyString = 0%Z.
Proof. reflexivity. Qed.

Lemma net_cons (c : ascii) (s : string) :
  net (String c s)
  = ((if Ascii.eqb c lbrace then 1 else 0)
     - (if Ascii.eqb c rbrace then 1 else 0) + net s)%Z.
Proof. unfold net. cbn [count_char]. lia. Qed.

Lemma net_append (a b : string) : net (a +++ b) = (net a + net b)%Z.
Proof. unfold net. rewrite !count_char_append. lia. Qed.

(** The loop returns at the first closing brace that brings the count to
    zero; with a count of at least one at the start, the count stays at
    least one until then. *)
Lemma content_loop_some (rest : string) :
  forall (i : nat) (bc : Z) (k : nat),
    (1 <= bc)%Z ->
    content_loop rest i bc = Some k ->
    exists p q,
      rest = p +++ String rbrace q
      /\ k = i + String.length p
      /\ (bc + net p = 1)%Z
      /\ forall p' q', p = p' +++ q' -> (1 <= bc + net p')%Z.
Proof.
  assert (Hstep : forall c p q i k bc (d : Z),
             (forall s, net (String c s) = d + net s)%Z ->
             (1 <= bc)%Z ->
             (k = S i + String.length p
              /\ (bc + d + net p = 1)%Z
              /\ forall p' q', p = p' +++ q' -> (1 <= bc + d + net p')%Z) ->
             String c (p +++ String rbrace q)
             = String c p +++ String rbrace q
             /\ k = i + String.length (String c p)
             /\ (bc + net (String c p) = 1)%Z
             /\ forall p' q',
                  String c p = p' +++ q' -> (1 <= bc + net p')%Z).
  { intros c p q i k bc d Hd Hbc (Hk & Hnet & Hpre).
    split; [reflexivity|]. split; [simpl; lia|].
    split; [rewrite Hd; lia|].
    intros [|e p'] q' Heq; [rewrite net_empty; lia|].
    simpl in Heq. injection Heq as <- Heq.
    rewrite Hd. specialize (Hpre p' q' Heq). lia. }
  induction rest as [|c rest IH]; intros i bc k Hbc H; [discriminate|].
  cbn [content_loop] in H.
  destruct (Ascii.eqb c lbrace) eqn:El.
  - assert (Er : Ascii.eqb c rbrace = false).
    { apply Ascii.eqb_eq in El. now subst c. }
    apply IH in H as (p & q & -> & Hrest); [|lia].
    exists (String c p), q. apply (Hstep c p q i k bc 1%Z); auto;
          try (intros s; rewrite net_cons, El, Er; lia);
          try (destruct Hrest as (Hk & Hnet & Hpre);
               repeat split; auto; try lia;
               intros p' q' Heq; specialize (Hpre p' q' Heq); lia).
  - destruct (Ascii.eqb c rbrace) eqn:Er.
    + destruct (bc - 1 =? 0)%Z eqn:Hz.
      * injection H as <-. apply Z.eqb_eq in Hz.
        apply Ascii.eqb_eq in Er. subst c.
        exists EmptyString, rest. rewrite net_empty.
        split; [reflexivity|]. split; [simpl; lia|]. split; [lia|].
        intros [|d p'] q' Heq; [rewrite net_empty; lia|discriminate].
      * apply Z.eqb_neq in Hz.
        apply IH in H as (p & q & -> & Hrest); [|lia].
        exists (String c p), q. apply (Hstep c p q i k bc (-1)%Z); auto;
          try (intros s; rewrite net_cons, El, Er; lia);
          try (destruct Hrest as (Hk & Hnet & Hpre);
               repeat split; auto; try lia;
               intros p' q' Heq; specialize (Hpre p' q' Heq); lia).
    + apply IH in H as (p & q & -> & Hrest); [|lia].
      exists (String c p), q. apply (Hstep c p q i k bc 0%Z); auto;
          try (intros s; rewrite net_cons, El, Er; lia);
          try (destruct Hrest as (Hk & Hnet & Hpre);
               repeat split; auto; try lia;
               intros p' q' Heq; specialize (Hpre p' q' Heq); lia).
Qed.

(** The loop runs to the end only when no closing brace brings the count
    to zero. *)
Lemma content_loop_none (rest : string) :
  forall (i : nat) (bc : Z),
    content_loop rest i bc = None ->
    forall p q, rest = p +++ String rbrace q -> (bc + net p <> 1)%Z.
Proof.
  induction rest as [|c rest IH]; intros i bc H p q Heq.
  - destruct p; discriminate.
  - cbn [content_loop] in H.
    destruct p as [|d p]; simpl in Heq; injection Heq as -> Heq.
    + rewrite net_empty.
      change (Ascii.eqb rbrace lbrace) with false in H.
      change (Ascii.eqb rbrace rbrace) with true in H.
      destruct (bc - 1 =? 0)%Z eqn:Hz; [discriminate|].
      apply Z.eqb_neq in Hz. lia.
    + rewrite net_cons.
      destruct (Ascii.eqb d lbrace) eqn:El.
      * assert (Er : Ascii.eqb d rbrace = false).
        { apply Ascii.eqb_eq in El. now subst d. }
        rewrite Er. specialize (IH _ _ H p q Heq). lia.
      * destruct (Ascii.eqb d rbrace) eqn:Er.
        -- destruct (bc - 1 =? 0)%Z; [discriminate|].
           specialize (IH _ _ H p q Heq). lia.
        -- specialize (IH _ _ H p q Heq). lia.
Qed.

Lemma substring_drop (n : nat) :
  forall s p r,
    drop n s = p +++ r -> String.substring n (String.length p) s = p.
Proof.
  induction n as [|n IH]; intros s p r H.
  - simpl in H. subst s. induction p as [|c p IHp]; simpl.
    + now destruct r.
    + now rewrite IHp.
  - destruct s as [|c s]; simpl in H.
    + destruct p; [reflexivity|discriminate].
    + simpl. eapply IH; eauto.
Qed.

(** X1.  A block content that is not empty is followed by a closing brace
    in the text; its braces balance; and none of its prefixes closes more
    braces than it opens. *)
Theorem extract_block_content_sound (content body : string)
  (start_pos : nat) :
  _extract_block_content content start_pos = body ->
  body <> EmptyString ->
  exists rest,
    drop start_pos content = body +++ String rbrace rest
    /\ net body = 0%Z
    /\ forall p q, body = p +++ q -> (0 <= net p)%Z.
Proof.
  unfold _extract_block_content. intros H Hne.
  destruct (content_loop (drop start_pos content) start_pos 1) as [k|] eqn:E;
    [|congruence].
  apply content_loop_some in E as (p & q & Hdrop & -> & Hnet & Hpre); [|lia].
  replace (start_pos + String.length p - start_pos) with (String.length p)
    in H by lia.
  rewrite (substring_drop _ _ _ _ Hdrop) in H. subst p.
  exists q. repeat split; auto; try lia.
  intros p' q' Heq. specialize (Hpre p' q' Heq). lia.
Qed.

Lemma extract_block_content_sound_witness :
  exists rest,
    drop 44 main_tf
    = _extract_block_content main_tf 44 +++ String rbrace rest
    /\ net (_extract_block_content main_tf 44) = 0%Z.
Proof.
  destruct (extract_block_content_sound main_tf
              (_extract_block_content main_tf 44) 44 eq_refl)
    as (rest & Hdrop & Hnet & _).
  - vm_compute. discriminate.
  - exists rest. split; assumption.
Defined.

(** X2.  When no closing brace after [start_pos] brings the braces back
    to balance, the block content is empty: an unclosed resource has no
    content, and the object [parse] builds for a header that ends at
    [start_pos] has no name. *)
Theorem extract_block_content_unclosed (content : string) (start_pos : nat) :
  (forall p q,
      drop start_pos content = p +++ String rbrace q -> net p <> 0%Z) ->
  _extract_block_content content start_pos = EmptyString
  /\ forall rtype rname,
       build_resource content (rtype, rname, start_pos)
       = mk_parsed rtype rname None None.
Proof.
  intros Hopen.
  assert (Hempty : _extract_block_content content start_pos = EmptyString).
  { unfold _extract_block_content.
    destruct (content_loop (drop start_pos content) start_pos 1)
      as [k|] eqn:E; auto.
    apply content_loop_some in E as (p & q & Hdrop & _ & Hnet & _); [|lia].
    exfalso. apply (Hopen p q Hdrop). lia. }
  split; auto. intros rtype rname.
  unfold build_resource. rewrite Hempty.
  destruct (String.eqb rtype "azurerm_subnet"); reflexivity.
Qed.

Lemma extract_block_content_unclosed_witness :
  _extract_block_content "resource { a { b }" 10 = EmptyString
  /\ forall rtype rname,
       build_resource "resource { a { b }" (rtype, rname, 10)
       = mk_parsed rtype rname None None.
Proof.
  apply extract_block_content_unclosed.
  intros p q H. vm_compute in H.
  repeat (destruct p as [|? p]; [discriminate|];
          simpl in H; injection H as <- H).
  destruct p; discriminate H.
Defined.

Lemma first_close_unique (p : string) :
  forall (p' q q' : string) (bc : Z),
    p +++ String rbrace q = p' +++ String rbrace q' ->
    (bc + net p = 1)%Z ->
    (bc + net p' = 1)%Z ->
    (forall a b, p = a +++ String rbrace b -> (bc + net a <> 1)%Z) ->
    (forall a b, p' = a +++ String rbrace b -> (bc + net a <> 1)%Z) ->
    p = p'.
Proof.
  induction p as [|c p IH]; intros p' q q' bc Heq Hn Hn' Hf Hf'.
  - destruct p' as [|d p']; auto.
    simpl in Heq. injection Heq as <- Heq. exfalso.
    apply (Hf' EmptyString p' eq_refl). rewrite net_empty in *. lia.
  - destruct p' as [|d p'].
    + simpl in Heq. injection Heq as -> Heq. exfalso.
      apply (Hf EmptyString p eq_refl). rewrite net_empty in *. lia.
    + simpl in Heq. injection Heq as <- Heq. f_equal.
      rewrite net_cons in Hn, Hn'.
      apply (IH p' q q'
               (bc + ((if Ascii.eqb c lbrace then 1 else 0)
                      - (if Ascii.eqb c rbrace then 1 else 0)))%Z);
        auto; try lia.
      * intros a b Hsplit.
        specialize (Hf (String c a) b). rewrite net_cons in Hf.
        simpl in Hf. rewrite Hsplit in Hf. specialize (Hf eq_refl). lia.
      * intros a b Hsplit.
        specialize (Hf' (String c a) b). rewrite net_cons in Hf'.
        simpl in Hf'. rewrite Hsplit in Hf'. specialize (Hf' eq_refl). lia.
Qed.

(** X3.  A text that sits in front of the first closing brace at which
    the braces balance is the block content. *)
Theorem extract_block_content_complete (content body rest : string)
  (start_pos : nat) :
  drop start_pos content = body +++ String rbrace rest ->
  net body = 0%Z ->
  (forall p q, body = p +++ String rbrace q -> net p <> 0%Z) ->
  _extract_block_content content start_pos = body.
Proof.
  intros Hdrop Hnet Hfirst. unfold _extract_block_content.
  destruct (content_loop (drop start_pos content) start_pos 1) as [k|] eqn:E.
  - apply content_loop_some in E as (p & q & Hdrop' & -> & Hnet' & Hpre);
      [|lia].
    replace (start_pos + String.length p - start_pos) with (String.length p)
      by lia.
    rewrite (substring_drop _ _ _ _ Hdrop').
    rewrite Hdrop in Hdrop'. symmetry in Hdrop'.
    apply (first_close_unique p body q rest 1%Z); auto; try lia.
    + intros a b Hsplit.
      specialize (Hpre (a +++ String rbrace EmptyString) b).
      rewrite append_assoc in Hpre. specialize (Hpre Hsplit).
      rewrite net_append, net_cons, net_empty in Hpre.
      change (Ascii.eqb rbrace lbrace) with false in Hpre.
      change (Ascii.eqb rbrace rbrace) with true in Hpre. lia.
    + intros a b Hsplit. specialize (Hfirst a b Hsplit). lia.
  - exfalso.
    apply (content_loop_none _ _ _ E body rest Hdrop). lia.
Qed.

Lemma extract_block_content_complete_witness :
  _extract_block_content "x { a { b } c } d }" 3 = " a { b } c ".
Proof.
  apply (extract_block_content_complete _ _ " d }").
  - reflexivity.
  - reflexivity.
  - intros p q H.
    repeat (destruct p as [|? p]; [discriminate|];
            simpl in H; injection H as <- H).
    destruct p; discriminate H.
Defined.

End BlockContent.

(* ================================================================== *)
(** * The resources of generate_outputs.py and the generated files      *)
(* ================================================================== *)

Section ParsedResources.
Import Py Re Outputs OutputsGen OutputsGenRun.

Lemma add_resource_get (d : dict (list ParsedResource)) (r : ParsedResource)
  (t : string) :
  dict_get (add_resource d r) t
  = if String.eqb (resource_type r) t then
      Some (match dict_get d t with Some l => l | None => [] end ++ [r])
    else dict_get d t.
Proof.
  unfold add_resource.
  destruct (String.eqb (resource_type r) t) eqn:E.
  - apply String.eqb_eq in E. subst t.
    rewrite dict_get_set_same.
    destruct (dict_get d (resource_type r)) eqn:G.
    + now rewrite G.
    + now rewrite dict_get_set_same.
  - apply String.eqb_neq in E.
    rewrite dict_get_set_other by auto.
    destruct (dict_get d (resource_type r)); auto.
    now rewrite dict_get_set_other.
Qed.

Lemma add_resource_keys_nodup (d : dict (list ParsedResource))
  (r : ParsedResource) :
  NoDup (keys d) -> NoDup (keys (add_resource d r)).
Proof.
  intros H. unfold add_resource.
  apply keys_dict_set_nodup.
  destruct (dict_get d (resource_type r)); auto.
  now apply keys_dict_set_nodup.
Qed.

Lemma add_resources_get (rs : list ParsedResource) (t : string) :
  forall d,
    dict_get (fold_left add_resource rs d) t
    = match dict_get d t, of_type t rs with
      | None, [] => None
      | o, l => Some (match o with Some l0 => l0 | None => [] end ++ l)
      end.
Proof.
  unfold of_type.
  induction rs as [|r rs IH]; intros d; simpl.
  - destruct (dict_get d t); auto. now rewrite app_nil_r.
  - rewrite IH, add_resource_get.
    destruct (String.eqb (resource_type r) t) eqn:E.
    + destruct (dict_get d t) as [l0|];
        destruct (filter _ rs); simpl; rewrite <- ?app_assoc; reflexivity.
    + reflexivity.
Qed.

Lemma parse_fold (content : string) :
  parse content = fold_left add_resource (all_resources content) [].
Proof.
  unfold parse, all_resources.
  generalize (@nil (string * list ParsedResource)).
  induction (finditer_headers content 0 0) as [|m ms IH]; intros d; simpl;
    auto.
Qed.

(** X4.  [parse] groups the resources by type: no type has two entries,
    and the entry of a type holds the resources of that type, all of them,
    in the order in which the headers stand in the text; a type without
    resource has no entry. *)
Theorem parse_groups_by_type (content rtype : string) :
  NoDup (keys (parse content))
  /\ dict_get (parse content) rtype
     = match of_type rtype (all_resources content) with
       | [] => None
       | l => Some l
       end.
Proof.
  rewrite parse_fold. split.
  - generalize (all_resources content). intros rs.
    assert (H : forall d, NoDup (keys d) ->
                  NoDup (keys (fold_left add_resource rs d))).
    { induction rs as [|r rs IH]; intros d Hd; simpl; auto.
      apply IH. now apply add_resource_keys_nodup. }
    apply H. constructor.
  - rewrite add_resources_get. simpl.
    now destruct (of_type rtype (all_resources content)).
Qed.

Lemma add_resource_perm (d : dict (list ParsedResource))
  (r : ParsedResource) :
  Permutation (concat (map snd (add_resource d r)))
    (r :: concat (map snd d)).
Proof.
  assert (Hset : forall (d0 : dict (list ParsedResource)) k l0,
             dict_get d0 k = Some l0 ->
             Permutation (concat (map snd (dict_set d0 k (l0 ++ [r]))))
               (r :: concat (map snd d0))).
  { induction d0 as [|[k' v'] d0 IH]; intros k l0 Hget; simpl in *;
      [discriminate|].
    destruct (String.eqb k' k) eqn:E; simpl.
    - injection Hget as ->. rewrite <- app_assoc.
      apply Permutation_sym. apply (Permutation_middle l0 _ r).
    - rewrite (Permutation_app_head v' (IH k l0 Hget)).
      apply Permutation_sym, Permutation_middle. }
  unfold add_resource.
  destruct (dict_get d (resource_type r)) as [l|] eqn:G.
  - rewrite G. now apply Hset.
  - rewrite dict_get_set_same.
    rewrite (Hset _ (resource_type r) [] (dict_get_set_same _ _ _)).
    constructor.
    assert (Hfresh : ~ In (resource_type r) (keys d)).
    { intros Hin. apply dict_get_in_keys in Hin as (v & Hv). congruence. }
    rewrite (dict_set_fresh _ _ _ Hfresh), map_app, concat_app. simpl.
    now rewrite app_nil_r.
Qed.

Lemma resource_count_concat (g : OutputGenerator) :
  resource_count g = List.length (concat (map snd (resources g))).
Proof.
  unfold resource_count.
  assert (H : forall (d : dict (list ParsedResource)) n,
             fold_left (fun n item => n + List.length (snd item)) d n
             = n + List.length (concat (map snd d))).
  { induction d as [|[k v] d IH]; intros n; simpl; [lia|].
    rewrite IH, length_app. simpl. lia. }
  now rewrite H.
Qed.

(** X5.  The metadata of [outputs.tf] counts every match of the header
    pattern in [main.tf], whether its type is configured or not and
    whether it has a name or not. *)
Theorem metadata_counts_every_header (content : string)
  (resource_configs : list ResourceTypeConfig) :
  resource_count (new_generator (parse content) resource_configs)
  = List.length (finditer_headers content 0 0)
  /\ In ("    resource_count = "
           +++ str_of_nat (List.length (finditer_headers content 0 0)))
       (outputs_lines (new_generator (parse content) resource_configs)).
Proof.
  set (g := new_generator (parse content) resource_configs).
  assert (Hcount : resource_count g
                   = List.length (finditer_headers content 0 0)).
  { rewrite resource_count_concat. unfold g. cbn [resources new_generator].
    rewrite parse_fold.
    assert (H : forall rs d,
               Permutation
                 (concat (map snd (fold_left add_resource rs d)))
                 (concat (map snd d) ++ rs)).
    { induction rs as [|r rs IH]; intros d; simpl.
      - now rewrite app_nil_r.
      - rewrite IH, (Permutation_app_tail _ (add_resource_perm d r)).
        simpl. apply Permutation_middle. }
    rewrite (Permutation_length (H _ _)). simpl.
    unfold all_resources. apply length_map. }
  split; auto.
  unfold outputs_lines. rewrite <- Hcount.
  apply in_or_app. right. apply in_or_app. right.
  simpl. auto 10.
Qed.

End ParsedResources.

(* ================================================================== *)
(** * locals.tf and outputs.tf                                          *)
(* ================================================================== *)

Section GeneratedFiles.
Import Py Re Outputs OutputsGen OutputsGenRun.

Lemma quoted_nonempty (s v r : string) :
  quoted s = Some (v, r) -> v <> EmptyString.
Proof.
  unfold quoted. destruct s as [|c s]; [discriminate|].
  destruct (Ascii.eqb c dquote); [|discriminate].
  destruct (take_class not_dquote s) as [[|a v'] [|b r']]; try discriminate.
  intros H. injection H as <- _. discriminate.
Qed.

Lemma extract_attribute_nonempty (block_content attr_name v : string) :
  _extract_top_level_attribute block_content attr_name = Some v ->
  v <> EmptyString.
Proof.
  unfold _extract_top_level_attribute.
  generalize 0%Z. induction (split_lines block_content) as [|line ls IH];
    intros depth; simpl; [discriminate|].
  destruct (depth =? 0)%Z; [|apply IH].
  destruct (attr_pattern attr_name line) as [v'|] eqn:E; [|apply IH].
  intros H. injection H as ->.
  unfold attr_pattern in E.
  destruct (lit attr_name (ws0 line)) as [s1|]; [|discriminate].
  destruct (lit "=" (ws0 s1)) as [s2|]; [|discriminate].
  destruct (quoted (ws0 s2)) as [[v' r]|] eqn:Q; [|discriminate].
  injection E as ->. eapply quoted_nonempty; eauto.
Qed.

Lemma azure_name_truthy (content : string) (r : ParsedResource) :
  In r (all_resources content) ->
  truthy (azure_name r) = match azure_name r with Some _ => true | None => false end.
Proof.
  unfold all_resources. intros Hin. apply in_map_iff in Hin as (m & <- & _).
  destruct m as [[rtype rname] match_end]. cbn [build_resource azure_name].
  destruct (_extract_top_level_attribute _ "name") as [v|] eqn:E; auto.
  apply extract_attribute_nonempty in E. destruct v; [congruence | reflexivity].
Qed.

Lemma find_app {A} (f : A -> bool) (l1 l2 : list A) :
  find f (l1 ++ l2)
  = match find f l1 with Some x => Some x | None => find f l2 end.
Proof.
  induction l1 as [|x l1 IH]; simpl; auto. now destruct (f x).
Qed.

Lemma config_map_last (rs : dict (list ParsedResource))
  (configs : list ResourceTypeConfig) (rtype : string) :
  dict_get (config_map (new_generator rs configs)) rtype
  = last_config rtype configs.
Proof.
  cbn [config_map new_generator].
  assert (H : forall cs d,
             dict_get
               (fold_left (fun d c => dict_set d (terraform_type c) c) cs d)
               rtype
             = match last_config rtype cs with
               | Some c => Some c
               | None => dict_get d rtype
               end).
  { unfold last_config.
    induction cs as [|c cs IH]; intros d; simpl; auto.
    rewrite IH, find_app. simpl.
    destruct (find _ (rev cs)); auto.
    destruct (String.eqb (terraform_type c) rtype) eqn:E.
    - apply String.eqb_eq in E. subst rtype. apply dict_get_set_same.
    - apply String.eqb_neq in E. now apply dict_get_set_other. }
  rewrite H. now destruct (last_config rtype configs).
Qed.

Lemma parse_get (content rtype : string) :
  dict_get (parse content) rtype
  = match of_type rtype (all_resources content) with
    | [] => None
    | l => Some l
    end.
Proof.
  rewrite parse_fold, add_resources_get. simpl.
  now destruct (of_type rtype (all_resources content)).
Qed.

Lemma in_sorted_resources (content : string)
  (configs : list ResourceTypeConfig) (r : ParsedResource) :
  In r (all_resources content) ->
  exists l, In r l
    /\ In (resource_type r, l)
         (sorted_resources (new_generator (parse content) configs)).
Proof.
  intros Hin.
  assert (Hof : In r (of_type (resource_type r) (all_resources content))).
  { apply filter_In. split; auto. apply String.eqb_refl. }
  pose proof (parse_get content (resource_type r)) as Hget.
  destruct (of_type (resource_type r) (all_resources content)) as [|x l] eqn:E;
    [contradiction|].
  exists (x :: l). split; auto.
  unfold sorted_resources. cbn [resources new_generator].
  eapply Permutation_in; [apply Permutation_sym, sorted_perm|].
  now apply dict_get_In.
Qed.

(** X6.  Every resource header found in [main.tf] whose type is configured
    has its line in the map of its type in [locals.tf]: the entry from its
    key to its address when the block has a top-level name, and the
    warning comment when it has none.  A name that was extracted is never
    the empty string, so there is no third case.  Of several
    configurations of one type the last one is used. *)
Theorem locals_line_for_every_resource (content : string)
  (configs : list ResourceTypeConfig) (r : ParsedResource)
  (config : ResourceTypeConfig) :
  In r (all_resources content) ->
  last_config (resource_type r) configs = Some config ->
  In (resource_line config r)
    (locals_lines (new_generator (parse content) configs))
  /\ azure_name r <> Some EmptyString.
Proof.
  intros Hin Hcfg. split.
  - destruct (in_sorted_resources content configs r Hin)
      as (l & Hrl & Hitem).
    unfold locals_lines.
    apply in_or_app. right. apply in_or_app. left.
    apply in_flat_map. exists (resource_type r, l). split; auto.
    cbn [locals_section]. rewrite config_map_last, Hcfg.
    apply in_or_app. right. apply in_or_app. left.
    apply in_map_iff. exists r. split; auto.
    unfold locals_entry, resource_line.
    rewrite (azure_name_truthy content r Hin).
    now destruct (azure_name r).
  - intros Hempty. pose proof (azure_name_truthy content r Hin) as Ht.
    rewrite Hempty in Ht. discriminate.
Qed.

Lemma locals_line_for_every_resource_witness :
  In (resource_line
        (mk_rtconfig "azurerm_subnet" "subnets" "composite" "Subnets" ["id"]
           (Some "${virtual_network_name}/${name}"))
        (mk_parsed "azurerm_subnet" "sub1" (Some "sub-a") (Some "vnet-a")))
    (locals_lines (new_generator (parse main_tf) main_configs))
  /\ Some "sub-a" <> Some EmptyString.
Proof.
  apply (locals_line_for_every_resource main_tf main_configs
           (mk_parsed "azurerm_subnet" "sub1" (Some "sub-a")
              (Some "vnet-a"))).
  - vm_compute. right. left. reflexivity.
  - vm_compute. reflexivity.
Defined.

Lemma for_line_inj (a b : string) : for_line a = for_line b -> a = b.
Proof.
  unfold for_line. intros H.
  apply append_same_length in H as [_ H]; [|reflexivity].
  assert (Hlen : String.length a = String.length b).
  { apply (f_equal String.length) in H. rewrite !append_length in H.
    simpl in H. lia. }
  now apply append_same_length in H as [H _].
Qed.

(** X7.  [outputs.tf] reads no map that [locals.tf] does not define: a
    line [for k, v in local.all_KEY] stands in the outputs only if the
    line that opens [all_KEY] stands in the locals generated from the same
    resources and configurations. *)
Theorem outputs_read_defined_locals (g : OutputGenerator) (key : string) :
  In (for_line key) (outputs_lines g) ->
  In (map_open_line key) (locals_lines g).
Proof.
  unfold outputs_lines, locals_lines. intros Hin.
  apply in_app_or in Hin as [Hin|Hin].
  { exfalso. unfold for_line in Hin. simpl in Hin.
    repeat (destruct Hin as [Hin|Hin]; [discriminate Hin|]).
    exact Hin. }
  apply in_app_or in Hin as [Hin|Hin].
  2:{ exfalso. unfold for_line in Hin. simpl in Hin.
      repeat (destruct Hin as [Hin|Hin]; [discriminate Hin|]).
      exact Hin. }
  apply in_flat_map in Hin as ([rtype l] & Hitem & Hin).
  apply in_or_app. right. apply in_or_app. left.
  apply in_flat_map. exists (rtype, l). split; auto.
  cbn [outputs_section locals_section] in *.
  destruct (dict_get (config_map g) rtype) as [config|]; [|contradiction].
  destruct (filter _ l); [contradiction|].
  apply in_app_or in Hin as [Hin|Hin].
  - simpl in Hin.
    destruct Hin as [Hin|[Hin|[Hin|[Hin|[]]]]]; try discriminate Hin.
    apply for_line_inj in Hin. subst key.
    right. right. left. reflexivity.
  - exfalso. apply in_app_or in Hin as [Hin|Hin].
    + apply in_map_iff in Hin as (attr & Hin & _). discriminate Hin.
    + simpl in Hin.
      repeat (destruct Hin as [Hin|Hin]; [discriminate Hin|]).
      exact Hin.
Qed.

Lemma outputs_read_defined_locals_witness :
  In (map_open_line "vnets")
    (locals_lines (new_generator (parse main_tf) main_configs)).
Proof.
  apply outputs_read_defined_locals.
  vm_compute. repeat (first [left; reflexivity | right]).
Defined.

End GeneratedFiles.

(* ================================================================== *)
(** * What the splitter writes to each file                            *)
(* ================================================================== *)

Section SplitterFilesProofs.
Import Py Re Splitter SplitterRun SplitterFiles.

Lemma set_pair_fold_get (rtype : string) (pairs : list (string * string)) :
  forall d : dict string,
    dict_get (fold_left set_pair pairs d) rtype
    = match last_file rtype pairs with
      | Some f => Some f
      | None => dict_get d rtype
      end.
Proof.
  unfold last_file.
  induction pairs as [|[k v] pairs IH]; intros d; simpl; auto.
  rewrite IH, find_app. simpl.
  destruct (find _ (rev pairs)); simpl; auto.
  unfold set_pair. simpl.
  destruct (String.eqb k rtype) eqn:E; simpl.
  - apply String.eqb_eq in E. subst. apply dict_get_set_same.
  - apply String.eqb_neq in E. now apply dict_get_set_other.
Qed.

Lemma set_pair_fold_nodup (pairs : list (string * string)) :
  forall d : dict string,
    NoDup (keys d) -> NoDup (keys (fold_left set_pair pairs d)).
Proof.
  induction pairs as [|pr pairs IH]; intros d Hd; simpl; auto.
  apply IH. unfold set_pair. now apply keys_dict_set_nodup.
Qed.

(** X8.  The reverse index has one entry for each configured type, and a
    type that the configuration lists more than once, under one file or
    under several, is indexed under the file that lists it last. *)
Theorem type_index_last_wins (cfg : config) (rtype : string) :
  NoDup (keys (build_type_to_file_map cfg))
  /\ dict_get (build_type_to_file_map cfg) rtype
     = last_file rtype (configured_pairs cfg).
Proof.
  rewrite build_type_to_file_map_pairs. split.
  - apply set_pair_fold_nodup. constructor.
  - rewrite set_pair_fold_get. simpl.
    now destruct (last_file rtype (configured_pairs cfg)).
Qed.

Lemma dict_append_get (fb : dict (list string)) (k x f : string) :
  dict_get (dict_append fb k x) f
  = if String.eqb k f then Some (get_or (dict_get fb f) [] ++ [x])
    else dict_get fb f.
Proof.
  unfold dict_append.
  destruct (String.eqb k f) eqn:E.
  - apply String.eqb_eq in E. subst f.
    destruct (dict_get fb k) eqn:G; simpl; now rewrite dict_get_set_same.
  - apply String.eqb_neq in E.
    destruct (dict_get fb k); now rewrite dict_get_set_other.
Qed.

Lemma add_special_get (ps : list (string * string)) (f : string) :
  forall fb,
    dict_get (add_special fb ps) f
    = match dict_get fb f, texts_of f ps with
      | None, [] => None
      | o, l => Some (get_or o [] ++ l)
      end.
Proof.
  unfold add_special, texts_of.
  induction ps as [|[k x] ps IH]; intros fb; simpl.
  - destruct (dict_get fb f); simpl; auto. now rewrite app_nil_r.
  - rewrite IH, dict_append_get.
    destruct (String.eqb k f) eqn:E; simpl; auto.
    destruct (dict_get fb f); simpl; destruct (filter _ ps); simpl;
      rewrite <- ?app_assoc; reflexivity.
Qed.

Lemma texts_of_target_pairs (target : block -> option string) (f : string)
  (bs : list block) :
  texts_of f (target_pairs target bs) = texts_for target f bs.
Proof.
  unfold texts_of, target_pairs, texts_for.
  induction bs as [|b bs IH]; simpl; auto.
  destruct (target b) as [f'|]; simpl; auto.
  destruct (String.eqb f' f); simpl; now rewrite IH.
Qed.

Lemma group_step_exact (cfg : config) (b : block) (g : groups) :
  well_formed b ->
  exists g',
    group_step (build_type_to_file_map cfg)
      (get_or (default_file cfg) "other.tf") (get_or (skip_types cfg) [])
      g b = Returned g'
    /\ file_blocks g'
       = add_special (file_blocks g)
           (target_pairs (resource_target cfg) [b])
    /\ special_blocks g'
       = special_blocks g ++ target_pairs special_target [b].
Proof.
  unfold group_step, target_pairs, resource_target, special_target,
    add_special.
  intros [[Hk (t & n & Ht & Hn)]|[Hk Ht]]; simpl.
  - rewrite (is_resource_kind_resource _ Hk), Ht.
    destruct (get_target_file t _ _ _); eexists; (split; [reflexivity|]);
      simpl; now rewrite app_nil_r.
  - destruct (special_kind_file _ Hk) as [Hr (f & Hf)]. rewrite Hr, Hf.
    eexists. split; [reflexivity|]. simpl. auto.
Qed.

Lemma group_loop_exact (cfg : config) (blocks : list block) :
  Forall well_formed blocks ->
  forall g,
  exists g',
    group_loop (build_type_to_file_map cfg)
      (get_or (default_file cfg) "other.tf") (get_or (skip_types cfg) [])
      blocks g = Returned g'
    /\ file_blocks g'
       = add_special (file_blocks g)
           (target_pairs (resource_target cfg) blocks)
    /\ special_blocks g'
       = special_blocks g ++ target_pairs special_target blocks.
Proof.
  induction 1 as [|b blocks Hb Hwf IH]; intros g.
  - exists g. simpl. now rewrite app_nil_r.
  - cbn [group_loop].
    destruct (group_step_exact cfg b g Hb) as (g1 & -> & Hf1 & Hs1).
    destruct (IH g1) as (g2 & Hloop & Hf2 & Hs2).
    assert (Hcons : forall target,
               target_pairs target (b :: blocks)
               = target_pairs target [b] ++ target_pairs target blocks).
    { intros target. unfold target_pairs. simpl. now rewrite app_nil_r. }
    exists g2. split; [exact Hloop|]. rewrite Hf2, Hs2, Hf1, Hs1, !Hcons.
    unfold add_special. rewrite fold_left_app, app_assoc. auto.
Qed.

Lemma dict_get_perm {V} (d d' : dict V) (k : string) :
  NoDup (keys d) -> Permutation d d' -> dict_get d k = dict_get d' k.
Proof.
  intros Hnd Hperm.
  assert (Hnd' : NoDup (keys d')).
  { eapply Permutation_NoDup; [apply Permutation_map; exact Hperm|exact Hnd]. }
  destruct (dict_get d k) as [v|] eqn:G.
  - symmetry. apply In_dict_get; auto.
    eapply Permutation_in; [exact Hperm|]. now apply dict_get_In.
  - destruct (dict_get d' k) as [v'|] eqn:G'; auto.
    apply dict_get_In in G'.
    apply (Permutation_in _ (Permutation_sym Hperm)) in G'.
    apply In_dict_get in G'; auto. congruence.
Qed.

Lemma dict_get_map {V W} (g : V -> W) (d : dict V) (k : string) :
  dict_get (map (fun it => (fst it, g (snd it))) d) k
  = option_map g (dict_get d k).
Proof.
  induction d as [|[k' v] d IH]; simpl; auto.
  now destruct (String.eqb k' k).
Qed.

(** What [split_blocks] does on well-formed tuples, file by file. *)
Lemma split_blocks_files (blocks : list block) (cfg : config) :
  Forall well_formed blocks ->
  forall open_error : string -> option string,
    ((exists r, split_blocks open_error blocks cfg = Returned r)
     <-> forall f, bucket cfg f blocks <> [] -> open_error f = None)
    /\ (forall exc,
          split_blocks open_error blocks cfg = Raised exc ->
          exists f, bucket cfg f blocks <> [] /\ open_error f = Some exc)
    /\ forall r,
         split_blocks open_error blocks cfg = Returned r ->
         NoDup (map fst (written r))
         /\ (forall f text,
               In (f, text) (written r)
               <-> bucket cfg f blocks <> []
                   /\ text = file_text (bucket cfg f blocks))
         /\ (forall f,
               dict_get (summary_files r) f
               = match bucket cfg f blocks with
                 | [] => None
                 | l => Some (List.length l)
                 end).
Proof.
  intros Hwf open_error. unfold split_blocks.
  destruct (group_loop_exact cfg blocks Hwf (mk_groups [] [] []))
    as (g & Hloop & Hfb & Hsp).
  rewrite Hloop. cbn [file_blocks special_blocks] in Hfb, Hsp.
  simpl in Hsp.
  set (fb := add_special (file_blocks g) (special_blocks g)).
  assert (Hget : forall f,
             dict_get fb f
             = match bucket cfg f blocks with
               | [] => None
               | l => Some l
               end).
  { intros f. unfold fb. rewrite Hfb, Hsp, !add_special_get.
    rewrite !texts_of_target_pairs. unfold bucket. simpl.
    destruct (texts_for (resource_target cfg) f blocks);
      destruct (texts_for special_target f blocks); reflexivity. }
  assert (Hnd : NoDup (keys fb)).
  { unfold fb. apply add_special_keys_nodup. rewrite Hfb.
    apply add_special_keys_nodup. constructor. }
  assert (Hperm : Permutation (sorted_items fb) fb) by apply sorted_perm.
  assert (Hnds : NoDup (keys (sorted_items fb))).
  { eapply Permutation_NoDup;
      [apply Permutation_map, Permutation_sym, Hperm|exact Hnd]. }
  assert (Hgets : forall f, dict_get (sorted_items fb) f = dict_get fb f).
  { intros f. now apply dict_get_perm. }
  assert (Hitems : forall f l,
             In (f, l) (sorted_items fb)
             <-> bucket cfg f blocks <> [] /\ l = bucket cfg f blocks).
  { intros f l. split.
    - intros Hin. apply In_dict_get in Hin; auto.
      rewrite Hgets, Hget in Hin.
      destruct (bucket cfg f blocks); [discriminate|].
      injection Hin as <-. split; [discriminate|reflexivity].
    - intros [Hne ->]. apply dict_get_In. rewrite Hgets, Hget.
      destruct (bucket cfg f blocks); [congruence|reflexivity]. }
  destruct (write_loop open_error (sorted_items fb) [] [])
    as [[w fs] e] eqn:E.
  pose proof (write_loop_spec _ _ _ _ _ _ _ E) as Hspec.
  destruct e as [exc|].
  - destruct Hspec as (pre & [f l] & post & Hsplit & _ & Hit & _).
    assert (Hin : In (f, l) (sorted_items fb)).
    { rewrite Hsplit. apply in_or_app. right. now left. }
    apply Hitems in Hin as [Hne _]. simpl in Hit.
    split; [|split].
    + split; [intros (r & Hr); discriminate|].
      intros Hall. rewrite (Hall f Hne) in Hit. discriminate.
    + intros exc' H. injection H as <-. eauto.
    + intros r Hr. discriminate.
  - destruct Hspec as (Hall & -> & ->). simpl.
    split; [|split].
    + split; [|eauto].
      intros _ f Hne. apply (Hall (f, bucket cfg f blocks)).
      now apply Hitems.
    + intros exc H. discriminate.
    + intros r Hr. injection Hr as <-. cbn [written summary_files].
      split; [|split].
      * rewrite map_map. simpl. exact Hnds.
      * intros f text. rewrite in_map_iff. split.
        -- intros ([f' l] & Heq & Hin). simpl in Heq.
           injection Heq as -> <-.
           apply Hitems in Hin as [Hne ->]. auto.
        -- intros [Hne ->]. exists (f, bucket cfg f blocks).
           split; auto. now apply Hitems.
      * intros f. rewrite (summary_counts _ []); [|exact Hnds].
        simpl. rewrite dict_get_map, Hgets, Hget.
        now destruct (bucket cfg f blocks).
Qed.

(** X9.  The splitter returns exactly when every file some block is sent
    to opens for writing, and otherwise raises the exception of such a
    file.  When it returns, it has written a file exactly for the names
    some block is sent to.  The file holds the texts of its resource and
    data blocks in the order of the unit, followed by the texts of its
    blocks of the other kinds in the order of the unit, with an empty
    line between two texts and a newline at the end; the summary counts
    the blocks of each file. *)
Theorem split_file_contents (open_error : string -> option string)
  (content : string) (cfg : config) :
  ((exists r, split_terraform_file open_error content cfg = Returned r)
   <-> forall f,
         bucket cfg f (parse_tf_blocks content) <> [] ->
         open_error f = None)
  /\ (forall exc,
        split_terraform_file open_error content cfg = Raised exc ->
        exists f,
          bucket cfg f (parse_tf_blocks content) <> []
          /\ open_error f = Some exc)
  /\ forall r,
       split_terraform_file open_error content cfg = Returned r ->
       NoDup (map fst (written r))
       /\ (forall f text,
             In (f, text) (written r)
             <-> bucket cfg f (parse_tf_blocks content) <> []
                 /\ text
                    = file_text (bucket cfg f (parse_tf_blocks content)))
       /\ (forall f,
             dict_get (summary_files r) f
             = match bucket cfg f (parse_tf_blocks content) with
               | [] => None
               | l => Some (List.length l)
               end).
Proof.
  unfold split_terraform_file.
  apply split_blocks_files, parse_blocks_well_formed.
Qed.

Lemma split_file_contents_witness :
  exists r,
    split_terraform_file (fun _ => None) unit_mixed SplitterExamples.cfg_sql
    = Returned r
    /\ In ("keyvault.tf",
           file_text
             (bucket SplitterExamples.cfg_sql "keyvault.tf"
                (parse_tf_blocks unit_mixed)))
         (written r).
Proof.
  destruct (split_file_contents (fun _ => None) unit_mixed
              SplitterExamples.cfg_sql) as (Hiff & _ & Hret).
  destruct (proj2 Hiff) as (r & Hr); [reflexivity|].
  exists r. split; [exact Hr|].
  apply (proj1 (proj2 (Hret r Hr))). split; [|reflexivity].
  vm_compute. discriminate.
Defined.

Lemma skipped_entries_length (skip : list string) (blocks : list block) :
  List.length (kept skip blocks)
  + List.length (skipped_entries skip blocks)
  = List.length blocks.
Proof.
  induction blocks as [|b blocks IH]; auto.
  rewrite kept_cons, skipped_entries_cons.
  destruct (is_skipped skip b) eqn:E; simpl.
  - unfold is_skipped in E. apply andb_prop in E as [_ E].
    destruct (resource_type b); [|discriminate]. simpl. lia.
  - lia.
Qed.

(** X10.  When the splitter returns, its summary accounts for every
    block: the numbers of blocks it counts in the files and the number of
    its skipped entries add up to the number of blocks extracted from the
    unit. *)
Theorem summary_adds_up (open_error : string -> option string)
  (content : string) (cfg : config) (r : split_result) :
  split_terraform_file open_error content cfg = Returned r ->
  blocks_in_files r + List.length (summary_skipped r)
  = List.length (parse_tf_blocks content).
Proof.
  unfold split_terraform_file. intros Hr.
  destruct (split_blocks_spec (parse_tf_blocks content) cfg
              (parse_blocks_well_formed content))
    as (buckets & _ & Hperm & Hfs).
  destruct (Hfs open_error) as (Hret & _).
  destruct (Hret r Hr) as (_ & Hsum & Hskip).
  unfold blocks_in_files. rewrite Hsum, Hskip, map_map. simpl.
  rewrite <- skipped_entries_length
    with (skip := get_or (skip_types cfg) []).
  f_equal.
  rewrite <- (length_map block_text), <- (Permutation_length Hperm).
  rewrite length_concat, map_map. reflexivity.
Qed.

Lemma summary_adds_up_witness :
  blocks_in_files (result_of (split_terraform_file (fun _ => None)
                                unit_mixed SplitterExamples.cfg_sql))
  + List.length
      (summary_skipped
         (result_of (split_terraform_file (fun _ => None) unit_mixed
                       SplitterExamples.cfg_sql)))
  = List.length (parse_tf_blocks unit_mixed).
Proof.
  apply (summary_adds_up (fun _ => None) unit_mixed
           SplitterExamples.cfg_sql).
  vm_compute. reflexivity.
Defined.

Lemma prefix_scan_in (rt f : string) (d : dict string) :
  prefix_scan rt d = Some f -> exists m, In (m, f) d.
Proof.
  induction d as [|[m v] d IH]; simpl; [discriminate|].
  destruct (startswith rt m).
  - intros H. injection H as <-. eauto.
  - intros H. destruct (IH H) as (m' & Hm'). eauto.
Qed.

Lemma set_pair_fold_in (pairs : list (string * string)) (k v : string) :
  forall d : dict string,
    In (k, v) (fold_left set_pair pairs d) ->
    In (k, v) d \/ In (k, v) pairs.
Proof.
  induction pairs as [|[k' v'] pairs IH]; intros d H; simpl in *; auto.
  apply IH in H as [H|H]; auto.
  apply in_dict_set in H as [H|[-> ->]]; auto.
Qed.

Lemma index_file_configured (cfg : config) (k f : string) :
  In (k, f) (build_type_to_file_map cfg) ->
  In f (keys (get_or (mappings cfg) [])).
Proof.
  rewrite build_type_to_file_map_pairs. intros H.
  apply set_pair_fold_in in H as [[]|H].
  unfold configured_pairs in H.
  apply in_flat_map in H as ([file types] & Hin & H).
  apply in_map_iff in H as (t & Heq & _). simpl in Heq.
  injection Heq as _ <-.
  apply in_map_iff. exists (file, types). auto.
Qed.

Lemma special_file_in (kind f : string) :
  special_file kind = Some f -> In f special_files.
Proof.
  unfold special_file, special_files.
  repeat match goal with
         | |- context [if ?c then _ else _] => destruct c
         end; intros H; try discriminate; injection H as <-; simpl; auto 10.
Qed.

Lemma texts_for_target (target : block -> option string) (f : string)
  (bs : list block) :
  texts_for target f bs <> [] -> exists b, In b bs /\ target b = Some f.
Proof.
  unfold texts_for. intros H.
  destruct (filter _ bs) as [|b l] eqn:E; [now elim H|].
  assert (Hin : In b (filter
                        (fun b => match target b with
                                  | Some f' => String.eqb f' f
                                  | None => false
                                  end) bs))
    by (rewrite E; now left).
  apply filter_In in Hin as [Hin Hb]. exists b. split; auto.
  destruct (target b) as [f'|]; [|discriminate].
  apply String.eqb_eq in Hb. now subst.
Qed.

(** X11.  The splitter writes no file under a name of its own making:
    when it returns, the name of every file it wrote is a file name of
    the mappings, the
    default file, or one of the six fixed names of the blocks that are
    not resources. *)
Theorem written_file_names (open_error : string -> option string)
  (content : string) (cfg : config)
  (r : split_result) (f : string) :
  split_terraform_file open_error content cfg = Returned r ->
  In f (map fst (written r)) ->
  In f (keys (get_or (mappings cfg) []))
  \/ f = get_or (default_file cfg) "other.tf"
  \/ In f special_files.
Proof.
  unfold split_terraform_file. intros Hr Hin.
  destruct (split_blocks_files (parse_tf_blocks content) cfg
              (parse_blocks_well_formed content) open_error)
    as (_ & _ & Hret).
  destruct (Hret r Hr) as (_ & Hfiles & _).
  apply in_map_iff in Hin as ([f' text] & Heq & Hin). simpl in Heq.
  subst f'. apply Hfiles in Hin as [Hne _].
  unfold bucket in Hne.
  destruct (texts_for (resource_target cfg) f (parse_tf_blocks content))
    eqn:E1.
  - right. right.
    destruct (texts_for_target special_target f (parse_tf_blocks content))
      as (b & _ & Hb); [exact Hne|].
    unfold special_target in Hb.
    destruct (is_resource_kind (block_type b)); [discriminate|].
    eapply special_file_in; eauto.
  - destruct (texts_for_target (resource_target cfg) f
                (parse_tf_blocks content)) as (b & _ & Hb);
      [rewrite E1; discriminate|].
    unfold resource_target in Hb.
    destruct (is_resource_kind (block_type b)); [|discriminate].
    destruct (resource_type b) as [t|]; [|discriminate].
    unfold get_target_file in Hb.
    destruct (str_in t _); [discriminate|].
    destruct (dict_get (build_type_to_file_map cfg) t) as [f1|] eqn:G.
    + injection Hb as <-. left.
      eapply index_file_configured. apply dict_get_In. eauto.
    + destruct (prefix_scan t (build_type_to_file_map cfg)) as [f1|] eqn:P.
      * injection Hb as <-. left.
        apply prefix_scan_in in P as (m & Hm).
        eapply index_file_configured; eauto.
      * injection Hb as <-. auto.
Qed.

Lemma written_file_names_witness :
  In "keyvault.tf" (keys (get_or (mappings SplitterExamples.cfg_sql) []))
  \/ "keyvault.tf" = get_or (default_file SplitterExamples.cfg_sql) "other.tf"
  \/ In "keyvault.tf" special_files.
Proof.
  apply (written_file_names (fun _ => None) unit_mixed
           SplitterExamples.cfg_sql
           (result_of (split_terraform_file (fun _ => None) unit_mixed
                         SplitterExamples.cfg_sql))).
  - vm_compute. reflexivity.
  - vm_compute. auto.
Defined.

Lemma Scan_no_header (i : nat) (rest : list string) (ss : list span) :
  Scan i rest ss ->
  (forall line, In line rest -> header line = None) ->
  ss = [].
Proof.
  induction 1 as [i | i line rest ss Hh Hs IH
                 | i line rest kind rtype rname bl ret ss Hh He Hs IH];
    intros Hnone; auto.
  - apply IH. intros l Hl. apply Hnone. now right.
  - rewrite (Hnone line (or_introl eq_refl)) in Hh. discriminate.
Qed.

(** X12.  A unit none of whose lines is a block header yields no block,
    and the splitter then writes no file and returns an empty summary,
    whatever the configuration and whether files open or not. *)
Theorem no_header_nothing_written (open_error : string -> option string)
  (content : string) (cfg : config) :
  (forall line, In line (split_lines content) -> header line = None) ->
  parse_tf_blocks content = []
  /\ split_terraform_file open_error content cfg
     = Returned (mk_split_result [] [] []).
Proof.
  intros Hnone.
  assert (Hparse : parse_tf_blocks content = []).
  { destruct (parse_tf_blocks_scan content) as (ss & Hscan & ->).
    now rewrite (Scan_no_header _ _ _ Hscan Hnone). }
  split; auto. unfold split_terraform_file. now rewrite Hparse.
Qed.

Lemma no_header_nothing_written_witness :
  parse_tf_blocks unit_comment = []
  /\ split_terraform_file (fun _ => Some "OSError") unit_comment
       SplitterExamples.cfg_sql
     = Returned (mk_split_result [] [] []).
Proof.
  apply no_header_nothing_written.
  intros line Hin. vm_compute in Hin.
  repeat (destruct Hin as [<-|Hin]; [vm_compute; reflexivity|]).
  contradiction.
Defined.

End SplitterFilesProofs.

(* ================================================================== *)
(** * The order of the written files                                   *)
(* ================================================================== *)

Section SortedBy.
Import Py.
Context {A : Type} (leb : A -> A -> bool).
Hypothesis leb_total : forall a b, leb a b = true \/ leb b a = true.
Hypothesis leb_trans :
  forall a b c, leb a b = true -> leb b c = true -> leb a c = true.

Lemma insert_sorted_sorted (x : A) (l : list A) :
  StronglySorted (fun a b => leb a b = true) l ->
  StronglySorted (fun a b => leb a b = true) (insert_sorted leb x l).
Proof.
  induction 1 as [|y l Hs IH Hall]; simpl.
  - repeat constructor.
  - destruct (leb x y) eqn:E.
    + constructor.
      * now constructor.
      * constructor; auto. eapply Forall_impl; [|exact Hall].
        intros z Hz. eapply leb_trans; eauto.
    + assert (Hyx : leb y x = true).
      { destruct (leb_total x y) as [H|H]; [congruence|exact H]. }
      constructor; auto.
      apply Forall_forall. intros z Hz.
      apply (Permutation_in _ (insert_sorted_perm leb x l)) in Hz.
      destruct Hz as [<-|Hz]; auto.
      rewrite Forall_forall in Hall. now apply Hall.
Qed.

Lemma sorted_sorted (l : list A) :
  StronglySorted (fun a b => leb a b = true) (sorted leb l).
Proof.
  unfold sorted. induction l as [|x l IH]; simpl.
  - constructor.
  - now apply insert_sorted_sorted.
Qed.

End SortedBy.

Section WrittenOrder.
Import Py Re Splitter SplitterRun SplitterFiles.

Lemma string_compare_trans (s1 : string) :
  forall s2 s3,
    String.compare s1 s2 <> Gt -> String.compare s2 s3 <> Gt ->
    String.compare s1 s3 <> Gt.
Proof.
  induction s1 as [|c1 s1 IH]; intros [|c2 s2] [|c3 s3]; simpl;
    try congruence.
  unfold Ascii.compare.
  destruct (N.compare_spec (N_of_ascii c1) (N_of_ascii c2)) as [E12|L12|G12];
    destruct (N.compare_spec (N_of_ascii c2) (N_of_ascii c3))
      as [E23|L23|G23];
    try congruence; intros H12 H23.
  - rewrite E12, E23, N.compare_refl. eauto.
  - rewrite E12. apply N.compare_lt_iff in L23. rewrite L23. congruence.
  - rewrite <- E23. apply N.compare_lt_iff in L12. rewrite L12. congruence.
  - assert (H : N.compare (N_of_ascii c1) (N_of_ascii c3) = Lt)
      by (apply N.compare_lt_iff; lia).
    rewrite H. congruence.
Qed.

Lemma string_leb_compare (a b : string) :
  String.leb a b = true <-> String.compare a b <> Gt.
Proof.
  unfold String.leb. destruct (String.compare a b); split; congruence.
Qed.

Lemma string_leb_trans (a b c : string) :
  String.leb a b = true -> String.leb b c = true -> String.leb a c = true.
Proof.
  rewrite !string_leb_compare. apply string_compare_trans.
Qed.

Lemma string_ltb_leb (a b : string) :
  String.leb a b = true -> a <> b -> String.ltb a b = true.
Proof.
  unfold String.leb, String.ltb. intros H Hne.
  destruct (String.compare a b) eqn:E; auto.
  apply String.compare_eq_iff in E. contradiction.
Qed.

Lemma sorted_items_order {V} (fb : dict V) :
  NoDup (keys fb) ->
  StronglySorted (fun a b => String.ltb a b = true)
    (keys (sorted (fun a b : string * V => String.leb (fst a) (fst b)) fb)).
Proof.
  intros Hnd.
  set (items := sorted (fun a b : string * V => String.leb (fst a) (fst b))
                  fb).
  assert (Hs : StronglySorted
                 (fun a b : string * V => String.leb (fst a) (fst b) = true)
                 items).
  { apply sorted_sorted.
    - intros a b. apply String.leb_total.
    - intros a b c. apply string_leb_trans. }
  assert (Hnds : NoDup (keys items)).
  { eapply Permutation_NoDup;
      [apply Permutation_map, Permutation_sym, sorted_perm|exact Hnd]. }
  clearbody items. clear Hnd.
  induction Hs as [|it items Hs IH Hall]; simpl; constructor.
  - apply IH. now inversion Hnds.
  - inversion Hnds as [|? ? Hnotin _]; subst.
    apply Forall_forall. intros k Hk.
    apply in_map_iff in Hk as (it' & <- & Hin).
    rewrite Forall_forall in Hall.
    apply string_ltb_leb; [now apply Hall|].
    intros Heq. apply Hnotin. rewrite Heq.
    apply in_map_iff. eauto.
Qed.

(** X13.  When the splitter returns, it has written the files in the
    ascending order of their names, no name twice, and the summary lists
    them in the same order. *)
Theorem files_written_in_name_order (open_error : string -> option string)
  (content : string) (cfg : config) (r : split_result) :
  split_terraform_file open_error content cfg = Returned r ->
  StronglySorted (fun a b => String.ltb a b = true) (map fst (written r))
  /\ keys (summary_files r) = map fst (written r).
Proof.
  unfold split_terraform_file, split_blocks.
  destruct (group_loop_exact cfg (parse_tf_blocks content)
              (parse_blocks_well_formed content) (mk_groups [] [] []))
    as (g & Hloop & Hfb & _).
  rewrite Hloop. cbn [file_blocks] in Hfb.
  set (fb := add_special (file_blocks g) (special_blocks g)).
  assert (Hnd : NoDup (keys fb)).
  { unfold fb. apply add_special_keys_nodup. rewrite Hfb.
    apply add_special_keys_nodup. constructor. }
  assert (Hnds : NoDup (keys (sorted_items fb))).
  { eapply Permutation_NoDup;
      [apply Permutation_map, Permutation_sym, sorted_perm|exact Hnd]. }
  destruct (write_loop open_error (sorted_items fb) [] [])
    as [[w fs] [exc|]] eqn:E; [discriminate|].
  intros Hr. injection Hr as <-. cbn [written summary_files].
  apply write_loop_spec in E as (_ & -> & ->). simpl.
  rewrite (summary_counts _ []); [|exact Hnds].
  assert (Hw : map fst
                 (map (fun it : string * list string =>
                         (fst it, file_text (snd it)))
                    (sorted_items fb))
               = keys (sorted_items fb)).
  { unfold keys. rewrite map_map. reflexivity. }
  rewrite Hw. split.
  - now apply sorted_items_order.
  - unfold keys. simpl. rewrite map_map. reflexivity.
Qed.

Lemma files_written_in_name_order_witness :
  StronglySorted (fun a b => String.ltb a b = true)
    (map fst
       (written
          (result_of (split_terraform_file (fun _ => None) unit_mixed
                        SplitterExamples.cfg_sql))))
  /\ keys (summary_files
             (result_of (split_terraform_file (fun _ => None) unit_mixed
                           SplitterExamples.cfg_sql)))
     = map fst
         (written
            (result_of (split_terraform_file (fun _ => None) unit_mixed
                          SplitterExamples.cfg_sql))).
Proof.
  apply (files_written_in_name_order (fun _ => None) unit_mixed
           SplitterExamples.cfg_sql).
  vm_compute. reflexivity.
Defined.

End WrittenOrder.

(* ================================================================== *)
(** * The bodies and the edges of the dependency parser                *)
(* ================================================================== *)

Section DependencyEdges.
Import Py Re DepGraph DepGraphRun DepGraphReach.

Lemma set_match_in (ms : list (string * string * string)) (k v : string) :
  forall d,
    In (k, v) (fold_left set_match ms d) ->
    In (k, v) d \/ exists m, In m ms /\ match_id m = k /\ snd m = v.
Proof.
  induction ms as [|m ms IH]; intros d H; simpl in *; auto.
  apply IH in H as [H|(m' & Hin & Hid & Hb)]; eauto 6.
  unfold set_match in H. apply in_dict_set in H as [H|[-> ->]]; eauto 6.
Qed.

Lemma resource_match_body (s ty nm body rest : string) :
  resource_match s = Some (ty, nm, body, rest) ->
  all_chars not_rbrace body = true.
Proof.
  unfold resource_match.
  destruct (lit "resource" s) as [r0|]; [|discriminate].
  destruct (ws1 r0) as [r1|]; [|discriminate].
  destruct (quoted r1) as [[t r2]|]; [|discriminate].
  destruct (ws1 r2) as [r3|]; [|discriminate].
  destruct (quoted r3) as [[n r4]|]; [|discriminate].
  destruct (lit "{" (ws0 r4)) as [r5|]; [|discriminate].
  pose proof (take_class_all not_rbrace r5) as Hall.
  destruct (take_class not_rbrace r5) as [b [|c r6]]; [discriminate|].
  intros H. injection H as _ _ <- _. exact Hall.
Qed.

Lemma finditer_resources_body (content : string) :
  forall (skip : nat) (m : string * string * string),
    In m (finditer_resources content skip) ->
    all_chars not_rbrace (snd m) = true.
Proof.
  induction content as [|c content IH]; intros skip m H.
  - destruct skip; simpl in H; contradiction.
  - destruct skip as [|skip]; simpl in H.
    + destruct (resource_match (String c content)) as [[[[t n] b] r]|] eqn:E.
      * destruct H as [<-|H].
        -- eapply resource_match_body; eauto.
        -- eapply IH; eauto.
      * eapply IH; eauto.
    + eapply IH; eauto.
Qed.

(** X14.  The body the parser stores for an address never holds a
    closing brace: it ends in front of the first closing brace after the
    header, so what a resource says after its first nested block is not
    part of it. *)
Theorem stored_body_stops_at_closing_brace (tf_files : list string)
  (resource_id body : string) :
  dict_get (resources (parse tf_files)) resource_id = Some body ->
  all_chars not_rbrace body = true.
Proof.
  intros H. apply dict_get_In in H.
  unfold parse in H. cbn [resources] in H.
  rewrite parse_files_matches in H.
  apply set_match_in in H as [[]|(m & Hin & _ & <-)].
  unfold all_matches in Hin. apply in_flat_map in Hin as (c & _ & Hm).
  eapply finditer_resources_body; eauto.
Qed.

Lemma stored_body_stops_at_closing_brace_witness :
  all_chars not_rbrace " a { b = 1 " = true.
Proof.
  apply (stored_body_stops_at_closing_brace unit_nested "t.c").
  vm_compute. reflexivity.
Defined.

Lemma dict_add_keeps (deps : dict (list string)) (s r s0 t : string) :
  (exists ds, dict_get deps s0 = Some ds /\ In t ds) ->
  exists ds, dict_get (dict_add deps s r) s0 = Some ds /\ In t ds.
Proof.
  intros (ds & Hget & Hin). unfold dict_add.
  destruct (String.eqb s s0) eqn:E.
  - apply String.eqb_eq in E. subst s0.
    rewrite dict_get_set_same, Hget. eexists. split; [reflexivity|].
    apply in_set_add. auto.
  - apply String.eqb_neq in E. rewrite dict_get_set_other by auto. eauto.
Qed.

Lemma ref_step_keeps (res : dict string) (s : string)
  (deps : dict (list string)) (m : string * string) (s0 t : string) :
  (exists ds, dict_get deps s0 = Some ds /\ In t ds) ->
  exists ds, dict_get (ref_step res s deps m) s0 = Some ds /\ In t ds.
Proof.
  intros H. destruct m as [ty nm]. unfold ref_step.
  destruct (str_in ty reserved); auto.
  destruct (dict_mem res (resource_id_of ty nm)
            && negb (String.eqb (resource_id_of ty nm) s))%bool; auto.
  now apply dict_add_keeps.
Qed.

Lemma ref_step_adds (res : dict string) (s : string)
  (deps : dict (list string)) (ty nm : string) :
  ~ In ty reserved ->
  In (resource_id_of ty nm) (keys res) ->
  resource_id_of ty nm <> s ->
  exists ds,
    dict_get (ref_step res s deps (ty, nm)) s = Some ds
    /\ In (resource_id_of ty nm) ds.
Proof.
  intros Hres Hin Hne. unfold ref_step.
  apply str_in_false in Hres. rewrite Hres.
  assert (Hmem : dict_mem res (resource_id_of ty nm) = true).
  { unfold dict_mem. apply dict_get_in_keys in Hin as (v & ->). reflexivity. }
  apply String.eqb_neq in Hne. rewrite Hmem, Hne. simpl.
  unfold dict_add. rewrite dict_get_set_same. eexists. split; [reflexivity|].
  apply in_set_add. auto.
Qed.

Lemma refs_fold_keeps (res : dict string) (s s0 t : string)
  (ms : list (string * string)) :
  forall deps,
    (exists ds, dict_get deps s0 = Some ds /\ In t ds) ->
    exists ds,
      dict_get (fold_left (ref_step res s) ms deps) s0 = Some ds
      /\ In t ds.
Proof.
  induction ms as [|m ms IH]; intros deps H; simpl; auto.
  apply IH. now apply ref_step_keeps.
Qed.

Lemma refs_fold_adds (res : dict string) (s ty nm : string)
  (ms : list (string * string)) :
  ~ In ty reserved ->
  In (resource_id_of ty nm) (keys res) ->
  resource_id_of ty nm <> s ->
  In (ty, nm) ms ->
  forall deps,
    exists ds,
      dict_get (fold_left (ref_step res s) ms deps) s = Some ds
      /\ In (resource_id_of ty nm) ds.
Proof.
  intros Hres Hin Hne.
  induction ms as [|m ms IH]; intros Hm deps; [contradiction|].
  simpl. destruct Hm as [->|Hm].
  - apply refs_fold_keeps. now apply ref_step_adds.
  - now apply IH.
Qed.

Lemma extract_dependencies_complete (res : dict string)
  (s body ty nm : string) :
  In (s, body) res ->
  In (ty, nm) (finditer_refs None body 0) ->
  ~ In ty reserved ->
  In (resource_id_of ty nm) (keys res) ->
  resource_id_of ty nm <> s ->
  exists ds,
    dict_get (_extract_dependencies res []) s = Some ds
    /\ In (resource_id_of ty nm) ds.
Proof.
  intros Hs Hm Hres Hin Hne. unfold _extract_dependencies.
  assert (Hkeep : forall items deps,
             (exists ds, dict_get deps s = Some ds
                         /\ In (resource_id_of ty nm) ds) ->
             exists ds,
               dict_get
                 (fold_left
                    (fun deps (item : string * string) =>
                       let (resource_id, body) := item in
                       fold_left (ref_step res resource_id)
                         (finditer_refs None body 0) deps)
                    items deps) s = Some ds
               /\ In (resource_id_of ty nm) ds).
  { induction items as [|[s' b'] items IH]; intros deps H; simpl; auto.
    apply IH. now apply refs_fold_keeps. }
  generalize (@nil (string * list string)).
  revert Hs. generalize res at 1 3. intros items.
  induction items as [|[s' b'] items IH]; intros Hs deps; [contradiction|].
  simpl. destruct Hs as [Heq|Hs].
  - injection Heq as -> ->. apply Hkeep. now apply refs_fold_adds.
  - now apply IH.
Qed.

(** X15.  Every reference gives its edge: when the stored body of an
    address of the unit holds a token whose first segment is not a
    reserved word, and the first two segments of the token spell another
    address of the unit, the dependency set of the first address holds
    the second. *)
Theorem reference_gives_edge (tf_files : list string)
  (source body ref_type ref_name : string) :
  dict_get (resources (parse tf_files)) source = Some body ->
  In (ref_type, ref_name) (finditer_refs None body 0) ->
  ~ In ref_type reserved ->
  In (resource_id_of ref_type ref_name) (keys (resources (parse tf_files))) ->
  resource_id_of ref_type ref_name <> source ->
  edge (parse tf_files) source (resource_id_of ref_type ref_name).
Proof.
  intros Hbody Hm Hres Hin Hne.
  apply dict_get_In in Hbody.
  destruct (extract_dependencies_complete _ _ _ _ _ Hbody Hm Hres Hin Hne)
    as (ds & Hget & Ht).
  exists ds. split; auto.
  apply dict_get_In. exact Hget.
Qed.

Lemma reference_gives_edge_witness :
  edge (parse unit_nsg) "t.c" (resource_id_of "t" "d").
Proof.
  apply (reference_gives_edge unit_nsg "t.c"
           " a = nsg.id b = var.foo c = t.d.id " "t" "d").
  - vm_compute. reflexivity.
  - vm_compute. auto.
  - vm_compute. intros H.
    repeat (destruct H as [H|H]; [discriminate H|]). exact H.
  - vm_compute. auto.
  - vm_compute. discriminate.
Defined.

Lemma ref_match_name (prev : option ascii) (s ty nm rest : string) :
  ref_match prev s = Some (ty, nm, rest) ->
  all_chars is_name_char nm = true.
Proof.
  unfold ref_match.
  destruct (match prev with Some c => is_word c | None => false end);
    [discriminate|].
  destruct (take_class is_type_char s) as [a r1].
  destruct a as [|a0 a]; [discriminate|].
  destruct (lit "." r1) as [r2|]; [|discriminate].
  pose proof (take_class_all is_name_char r2) as Hall.
  destruct (take_class is_name_char r2) as [b r3]. simpl in Hall.
  destruct b as [|b0 b]; [discriminate|].
  intros H. injection H as _ <- _. exact Hall.
Qed.

Lemma finditer_refs_name (body : string) :
  forall (prev : option ascii) (skip : nat) (ty nm : string),
    In (ty, nm) (finditer_refs prev body skip) ->
    all_chars is_name_char nm = true.
Proof.
  induction body as [|c body IH]; intros prev skip ty nm H.
  - destruct skip; simpl in H; [|contradiction].
    destruct (ref_match prev EmptyString) as [[[t n] r]|] eqn:E;
      [|contradiction].
    destruct H as [H|[]]. injection H as <- <-.
    eapply ref_match_name; eauto.
  - destruct skip as [|skip]; simpl in H.
    + destruct (ref_match prev (String c body)) as [[[t n] r]|] eqn:E.
      * destruct H as [H|H].
        -- injection H as <- <-. eapply ref_match_name; eauto.
        -- eapply IH; eauto.
      * eapply IH; eauto.
    + eapply IH; eauto.
Qed.

Lemma all_chars_impl (f g : ascii -> bool) (s : string) :
  (forall c, f c = true -> g c = true) ->
  all_chars f s = true -> all_chars g s = true.
Proof.
  intros Hfg. induction s as [|c s IH]; simpl; auto.
  intros H. apply andb_prop in H as [Hc Hs].
  now rewrite (Hfg c Hc), IH.
Qed.

Lemma sanitize_token_char (c : ascii) :
  is_token_char c = true ->
  is_ident_char
    (if (Ascii.eqb c "." || Ascii.eqb c "-")%bool then "_"%char else c)
  = true.
Proof.
  destruct c as [b0 b1 b2 b3 b4 b5 b6 b7].
  destruct b0, b1, b2, b3, b4, b5, b6, b7; vm_compute;
    intros H; first [reflexivity | discriminate H].
Qed.

Lemma sanitize_token (s : string) :
  all_chars is_token_char s = true ->
  all_chars is_ident_char (sanitize s) = true.
Proof.
  induction s as [|c s IH]; intros H; [reflexivity|].
  cbn [all_chars] in H. apply andb_prop in H as [Hc Hs].
  rewrite sanitize_cons. cbn [all_chars].
  now rewrite (sanitize_token_char c Hc), IH.
Qed.

(** X16.  The target of a Mermaid edge is always a plain identifier: the
    address an edge goes to, once sanitized, is made of small letters,
    digits and underscores only. *)
Theorem mermaid_edge_target_is_identifier (tf_files : list string)
  (source target : string) :
  edge (parse tf_files) source target ->
  all_chars is_ident_char (sanitize target) = true.
Proof.
  intros (ds & Hin & Ht).
  destruct (parse_deps_ok tf_files) as [_ Hok].
  destruct (Hok _ _ Hin) as (_ & _ & Hedges).
  destruct (Hedges _ Ht) as (_ & _ & body & ty & nm & _ & Htok & -> & _).
  apply sanitize_token. unfold resource_id_of.
  rewrite !all_chars_append. simpl.
  apply finditer_refs_type in Htok as Hty.
  apply finditer_refs_name in Htok as Hnm.
  rewrite (all_chars_impl is_type_char is_token_char ty),
    (all_chars_impl is_name_char is_token_char nm); auto.
  - intros c Hc. unfold is_token_char. now rewrite Hc.
  - intros c Hc. unfold is_token_char, is_name_char.
    unfold is_type_char in Hc.
    apply orb_prop in Hc as [-> | ->]; rewrite ?orb_true_r; reflexivity.
Qed.

Lemma mermaid_edge_target_is_identifier_witness :
  all_chars is_ident_char (sanitize "t.d") = true.
Proof.
  apply (mermaid_edge_target_is_identifier unit_nsg "t.c").
  exists ["t.d"]. split; vm_compute; auto.
Defined.

End DependencyEdges.

(* ================================================================== *)
(** * The addresses the text tree prints                               *)
(* ================================================================== *)

Section TreeReach.
Import Py Re DepGraph DepGraphRun DepGraphReach.

Variable set_iter : list string -> list string.
Hypothesis set_iter_in : forall s x, In x (set_iter s) -> In x s.
Hypothesis set_iter_all : forall s x, In x s -> In x (set_iter s).

Variable p : parser.
Hypothesis deps_nodup : NoDup (keys (dependencies p)).

Lemma path_trans (a b c : string) : path p a b -> path p b c -> path p a c.
Proof.
  intros Hab Hbc. induction Hbc; auto. eapply path_step; eauto.
Qed.

Lemma reachable_incl (from from' : list string) (x : string) :
  incl from from' -> reachable p from x -> reachable p from' x.
Proof. intros Hincl (r & Hr & Hpath). exists r. auto. Qed.

Lemma explored_nil (st : tree_state) : explored p [] st st.
Proof.
  split; [apply incl_refl|]. split; [intros r []|].
  intros y Hy Hn. contradiction.
Qed.

Lemma explored_cons (d : string) (rest : list string)
  (st st1 st' : tree_state) :
  explored p [d] st st1 -> explored p rest st1 st' ->
  explored p (d :: rest) st st'.
Proof.
  intros (Hi1 & Hd1 & Hnew1) (Hi2 & Hd2 & Hnew2).
  split; [eapply incl_tran; eauto|]. split.
  - intros r [<-|Hr]; auto. apply Hi2, Hd1. now left.
  - intros y Hy Hn.
    destruct (in_dec string_dec y (visited st1)) as [Hin1|Hout1].
    + destruct (Hnew1 y Hin1 Hn) as [Hreach Hclosed]. split.
      * eapply reachable_incl; [|exact Hreach].
        intros x [<-|[]]. now left.
      * intros z Hz. apply Hi2. now apply Hclosed.
    + destruct (Hnew2 y Hy Hout1) as [Hreach Hclosed]. split; auto.
      eapply reachable_incl; [|exact Hreach].
      intros x Hx. now right.
Qed.

Lemma each_dep_explored
  (call : string -> string -> bool -> tree_state -> option tree_state) :
  (forall d pfx il st st',
      call d pfx il st = Some st' -> explored p [d] st st') ->
  forall (rest : list string) (n : nat) (pfx : string) (i : nat)
         (st st' : tree_state),
    each_dep call n pfx i rest st = Some st' -> explored p rest st st'.
Proof.
  intros Hcall.
  induction rest as [|d rest IH]; intros n pfx i st st' H; simpl in H.
  - injection H as <-. apply explored_nil.
  - destruct (call d pfx (Nat.eqb i (n - 1)) st) as [st1|] eqn:E;
      [|discriminate].
    eapply explored_cons; eauto.
Qed.

Lemma explored_visited (r : string) (st : tree_state) :
  In r (visited st) -> explored p [r] st st.
Proof.
  intros Hin. split; [apply incl_refl|]. split.
  - intros x [<-|[]]. exact Hin.
  - intros y Hy Hn. contradiction.
Qed.

Lemma print_tree_explored (fuel : nat) :
  forall (r pfx : string) (il : bool) (st st' : tree_state),
    print_tree set_iter fuel p r pfx il st = Some st' ->
    explored p [r] st st'.
Proof.
  induction fuel as [|fuel IH]; intros r pfx il st st' H;
    cbn [print_tree] in H;
    destruct (str_in r (visited st)) eqn:E; try discriminate.
  - injection H as <-. now apply explored_visited, str_in_In.
  - injection H as <-. now apply explored_visited, str_in_In.
  - apply (each_dep_explored _ IH) in H.
    destruct H as (Hi & Hd & Hnew). cbn [visited] in Hi, Hnew.
    apply str_in_false in E.
    assert (Hr : In r (visited st')).
    { apply Hi, in_set_add. now left. }
    split; [|split].
    + intros x Hx. apply Hi, in_set_add. now right.
    + intros x [<-|[]]. exact Hr.
    + intros y Hy Hn.
      destruct (string_dec y r) as [->|Hne].
      * split; [exists r; split; [now left|constructor]|].
        intros z (ds & Hin & Hz).
        apply In_dict_get in Hin; auto.
        apply Hd. rewrite Hin. now apply set_iter_all.
      * assert (Hn1 : ~ In y (set_add r (visited st))).
        { rewrite in_set_add. tauto. }
        destruct (Hnew y Hy Hn1) as [(d & Hdin & Hpath) Hclosed].
        split; auto.
        exists r. split; [now left|].
        apply set_iter_in in Hdin.
        destruct (dict_get (dependencies p) r) as [ds|] eqn:G;
          [|contradiction].
        apply path_trans with (b := d); auto.
        eapply path_step; [constructor|].
        exists ds. split; auto. now apply dict_get_In.
Qed.

Lemma each_root_explored (fuel n : nat) (roots : list string) :
  forall (i : nat) (st st' : tree_state),
    each_root set_iter fuel p n i roots st = Some st' ->
    explored p roots st st'.
Proof.
  induction roots as [|r roots IH]; intros i st st' H; simpl in H.
  - injection H as <-. apply explored_nil.
  - destruct (print_tree set_iter fuel p r EmptyString (Nat.eqb i (n - 1)) st)
      as [st1|] eqn:E; [|discriminate].
    eapply explored_cons; eauto.
    eapply print_tree_explored; eauto.
Qed.

(** The addresses visited at the end of the traversal are the addresses
    reached from the roots. *)
Lemma tree_run_reachable (st : tree_state) :
  tree_run set_iter p = Some st ->
  forall x, In x (visited st) <-> reachable p (tree_roots p) x.
Proof.
  unfold tree_run. intros H.
  apply each_root_explored in H. destruct H as (_ & Hroots & Hnew).
  cbn [visited] in Hnew.
  assert (Hperm : Permutation (sorted String.leb (tree_roots p))
                    (tree_roots p)) by apply sorted_perm.
  intros x. split.
  - intros Hx. destruct (Hnew x Hx) as [Hreach _]; [intros []|].
    eapply reachable_incl; [|exact Hreach].
    intros r Hr. eapply Permutation_in; eauto.
  - intros (r & Hr & Hpath).
    induction Hpath as [|y z Hpath IH Hedge].
    + apply Hroots. eapply Permutation_in; [apply Permutation_sym|]; eauto.
    + destruct (Hnew y IH) as [_ Hclosed]; [intros []|]. now apply Hclosed.
Qed.

End TreeReach.

Section TreeOfUnit.
Import Py Re DepGraph DepGraphRun DepGraphReach.

(** X17.  When the loops over the dependency sets go through every
    member, the text tree has a line for an address exactly when the
    address is a root or is reached from a root along dependency edges;
    the traversal returns in any case. *)
Theorem tree_prints_reachable (tf_files : list string)
  (set_iter : list string -> list string) :
  (forall s x, In x (set_iter s) <-> In x s) ->
  exists st entries,
    tree_run set_iter (parse tf_files) = Some st
    /\ tree_lines st
       = ["Terraform Resource Dependencies:"; EmptyString]
           ++ map entry_line entries
    /\ forall x,
         In x (map snd entries)
         <-> reachable (parse tf_files) (tree_roots (parse tf_files)) x.
Proof.
  intros Hiter.
  destruct (parse_deps_ok tf_files) as [Hnd Hok].
  destruct (tree_run_spec set_iter (fun s x => proj1 (Hiter s x))
              (parse tf_files))
    as (st & entries & Hrun & Hlines & Hvis & _).
  { intros r ds d Hget Hd. apply dict_get_In in Hget.
    destruct (Hok _ _ Hget) as (_ & _ & Hedges).
    now destruct (Hedges d Hd). }
  exists st, entries. split; [exact Hrun|]. split; [exact Hlines|].
  rewrite <- Hvis.
  apply (tree_run_reachable set_iter (fun s x => proj1 (Hiter s x))
           (fun s x => proj2 (Hiter s x)) (parse tf_files) Hnd st Hrun).
Qed.

Lemma tree_prints_reachable_witness :
  exists st entries,
    tree_run (fun s => s) (parse unit_cycle_and_root) = Some st
    /\ tree_lines st
       = ["Terraform Resource Dependencies:"; EmptyString]
           ++ map entry_line entries
    /\ forall x,
         In x (map snd entries)
         <-> reachable (parse unit_cycle_and_root)
               (tree_roots (parse unit_cycle_and_root)) x.
Proof.
  apply (tree_prints_reachable unit_cycle_and_root (fun s => s)).
  intros s x. split; auto.
Defined.

End TreeOfUnit.
